(** * Linear flows of MDP: a shallow embedding of [mdp/linear_flows.py]

    The development follows the source file top to bottom:

    - [Py]: the fragment of Python 2 the source relies on (exceptions,
      truthiness, [range], list indexing and slicing as implemented by
      CPython 2.7), and a small state-and-exception monad;
    - [Model]: the objects the source manipulates (flows, crash recovery
      settings, data iterators, checkpoints) and the interface of the
      nodes, which live outside [linear_flows.py];
    - [Container]: the container methods of [Flow]
      ([__getitem__], [__setitem__], [__delitem__], [__add__], [append],
      [extend], [insert], [pop]) with their dimension checks;
    - [Engine]: training, execution, inversion, crash recovery and
      checkpoints ([Flow.train], [Flow.execute], [Flow.inverse],
      [CheckpointFlow.train]);
    - [Checkpoints]: the checkpoint functions ([CheckpointFunction],
      [CheckpointSaveFunction]);
    - [Example]: a concrete family of nodes to run the methods on.

    The properties follow: [ContainerFacts] and [EngineFacts] hold the
    proofs about the dimension check, training, execution and crash
    recovery; [ContainerLaws], [EngineLaws] and [CheckpointLaws] the
    invariants, the edge cases and the round trips; the modules of
    examples hold instances on the concrete nodes.

    Integers are [Z], as Python integers are unbounded. The one unbounded
    loop of the source, [while True] in [_train_node], runs on a budget of
    iterations. *)

From Stdlib Require Import ZArith Lia Bool.
From stdpp Require Import base option list gmap strings pretty.

Set Warnings "-register-all".

Local Open Scope string_scope.
Local Open Scope Z_scope.

(** * The Python fragment *)

Module Py.

(** Characters that a Rocq string literal cannot spell. *)
Definition nl : string := String (Ascii.ascii_of_nat 10) EmptyString.
Definition dquote : string := String (Ascii.ascii_of_nat 34) EmptyString.

(** ['c' * n] for a one-character string. *)
Fixpoint str_mul (c : string) (n : nat) : string :=
  match n with
  | O => EmptyString
  | S n' => c +:+ str_mul c n'
  end.

(** [s] occurs in [t]. *)
Definition contains (t s : string) : Prop :=
  exists pre post : string, t = pre +:+ s +:+ post.

(** Exceptions. Every exception of the model derives from [Exception];
    the class is the constructor, the payload is what the source stores in
    the instance. [FlowExceptionCR] keeps the final message, the
    [parent_exception] attribute and the [filename] attribute (present only
    when a crash dump was written); its [crashing_obj] attribute is the
    flow itself and is not repeated here. *)
Inductive exn : Type :=
| ValueError (msg : string)
| TypeError (msg : string)
| IndexError (msg : string)
| TrainingFinishedException (msg : string)
| FlowException (msg : string)
| OtherException (cls : string) (msg : string)
| FlowExceptionCR (msg : string) (parent_exception : exn)
                  (filename : option string).

Definition exn_message (e : exn) : string :=
  match e with
  | ValueError m | TypeError m | IndexError m
  | TrainingFinishedException m | FlowException m => m
  | OtherException _ m => m
  | FlowExceptionCR m _ _ => m
  end.

(** [isinstance(e, mdp.TrainingFinishedException)] *)
Definition is_training_finished (e : exn) : bool :=
  match e with
  | TrainingFinishedException _ => true
  | _ => false
  end.

(** The outcome of running a piece of code: a value, a raised exception,
    or [OutOfFuel] when a [while True] loop of the source was cut by the
    model's iteration budget. [OutOfFuel] is not an exception: no
    [except] clause sees it. *)
Inductive result (A : Type) : Type :=
| Ok (a : A)
| Raise (e : exn)
| OutOfFuel.
Arguments Ok {A} a.
Arguments Raise {A} e.
Arguments OutOfFuel {A}.

(** ** State and exceptions *)

Definition M (S A : Type) : Type := S -> result A * S.

Definition ret {S A} (a : A) : M S A := fun s => (Ok a, s).

Definition bind {S A B} (m : M S A) (k : A -> M S B) : M S B :=
  fun s =>
    match m s with
    | (Ok a, s') => k a s'
    | (Raise e, s') => (Raise e, s')
    | (OutOfFuel, s') => (OutOfFuel, s')
    end.

Definition raise {S A} (e : exn) : M S A := fun s => (Raise e, s).
Definition out_of_fuel {S A} : M S A := fun s => (OutOfFuel, s).
Definition get {S} : M S S := fun s => (Ok s, s).
Definition gets {S A} (f : S -> A) : M S A := fun s => (Ok (f s), s).
Definition put {S} (s : S) : M S unit := fun _ => (Ok tt, s).
Definition modify {S} (f : S -> S) : M S unit := fun s => (Ok tt, f s).

(** A pure computation that may raise. *)
Definition lift {S A} (r : result A) : M S A := fun s => (r, s).

(** [try: body  except Exception, e: handler e] *)
Definition try_except {S A} (body : M S A) (handler : exn -> M S A) : M S A :=
  fun s =>
    match body s with
    | (Raise e, s') => handler e s'
    | other => other
    end.

(** Sequencing of pure computations that may raise. *)
Definition and_then {A B} (r : result A) (k : A -> result B) : result B :=
  match r with
  | Ok a => k a
  | Raise e => Raise e
  | OutOfFuel => OutOfFuel
  end.

Declare Scope res_scope.
Delimit Scope res_scope with res.
Notation "x <- c1 ;; c2" := (and_then c1 (fun x => c2))
  (at level 100, c1 at next level, right associativity) : res_scope.

Declare Scope py_scope.
Delimit Scope py_scope with py.
Notation "x <- c1 ;; c2" := (bind c1 (fun x => c2))
  (at level 100, c1 at next level, right associativity) : py_scope.
Notation "c1 ;;; c2" := (bind c1 (fun _ => c2))
  (at level 100, right associativity) : py_scope.

Local Open Scope py_scope.

(** [for x in xs: body x] *)
Fixpoint for_each {S A} (xs : list A) (body : A -> M S unit) : M S unit :=
  match xs with
  | [] => ret tt
  | x :: rest => body x ;;; for_each rest body
  end.

(** [for x in xs: acc = body x acc], returning the last [acc]. *)
Fixpoint for_fold {S A B} (xs : list A) (acc : B) (body : A -> B -> M S B)
  : M S B :=
  match xs with
  | [] => ret acc
  | x :: rest => acc' <- body x acc ;; for_fold rest acc' body
  end.

(** [range(n)] and [range(a, b)] *)
Definition range (n : Z) : list Z := seqZ 0 n.
Definition range2 (a b : Z) : list Z := seqZ a (b - a).

(** [len(l)] *)
Definition len {A} (l : list A) : Z := Z.of_nat (length l).

(** ** Lists: indexing *)

(** [l[i]] for an integer [i] *)
Definition list_getitem {A} (l : list A) (i : Z) : result A :=
  let i := if i <? 0 then i + len l else i in
  if (i <? 0) || (len l <=? i) then Raise (IndexError "list index out of range")
  else match l !! Z.to_nat i with
       | Some x => Ok x
       | None => Raise (IndexError "list index out of range")
       end.

(** [l[i] = x] for an integer [i] *)
Definition list_setitem {A} (l : list A) (i : Z) (x : A) : result (list A) :=
  let i := if i <? 0 then i + len l else i in
  if (i <? 0) || (len l <=? i)
  then Raise (IndexError "list assignment index out of range")
  else Ok (<[Z.to_nat i := x]> l).

(** [del l[i]] for an integer [i] *)
Definition list_delitem {A} (l : list A) (i : Z) : result (list A) :=
  let i := if i <? 0 then i + len l else i in
  if (i <? 0) || (len l <=? i)
  then Raise (IndexError "list assignment index out of range")
  else Ok (delete (Z.to_nat i) l).

(** ** Lists: slices *)

Record slice : Type := Slice {
  slice_start : option Z;
  slice_stop : option Z;
  slice_step : option Z
}.

(** The subscript of [l[key]]: an integer or a slice object. *)
Inductive key : Type :=
| KInt (i : Z)
| KSlice (s : slice).

(** Clipping of one bound of a slice ([PySlice_GetIndicesEx]). *)
Definition clip_bound (bound : option Z) (dflt step length : Z) : Z :=
  match bound with
  | None => dflt
  | Some b =>
      let b := if b <? 0 then b + length else b in
      if b <? 0 then (if step <? 0 then -1 else 0)
      else if length <=? b then (if step <? 0 then length - 1 else length)
      else b
  end.

Record indices : Type := Indices {
  ix_start : Z;
  ix_stop : Z;
  ix_step : Z;
  ix_slicelength : Z
}.

(** [slice.indices(length)] together with the length of the selection. *)
Definition slice_indices (s : slice) (length : Z) : result indices :=
  let step := default 1 (slice_step s) in
  if step =? 0 then Raise (ValueError "slice step cannot be zero")
  else
    let defstart := if step <? 0 then length - 1 else 0 in
    let defstop := if step <? 0 then -1 else length in
    let start := clip_bound (slice_start s) defstart step length in
    let stop := clip_bound (slice_stop s) defstop step length in
    let slicelength :=
      if ((step <? 0) && (start <=? stop)) || ((0 <? step) && (stop <=? start))
      then 0
      else if step <? 0 then Z.quot (stop - start + 1) step + 1
      else Z.quot (stop - start - 1) step + 1 in
    Ok (Indices start stop step slicelength).

(** The positions a slice selects, in selection order. *)
Definition selected (ix : indices) : list nat :=
  (fun i => Z.to_nat (ix_start ix + i * ix_step ix)) <$> range (ix_slicelength ix).

(** [l[s]] for a slice [s] *)
Definition list_getslice {A} (l : list A) (s : slice) : result (list A) :=
  match slice_indices s (len l) with
  | Ok ix => Ok (omap (fun i => l !! i) (selected ix))
  | Raise e => Raise e
  | OutOfFuel => OutOfFuel
  end.

(** [list_ass_slice]: replace [a[ilow:ihigh]] by [v]. *)
Definition list_ass_slice {A} (a : list A) (ilow ihigh : Z) (v : list A)
  : list A :=
  let ilow := if ilow <? 0 then 0 else if len a <? ilow then len a else ilow in
  let ihigh :=
    if ihigh <? ilow then ilow else if len a <? ihigh then len a else ihigh in
  take (Z.to_nat ilow) a ++ v ++ drop (Z.to_nat ihigh) a.

(** [l[s] = v] for a slice [s] and a sequence [v] *)
Definition list_setslice {A} (l : list A) (s : slice) (v : list A)
  : result (list A) :=
  match slice_indices s (len l) with
  | Ok ix =>
      if ix_step ix =? 1 then Ok (list_ass_slice l (ix_start ix) (ix_stop ix) v)
      else if negb (len v =? ix_slicelength ix)
      then Raise (ValueError
             ("attempt to assign sequence of size " +:+ pretty (len v) +:+
              " to extended slice of size " +:+ pretty (ix_slicelength ix)))
      else Ok (foldl (fun acc p => <[p.1 := p.2]> acc) l (zip (selected ix) v))
  | Raise e => Raise e
  | OutOfFuel => OutOfFuel
  end.

(** The elements of [l] whose position is not in [dead]. *)
Definition remove_positions {A} (dead : list nat) (l : list A) : list A :=
  omap (fun p => if bool_decide (p.1 ∈ dead) then None else Some p.2)
       (imap pair l).

(** [del l[s]] for a slice [s] *)
Definition list_delslice {A} (l : list A) (s : slice) : result (list A) :=
  match slice_indices s (len l) with
  | Ok ix =>
      if ix_step ix =? 1 then Ok (list_ass_slice l (ix_start ix) (ix_stop ix) [])
      else Ok (remove_positions (selected ix) l)
  | Raise e => Raise e
  | OutOfFuel => OutOfFuel
  end.

End Py.

(** * The objects of [linear_flows.py] *)

Module Model.
Import Py.

Section Objects.
Context {Node World ndarray Checkpoint : Type}.

(** Values stored in the attributes of a flow and in the dictionaries
    checkpoint functions return: [None], integers (booleans included),
    strings, lists of nodes, and other objects known by identity. *)
Inductive pyval : Type :=
| VNone
| VInt (z : Z)
| VStr (s : string)
| VNodes (l : list Node)
| VObject (id : nat).

(** [bool(v)] *)
Definition truthy (v : pyval) : bool :=
  match v with
  | VNone => false
  | VInt z => negb (z =? 0)
  | VStr s => negb (String.eqb s EmptyString)
  | VNodes l => negb (bool_decide (length l = 0%nat))
  | VObject _ => true
  end.

Inductive flow_class : Type := ClsFlow | ClsSimpleFlow | ClsCheckpointFlow.

Definition class_name (c : flow_class) : string :=
  match c with
  | ClsFlow => "Flow"
  | ClsSimpleFlow => "SimpleFlow"
  | ClsCheckpointFlow => "CheckpointFlow"
  end.

(** A flow instance: its class, the three attributes [Flow.__init__]
    sets, and whatever else has been stored in its [__dict__] under
    names that the class gives no meaning to. *)
Record Flow : Type := mkFlow {
  __class__ : flow_class;
  flow : list Node;
  verbose : pyval;
  _crash_recovery : pyval;
  attrs : gmap string pyval
}.

Definition set_flow (l : list Node) (f : Flow) : Flow :=
  mkFlow (__class__ f) l (verbose f) (_crash_recovery f) (attrs f).

Definition set_crash (v : pyval) (f : Flow) : Flow :=
  mkFlow (__class__ f) (flow f) (verbose f) v (attrs f).

(** [self.__dict__] *)
Definition __dict__ (f : Flow) : gmap string pyval :=
  <["flow" := VNodes (flow f)]>
    (<["verbose" := verbose f]>
       (<["_crash_recovery" := _crash_recovery f]> (attrs f))).

(** The plain methods that the classes [Flow] and [CheckpointFlow] define.
    An instance reaches them by attribute lookup, where an entry of its
    own dictionary under the same name would come first. *)
Definition method_names : list string :=
  ["_propagate_exception"; "_train_node"; "_train_check_iterators";
   "_close_last_node"; "set_crash_recovery"; "train"; "_execute_seq";
   "execute"; "_inverse_seq"; "inverse"; "copy";
   "_check_dimension_consistency"; "_check_nodes_consistency";
   "_check_value_type_isnode"; "append"; "extend"; "insert"; "pop";
   "_train_check_checkpoints"].

(** An entry of a dictionary that can be merged into the [__dict__] of a
    flow with the flow staying an instance as this record has it: the
    name [flow] is bound to a list of nodes, and no other name is one
    that the class or the object protocol ([__class__], [__dict__], ...)
    gives a meaning to. [verbose], [_crash_recovery] and every other name
    take any value. *)
Definition entry_typed (k : string) (v : pyval) : bool :=
  if String.eqb k "flow" then
    match v with VNodes _ => true | _ => false end
  else
    negb (String.prefix "__" k) && negb (existsb (String.eqb k) method_names).

Definition typed (d : gmap string pyval) : bool :=
  forallb (fun kv => entry_typed kv.1 kv.2) (map_to_list d).

(** The dictionaries a checkpoint function returns: those of typed
    entries. A dictionary that rebinds [flow] to something that is not a
    list of nodes, or that hides a method, takes the instance out of
    what [Flow] describes; no checkpoint function of the model returns
    one. *)
Record update : Type := mkUpdate {
  entries : gmap string pyval;
  entries_typed : typed entries = true
}.

(** [self.__dict__.update(d)]: every entry of [d] is written, the three
    attributes of the constructor into their fields. The entry [flow]
    of an [update] is a list of nodes. *)
Definition dict_update (d : update) (f : Flow) : Flow :=
  mkFlow (__class__ f)
         (match entries d !! "flow" with
          | Some (VNodes l) => l
          | _ => flow f
          end)
         (default (verbose f) (entries d !! "verbose"))
         (default (_crash_recovery f) (entries d !! "_crash_recovery"))
         (entries d ∪ attrs f).

(** Data handed to the nodes: arrays, and the lists and tuples a data
    iterator may yield ([isinstance(x, (list, tuple))]). *)
Inductive data : Type :=
| Array (a : ndarray)
| Sequence (xs : list data)
| Tuple (xs : list data).

(** One entry of [data_iterators]. A list can be traversed any number
    of times. A generator and any other iterator object yield what they
    have left, once; [g] names the object, whose remaining items are part
    of the machine state. Only the first of the two has type
    [types.GeneratorType]. The last case is an object without
    [__iter__]. *)
Inductive source : Type :=
| SrcNone
| SrcList (items : list data)
| SrcGenerator (g : nat)
| SrcIterator (g : nat)
| SrcNotIterable (type_str : string).

(** [el is None] *)
Definition is_None (s : source) : bool :=
  match s with SrcNone => true | _ => false end.

(** [hasattr(el, '__iter__')] *)
Definition has_iter (s : source) : bool :=
  match s with
  | SrcList _ | SrcGenerator _ | SrcIterator _ => true
  | SrcNone | SrcNotIterable _ => false
  end.

(** [type(el) is types.GeneratorType] *)
Definition is_generator (s : source) : bool :=
  match s with SrcGenerator _ => true | _ => false end.

(** A source that cannot be traversed twice. *)
Definition single_pass (s : source) : bool :=
  match s with SrcGenerator _ | SrcIterator _ => true | _ => false end.

(** The [data_iterators] argument of [train]: one array, a list of
    sources, or anything else. *)
Inductive iterators_arg : Type :=
| ItArray (a : ndarray)
| ItList (l : list source)
| ItOther (type_str : string).

(** The [checkpoints] argument of [CheckpointFlow.train]: a list with
    [None] entries allowed, or one object to be used for every node. *)
Inductive checkpoints_arg : Type :=
| CkList (l : list (option Checkpoint))
| CkSingle (c : option Checkpoint).

(** The [iterator] argument of [execute] and [inverse]. *)
Inductive exec_arg : Type :=
| ExArray (a : ndarray)
| ExIterable (s : source).

(** A pickled flow: the flow object and the state of everything it
    refers to. *)
Record Snapshot : Type := mkSnapshot {
  snap_flow : Flow;
  snap_world : World
}.

(** The state the methods run in: the flow [self], the state of the
    nodes, the iterator objects, the file system, the warnings issued and
    the lines printed. *)
Record Machine : Type := mkMachine {
  self : Flow;
  world : World;
  iterators : gmap nat (list data);
  files : gmap string Snapshot;
  tmp_counter : nat;
  warnings : list (string * string);
  stdout : list string
}.

Definition set_self (f : Flow) (m : Machine) : Machine :=
  mkMachine f (world m) (iterators m) (files m) (tmp_counter m)
            (warnings m) (stdout m).

Definition set_world (w : World) (m : Machine) : Machine :=
  mkMachine (self m) w (iterators m) (files m) (tmp_counter m)
            (warnings m) (stdout m).

Definition set_iterator (g : nat) (rest : list data) (m : Machine) : Machine :=
  mkMachine (self m) (world m) (<[g := rest]> (iterators m)) (files m)
            (tmp_counter m) (warnings m) (stdout m).

Definition write_file (name : string) (fresh : bool) (m : Machine) : Machine :=
  mkMachine (self m) (world m) (iterators m)
            (<[name := mkSnapshot (self m) (world m)]> (files m))
            (if fresh then S (tmp_counter m) else tmp_counter m)
            (warnings m) (stdout m).

Definition add_warning (category msg : string) (m : Machine) : Machine :=
  mkMachine (self m) (world m) (iterators m) (files m) (tmp_counter m)
            (warnings m ++ [(category, msg)]) (stdout m).

Definition add_line (line : string) (m : Machine) : Machine :=
  mkMachine (self m) (world m) (iterators m) (files m) (tmp_counter m)
            (warnings m) (stdout m ++ [line]).

(** [warnings.warn(msg, category)] and [print line] *)
Definition warn (category msg : string) : M Machine unit :=
  modify (add_warning category msg).
Definition print (line : string) : M Machine unit :=
  modify (add_line line).

(** Objects handed to the container methods: a node, a flow, a list,
    [None], or an object of some other type that is not iterable. *)
Inductive object : Type :=
| ObjNone
| ObjNode (n : Node)
| ObjFlow (f : Flow)
| ObjList (items : list object)
| ObjOther (type_name : string).

(** [isinstance(o, Flow)] *)
Definition is_flow (o : object) : bool :=
  match o with ObjFlow _ => true | _ => false end.

End Objects.

Arguments pyval : clear implicits.
Arguments Flow : clear implicits.
Arguments update : clear implicits.
Arguments data : clear implicits.
Arguments source : clear implicits.
Arguments iterators_arg : clear implicits.
Arguments checkpoints_arg : clear implicits.
Arguments exec_arg : clear implicits.
Arguments Snapshot : clear implicits.
Arguments Machine : clear implicits.
Arguments object : clear implicits.

(** The nodes, the array library and the checkpoint functions are defined
    outside [linear_flows.py]; the flow only uses this interface. A method
    of a node runs on the state of the nodes and may raise. *)
Class Units (Node World ndarray Checkpoint : Type) : Type := {
  (** [type(node).__name__] and [str(node)] *)
  node_type_name : Node -> string;
  node_str : Node -> World -> string;
  (** [node.input_dim], [node.output_dim]: [None] or an integer *)
  input_dim : Node -> World -> option Z;
  output_dim : Node -> World -> option Z;
  is_trainable : Node -> World -> bool;
  is_training : Node -> World -> bool;
  get_remaining_train_phase : Node -> World -> Z;
  (** [len(node._train_seq)] *)
  train_seq_len : Node -> World -> Z;
  (** [node.train(x, *arg)] *)
  node_train : Node -> data ndarray -> list (data ndarray) -> World ->
               result unit * World;
  node_stop_training : Node -> World -> result unit * World;
  node_execute : Node -> data ndarray -> World ->
                 result (data ndarray) * World;
  node_inverse : Node -> data ndarray -> World ->
                 result (data ndarray) * World;
  (** [numx.concatenate(res)] *)
  numx_concatenate : list (data ndarray) -> result (data ndarray);
  (** [''.join(traceback.format_exception(cls, e, tb))] *)
  format_exception : exn -> string;
  (** the file name [tempfile.mkstemp] picks for the n-th dump *)
  mkstemp : nat -> string;
  (** [checkpoints[i](node)]: [None] or a dictionary *)
  call_checkpoint : Checkpoint -> Node -> World ->
                    result (option (update Node)) * World
}.

End Model.

(** * The container methods of [Flow] *)

Module Container.
Import Py Model.
Local Open Scope py_scope.

Section Methods.
Context {Node World ndarray Checkpoint : Type}.
Context {U : Units Node World ndarray Checkpoint}.

Abbreviation Flow := (Flow Node).
Abbreviation Machine := (Machine Node World ndarray).
Abbreviation object := (object Node).
Abbreviation Op := (M Machine).

(** ["dimensions mismatch: %d != %d" % (out, inp)] *)
Definition msg_dimensions (out inp : Z) : string :=
  "dimensions mismatch: " +:+ pretty out +:+ " != " +:+ pretty inp.

(** A dimension in a boolean context: [None] and [0] are false. *)
Definition dim_truthy (d : option Z) : bool :=
  match d with
  | None => false
  | Some z => negb (z =? 0)
  end.

(** [out and inp] *)
Definition dim_and (out inp : option Z) : option Z :=
  if dim_truthy out then inp else out.

(** [out != inp] *)
Definition dim_ne (out inp : option Z) : bool :=
  match out, inp with
  | None, None => false
  | Some a, Some b => negb (a =? b)
  | _, _ => true
  end.

(** Raise ValueError when both dimensions are set and different. The
    message is built with [%d], which fails on [None]. *)
Definition _check_dimension_consistency (out inp : option Z) : Op unit :=
  if bool_decide (dim_and out inp <> None) && dim_ne out inp then
    match out, inp with
    | Some o, Some i => raise (ValueError (msg_dimensions o i))
    | _, _ => raise (TypeError "%d format: a number is required, not NoneType")
    end
  else ret tt.

(** Check the dimension consistency of a list of nodes. *)
Definition _check_nodes_consistency (flow : list Node) : Op unit :=
  let len_flow := len flow in
  for_each (range2 1 len_flow) (fun i =>
    w <- gets world ;;
    prev <- lift (list_getitem flow (i - 1)) ;;
    next <- lift (list_getitem flow i) ;;
    let out := output_dim prev w in
    let inp := input_dim next w in
    _check_dimension_consistency out inp).

(** [isinstance(value, mdp.Node)], returning the node. *)
Definition _check_value_type_isnode (value : object) : Op Node :=
  match value with
  | ObjNode n => ret n
  | _ => raise (TypeError "flow item must be Node instance")
  end.

(** The items of an iterable object, as [map] and slice assignment
    see them. *)
Definition iterate (value : object) : Op (list object) :=
  match value with
  | ObjList items => ret items
  | ObjFlow f => ret (ObjNode <$> flow f)
  | _ => raise (TypeError "argument 2 to map() must support iteration")
  end.

(** [map(f, items)] *)
Fixpoint map_op {A B} (f : A -> Op B) (items : list A) : Op (list B) :=
  match items with
  | [] => ret []
  | x :: rest => y <- f x ;; ys <- map_op f rest ;; ret (y :: ys)
  end.

Definition deprecation : string :=
  "The alias 'SimpleFlow' is deprecated and won't be " +:+
  "continued in future releases. Use 'Flow' instead.".

(** [cls(flow)]: [Flow.__init__], preceded by the warning of
    [SimpleFlow.__init__]. *)
Definition __init__ (cls : flow_class) (flow : list Node) (verbose : pyval Node)
  : Op Flow :=
  (match cls with
   | ClsSimpleFlow => warn "DeprecationWarning" deprecation
   | _ => ret tt
   end) ;;;
  _check_nodes_consistency flow ;;;
  ret (mkFlow cls flow verbose (VInt 0) ∅).

Definition __len__ : Op Z :=
  s <- gets self ;; ret (len (flow s)).

Definition __getitem__ (k : key) : Op object :=
  s <- gets self ;;
  match k with
  | KSlice sl =>
      flow_slice <- lift (list_getslice (flow s) sl) ;;
      _check_nodes_consistency flow_slice ;;;
      f <- __init__ (__class__ s) flow_slice (VInt 0) ;;
      ret (ObjFlow f)
  | KInt i =>
      n <- lift (list_getitem (flow s) i) ;;
      ret (ObjNode n)
  end.

Definition __setitem__ (k : key) (value : object) : Op object :=
  match k with
  | KSlice sl =>
      items <- iterate value ;;
      nodes <- map_op _check_value_type_isnode items ;;
      s <- gets self ;;
      (* make a copy of list *)
      let flow_copy := flow s in
      flow_copy <- lift (list_setslice flow_copy sl nodes) ;;
      (* check dimension consistency *)
      _check_nodes_consistency flow_copy ;;;
      (* if no exception was raised, accept the new sequence *)
      modify (fun m => set_self (set_flow flow_copy (self m)) m) ;;;
      ret ObjNone
  | KInt i =>
      node <- _check_value_type_isnode value ;;
      s <- gets self ;;
      let flow_copy := flow s in
      flow_copy <- lift (list_setitem flow_copy i node) ;;
      _check_nodes_consistency flow_copy ;;;
      modify (fun m => set_self (set_flow flow_copy (self m)) m) ;;;
      ret ObjNone
  end.

Definition __delitem__ (k : key) : Op object :=
  s <- gets self ;;
  (* make a copy of list *)
  let flow_copy := flow s in
  flow_copy <- lift (match k with
                     | KInt i => list_delitem flow_copy i
                     | KSlice sl => list_delslice flow_copy sl
                     end) ;;
  (* check dimension consistency *)
  _check_nodes_consistency flow_copy ;;;
  (* if no exception was raised, accept the new sequence *)
  modify (fun m => set_self (set_flow flow_copy (self m)) m) ;;;
  ret ObjNone.

(** [type(o).__name__] *)
Definition type_name (o : object) : string :=
  match o with
  | ObjNone => "NoneType"
  | ObjNode n => node_type_name n
  | ObjFlow f => class_name (__class__ f)
  | ObjList _ => "list"
  | ObjOther t => t
  end.

Definition msg_concatenate (o : object) : string :=
  "can only concatenate flow (not '" +:+ type_name o +:+ "') to flow".

Definition __add__ (other : object) : Op object :=
  match other with
  | ObjFlow o =>
      s <- gets self ;;
      let flow_copy := (flow s ++ flow o)%list in
      (* check dimension consistency *)
      _check_nodes_consistency flow_copy ;;;
      (* if no exception was raised, accept the new sequence *)
      f <- __init__ (__class__ s) flow_copy (VInt 0) ;;
      ret (ObjFlow f)
  | _ => raise (TypeError (msg_concatenate other))
  end.

(** [self[a:b]] as a subscript *)
Definition slice2 (a b : Z) : key := KSlice (Slice (Some a) (Some b) None).

Definition append (x : object) : Op object :=
  n <- __len__ ;;
  __setitem__ (slice2 n n) (ObjList [x]).

Definition extend (x : object) : Op object :=
  if negb (is_flow x) then raise (TypeError (msg_concatenate x))
  else
    n <- __len__ ;;
    __setitem__ (slice2 n n) x.

Definition insert (i : Z) (x : object) : Op object :=
  __setitem__ (slice2 i i) (ObjList [x]).

Definition pop (i : key) : Op object :=
  x <- __getitem__ i ;;
  __delitem__ i ;;;
  ret x.

(** [flow.pop()] *)
Definition pop_last : Op object := pop (KInt (-1)).


(** ** The dimension check as a recursion over adjacent pairs

    [check_dims] and [adjacent_check] are the pure counterparts of the two
    checking methods; [check_nodes_run] below relates them to the index
    loop of the source. *)

Definition check_dims (out inp : option Z) : result unit :=
  if bool_decide (dim_and out inp <> None) && dim_ne out inp then
    match out, inp with
    | Some o, Some i => Raise (ValueError (msg_dimensions o i))
    | _, _ => Raise (TypeError "%d format: a number is required, not NoneType")
    end
  else Ok tt.

Fixpoint adjacent_check (w : World) (l : list Node) : result unit :=
  match l with
  | [] => Ok tt
  | a :: rest =>
      match rest with
      | [] => Ok tt
      | b :: _ =>
          match check_dims (output_dim a w) (input_dim b w) with
          | Ok _ => adjacent_check w rest
          | other => other
          end
      end
  end.

(** ** The adjacency invariant *)

(** Two neighbours of [l] disagree: the output dimension [o] of the left
    one and the input dimension [d] of the right one are both set and
    differ. *)
Definition conflict (w : World) (l : list Node) (o d : Z) : Prop :=
  exists (i : nat) (a b : Node),
    l !! i = Some a /\ l !! S i = Some b /\
    output_dim a w = Some o /\ input_dim b w = Some d /\ o <> d.

Definition violates (w : World) (l : list Node) : Prop :=
  exists o d : Z, conflict w l o d.

(** Dimensions are unset or positive; the check only needs that no
    output dimension is the integer zero. *)
Definition dims_nonzero (w : World) (l : list Node) : Prop :=
  Forall (fun n : Node => output_dim n w <> Some 0) l.

(** ** The mutating operations, as one type *)

Inductive mutation : Type :=
| MSetItem (k : key) (value : object)
| MDelItem (k : key)
| MInsert (i : Z) (x : object)
| MAppend (x : object)
| MExtend (x : object)
| MPop (i : Z)
| MAdd (other : object).

Definition run (mu : mutation) : Op object :=
  match mu with
  | MSetItem k value => __setitem__ k value
  | MDelItem k => __delitem__ k
  | MInsert i x => insert i x
  | MAppend x => append x
  | MExtend x => extend x
  | MPop i => pop (KInt i)
  | MAdd other => __add__ other
  end.

Definition to_option {A} (r : result A) : option A :=
  match r with Ok a => Some a | _ => None end.

(** The pure part of [_check_value_type_isnode], and of the type check
    of a slice assignment, [map(self._check_value_type_isnode, value)]. *)
Definition node_of (value : object) : result Node :=
  match value with
  | ObjNode n => Ok n
  | _ => Raise (TypeError "flow item must be Node instance")
  end.

Fixpoint all_nodes (items : list object) : result (list Node) :=
  match items with
  | [] => Ok []
  | x :: rest =>
      n <- node_of x ;; ns <- all_nodes rest ;; Ok (n :: ns)
  end%res.

Definition nodes_of (value : object) : result (list Node) :=
  match value with
  | ObjList items => all_nodes items
  | ObjFlow f => Ok (flow f)
  | _ => Raise (TypeError "argument 2 to map() must support iteration")
  end.

(** What an operation builds in [flow_copy] and submits to the dimension
    check, or the error that stops it before: an operand of the wrong
    type, an index out of range, a slice of the wrong size. *)
Definition proposal (mu : mutation) (f : Flow) : result (list Node) :=
  match mu with
  | MSetItem (KInt i) value =>
      n <- node_of value ;; list_setitem (flow f) i n
  | MSetItem (KSlice sl) value =>
      ns <- nodes_of value ;; list_setslice (flow f) sl ns
  | MDelItem (KInt i) => list_delitem (flow f) i
  | MDelItem (KSlice sl) => list_delslice (flow f) sl
  | MInsert i x =>
      n <- node_of x ;;
      list_setslice (flow f) (Slice (Some i) (Some i) None) [n]
  | MAppend x => n <- node_of x ;; Ok (flow f ++ [n])%list
  | MExtend x =>
      match x with
      | ObjFlow o => Ok (flow f ++ flow o)%list
      | _ => Raise (TypeError (msg_concatenate x))
      end
  | MPop i => _ <- list_getitem (flow f) i ;; list_delitem (flow f) i
  | MAdd other =>
      match other with
      | ObjFlow o => Ok (flow f ++ flow o)%list
      | _ => Raise (TypeError (msg_concatenate other))
      end
  end%res.

(** The prospective new sequence of an operation, when there is one. *)
Definition prospective (mu : mutation) (f : Flow) : option (list Node) :=
  to_option (proposal mu f).

(** The machine after [cls(...)] has run: [SimpleFlow] leaves its
    deprecation warning. *)
Definition constructed (cls : flow_class) (m : Machine) : Machine :=
  match cls with
  | ClsSimpleFlow => add_warning "DeprecationWarning" deprecation m
  | _ => m
  end.

(** The mutation is committed: the flow now holds [l]. Concatenation
    commits to the new flow it returns and leaves [self] alone; [pop]
    returns the node it removed. *)
Definition committed (mu : mutation) (m : Machine) (l : list Node)
           (r : result object * Machine) : Prop :=
  match mu with
  | MAdd _ =>
      r = (Ok (ObjFlow (mkFlow (__class__ (self m)) l (VInt 0) (VInt 0) ∅)),
           constructed (__class__ (self m)) m)
  | MPop i =>
      exists n : Node,
        list_getitem (flow (self m)) i = Ok n /\
        r = (Ok (ObjNode n), set_self (set_flow l (self m)) m)
  | _ => r = (Ok ObjNone, set_self (set_flow l (self m)) m)
  end.

(** The operation failed with the dimension error, whose text gives the
    two dimensions [o] and [d] in decimal, and left the machine, the flow
    included, as it was. *)
Definition rejected (m : Machine) (o d : Z) (r : result object * Machine)
  : Prop :=
  r = (Raise (ValueError
                ("dimensions mismatch: " +:+ pretty o +:+ " != " +:+ pretty d)),
       m).

(** ** The operations in closed form *)

(** The value a mutation returns. *)
Definition returned (mu : mutation) (m : Machine) : object :=
  match mu with
  | MPop i =>
      match list_getitem (flow (self m)) i with
      | Ok n => ObjNode n
      | _ => ObjNone
      end
  | _ => ObjNone
  end.

(** Check [l], then commit it to [self], or build a flow of the class of
    [self] from it. *)
Definition finish (mu : mutation) (l : list Node) (m : Machine)
  : result object * Machine :=
  match adjacent_check (world m) l with
  | Ok _ =>
      match mu with
      | MAdd _ =>
          (Ok (ObjFlow (mkFlow (__class__ (self m)) l (VInt 0) (VInt 0) ∅)),
           constructed (__class__ (self m)) m)
      | _ => (Ok (returned mu m), set_self (set_flow l (self m)) m)
      end
  | Raise e => (Raise e, m)
  | OutOfFuel => (OutOfFuel, m)
  end.

Definition closed_form (mu : mutation) (m : Machine) : result object * Machine :=
  match proposal mu (self m) with
  | Ok l => finish mu l m
  | Raise e => (Raise e, m)
  | OutOfFuel => (OutOfFuel, m)
  end.

(** ** Membership *)

(** [item in flow], for a node: [self.flow.__contains__(item)]. Nodes
    compare by identity. *)
Definition __contains__ `{EqDecision Node} (item : Node) : Op bool :=
  s <- gets self ;;
  ret (bool_decide (item ∈ flow s)).

(** ** States of the container *)

(** The flow of the machine passes its own check. *)
Definition consistent (m : Machine) : Prop :=
  _check_nodes_consistency (flow (self m)) m = (Ok tt, m).

(** The integer [i] is no index of a list of length [n]. *)
Definition out_of_range (i n : Z) : Prop := i < - n \/ n <= i.

(** The position in a list of length [n] that an index in range stands
    for: a negative index counts from the end. *)
Definition position_of (i n : Z) : nat :=
  Z.to_nat (if i <? 0 then i + n else i).

(** [isinstance(value, mdp.Node)] *)
Definition is_node (value : object) : bool :=
  match value with ObjNode _ => true | _ => false end.

(** [self[:stop]] and [self[start:]] as subscripts *)
Definition slice_upto (stop : Z) : key := KSlice (Slice None (Some stop) None).
Definition slice_from (start : Z) : key := KSlice (Slice (Some start) None None).

(** The position in a list of length [n] at which [insert(i, x)] puts
    [x]: the bound [i] of the slice [i:i], clipped to the list. *)
Definition insertion_point (i n : Z) : nat :=
  Z.to_nat (clip_bound (Some i) 0 1 n).

End Methods.
End Container.

(** * Training, execution and crash recovery *)

Module Engine.
Import Py Model.
Local Open Scope py_scope.

Section Methods.
Context {Node World ndarray Checkpoint : Type}.
Context {U : Units Node World ndarray Checkpoint}.

Abbreviation Flow := (Flow Node).
Abbreviation Machine := (Machine Node World ndarray).
Abbreviation data := (data ndarray).
Abbreviation source := (source ndarray).
Abbreviation Op := (M Machine).

(** A method of a node, run on the state of the nodes. *)
Definition call {A} (f : World -> result A * World) : Op A :=
  fun m => let (r, w) := f (world m) in (r, set_world w m).

(** [if cond: body] *)
Definition when (cond : bool) (body : Op unit) : Op unit :=
  if cond then body else ret tt.

(** ** [FlowExceptionCR] *)

(** Modelled from the spec: [mdp.utils.CrashRecoveryException.dump], which
    is not in [linear_flows.py]. It writes a snapshot of the crashing
    object, here the whole flow, to the file of the given name, or to a
    file that the [tempfile] module creates when no name is given, and
    returns the name of the file. *)
Definition dump (filename : option string) : Op string :=
  match filename with
  | Some name =>
      modify (write_file name false) ;;;
      ret name
  | None =>
      m <- get ;;
      let name := mkstemp (tmp_counter m) in
      modify (write_file name true) ;;;
      ret name
  end.

Definition dumpinfo (name : string) : string :=
  nl +:+ "A crash dump is available on: " +:+ dquote +:+ name +:+ dquote.

(** [FlowExceptionCR(errstr, self, parent)]: the constructor. The base
    class constructor keeps the flow as [crashing_obj] and [parent] as
    [parent_exception]. *)
Definition FlowExceptionCR_init (errstr : string) (parent : exn) : Op exn :=
  s <- gets self ;;
  let rec := _crash_recovery s in
  if truthy rec then
    let name := match rec with
                | VStr name => Some name
                | _ => None
                end in
    name <- dump name ;;
    ret (FlowExceptionCR (errstr +:+ dumpinfo name) parent (Some name))
  else
    ret (FlowExceptionCR errstr parent None).

(** ** [Flow] *)

Definition msg_act (nodenr : Z) (name : string) : string :=
  nl +:+ "! Exception in node #" +:+ pretty nodenr +:+
  " (" +:+ name +:+ "):" +:+ nl.

Definition msg_errstr (nodenr : Z) (name prev : string) : string :=
  nl +:+ str_mul "-" 40 +:+ msg_act nodenr name +:+
  "Node Traceback:" +:+ nl +:+ prev +:+ str_mul "-" 40.

Definition _propagate_exception {A} (except_ : exn) (nodenr : Z) : Op A :=
  (* capture exception. the traceback of the error is printed and a
     new exception, containing the identity of the node in the flow
     is raised. Allow crash recovery. *)
  let prev := format_exception except_ in
  s <- gets self ;;
  node <- lift (list_getitem (flow s) nodenr) ;;
  let errstr := msg_errstr nodenr (node_type_name node) prev in
  e <- FlowExceptionCR_init errstr except_ ;;
  raise e.

(** [for x in iterator: acc = body x acc]. Before each round the
    iterator object moves on, which [advance] records. *)
Fixpoint iterate_items {B} (advance : list data -> Op unit)
         (items : list data) (acc : B) (body : data -> B -> Op B) : Op B :=
  match items with
  | [] => ret acc
  | x :: rest =>
      advance rest ;;;
      acc' <- body x acc ;;
      iterate_items advance rest acc' body
  end.

Definition for_in {B} (iterator : source) (acc : B)
           (body : data -> B -> Op B) : Op B :=
  match iterator with
  | SrcList items => iterate_items (fun _ => ret tt) items acc body
  | SrcGenerator g | SrcIterator g =>
      m <- get ;;
      let items := default [] (iterators m !! g) in
      iterate_items (fun rest => modify (set_iterator g rest)) items acc body
  | SrcNone => raise (TypeError "'NoneType' object is not iterable")
  | SrcNotIterable t => raise (TypeError ("'" +:+ t +:+ "' object is not iterable"))
  end.

Definition _execute_seq (x : data) (nodenr : option Z) : Op data :=
  (* Filters input data 'x' through the nodes 0..'node_nr' included *)
  s <- gets self ;;
  let flow := flow s in
  let nodenr := match nodenr with
                | None => len flow - 1
                | Some nodenr => nodenr
                end in
  for_fold (range (nodenr + 1)) x (fun i x =>
    try_except
      (node <- lift (list_getitem flow i) ;;
       call (node_execute node x))
      (fun e => _propagate_exception e i)).

(** The item an iterator yields, split as the training loop does:
    the sample and the extra arguments. [x[1:]] never fails; [x[0]] fails
    on an empty list or tuple. *)
Definition split_item (x : data) : result (data * list data) :=
  match x with
  | Sequence xs =>
      match xs with
      | x0 :: arg => Ok (x0, arg)
      | [] => Raise (IndexError "list index out of range")
      end
  | Tuple xs =>
      match xs with
      | x0 :: arg => Ok (x0, arg)
      | [] => Raise (IndexError "tuple index out of range")
      end
  | Array _ => Ok (x, [])
  end.

(** One traversal of the iterator: the body of the [for] loop. *)
Definition train_pass (node : Node) (data_iterator : source) (nodenr : Z)
  : Op unit :=
  for_in data_iterator tt (fun x _ =>
    (* the arguments following the first are passed only to the
       currently trained node, allowing the implementation of
       supervised nodes *)
    p <- lift (split_item x) ;;
    let arg := p.2 in
    let x := p.1 in
    (* filter x through the previous nodes *)
    x <- (if 0 <? nodenr then _execute_seq x (Some (nodenr - 1)) else ret x) ;;
    (* train current node *)
    call (node_train node x arg)).

(** The [while True] loop, with a budget of iterations. *)
Fixpoint train_phases (fuel : nat) (node : Node) (data_iterator : source)
         (nodenr : Z) : Op unit :=
  match fuel with
  | O => out_of_fuel
  | S fuel' =>
      train_pass node data_iterator nodenr ;;;
      w <- gets world ;;
      if 1 <? get_remaining_train_phase node w then
        (* close the previous training phase *)
        call (node_stop_training node) ;;;
        train_phases fuel' node data_iterator nodenr
      else ret tt
  end.

Definition wrn_not_trainable (nodenr : Z) : string :=
  nl +:+ "! Node " +:+ pretty nodenr +:+ " is not trainable" +:+
  nl +:+ "You probably need a 'None' iterator for" +:+
  " this node. Continuing anyway.".

Definition err_none_iterator (nodenr : Z) : string :=
  nl +:+ "! Node " +:+ pretty nodenr +:+ " is training" +:+
  " but received a 'None' iterator.".

Definition wrn_finished (nodenr : Z) : string :=
  nl +:+ "! Node " +:+ pretty nodenr +:+ " training phase already finished" +:+
  " Continuing anyway.".

Definition _train_node (fuel : nat) (data_iterator : source) (nodenr : Z)
  : Op unit :=
  (* trains a single node in the flow *)
  s <- gets self ;;
  node <- lift (list_getitem (flow s) nodenr) ;;
  w <- gets world ;;
  if negb (is_None data_iterator) && negb (is_trainable node w) then
    (* attempted to train a node although it is not trainable.
       raise a warning and continue with the next node. *)
    warn "MDPWarning" (wrn_not_trainable nodenr)
  else if is_None data_iterator && is_training node w then
    (* A None iterator is passed to a training node *)
    raise (FlowException (err_none_iterator nodenr))
  else if is_None data_iterator && negb (is_trainable node w) then
    (* skip training if node is not trainable *)
    ret tt
  else
    try_except
      (train_phases fuel node data_iterator nodenr)
      (fun e =>
         if is_training_finished e then
           (* attempted to train a node although its training phase is
              already finished. raise a warning and continue with the
              next node. *)
           warn "MDPWarning" (wrn_finished nodenr)
         else
           (* capture any other exception occured during training. *)
           _propagate_exception e nodenr).

Definition err_not_list (type_str : string) : string :=
  "'data_iterators' is " +:+ type_str +:+
  " must be either a list of iterators or an array".

Definition err_element (i : Z) : string :=
  "Element number " +:+ pretty i +:+ " in the " +:+
  "iterators list is not a list or iterator.".

Definition err_count (given needed : Z) : string :=
  pretty given +:+ " data iterators specified, " +:+ pretty needed +:+ " needed".

Definition err_generator (i : Z) : string :=
  "Node number " +:+ pretty i +:+ " has multiple training phases " +:+
  "but the corresponding iterator is a generator. " +:+
  "This is not allowed since generators cannot be " +:+
  "'rewinded' for further training.".

Definition _train_check_iterators (data_iterators : iterators_arg ndarray)
  : Op (list source) :=
  (* verifies that the number of iterators matches that of
     the signal nodes and multiplies them if needed. *)
  s <- gets self ;;
  let flow := flow s in
  data_iterators <-
    match data_iterators with
    | ItArray a => ret (replicate (length flow) (SrcList [Array a]))
    | ItList l => ret l
    | ItOther type_str => raise (FlowException (err_not_list type_str))
    end ;;
  (* check that all elements are iterable *)
  for_each (range (len data_iterators)) (fun i =>
    el <- lift (list_getitem data_iterators i) ;;
    if negb (is_None el) && negb (has_iter el)
    then raise (FlowException (err_element i))
    else ret tt) ;;;
  (* check that the number of data_iterators is correct *)
  (if negb (len data_iterators =? len flow)
   then raise (FlowException (err_count (len data_iterators) (len flow)))
   else ret tt) ;;;
  (* check that every node with multiple phases has an iterator
     but NOT a generator (since you cannot "rewind" a generator) *)
  for_each (range (len flow)) (fun i =>
    node <- lift (list_getitem flow i) ;;
    iter <- lift (list_getitem data_iterators i) ;;
    w <- gets world ;;
    if (1 <? train_seq_len node w) && is_generator iter
    then raise (FlowException (err_generator i))
    else ret tt) ;;;
  ret data_iterators.

Definition _close_last_node : Op unit :=
  s <- gets self ;;
  when (truthy (verbose s)) (print "Close the training phase of the last node") ;;;
  try_except
    (s <- gets self ;;
     node <- lift (list_getitem (flow s) (-1)) ;;
     call (node_stop_training node))
    (fun e =>
       if is_training_finished e then ret tt
       else
         s <- gets self ;;
         _propagate_exception e (len (flow s) - 1)).

Definition set_crash_recovery (state : pyval Node) : Op unit :=
  modify (fun m => set_self (set_crash state (self m)) m).

Definition msg_training (i : Z) (name : string) : string :=
  "Training node #" +:+ pretty i +:+ " (" +:+ name +:+ ")".

(** The body of the loop of [Flow.train]. *)
Definition train_step (fuel : nat) (data_iterators : list source) (i : Z)
  : Op unit :=
  s <- gets self ;;
  when (truthy (verbose s))
       (node <- lift (list_getitem (flow s) i) ;;
        w <- gets world ;;
        print (msg_training i (node_str node w))) ;;;
  iter <- lift (list_getitem data_iterators i) ;;
  _train_node fuel iter i ;;;
  s <- gets self ;;
  when (truthy (verbose s)) (print "Training finished").

(** [for i in range(len(self.flow)): ...] *)
Definition train_units (fuel : nat) (data_iterators : list source) : Op unit :=
  s <- gets self ;;
  for_each (range (len (flow s))) (train_step fuel data_iterators).

Definition train (fuel : nat) (data_iterators : iterators_arg ndarray)
  : Op unit :=
  data_iterators <- _train_check_iterators data_iterators ;;
  (* train each Node successively *)
  train_units fuel data_iterators ;;;
  _close_last_node.

Definition _inverse_seq (x : data) : Op data :=
  (* Successively invert input data 'x' through all nodes backwards *)
  s <- gets self ;;
  let flow := flow s in
  for_fold (reverse (range (len flow))) x (fun i x =>
    try_except
      (node <- lift (list_getitem flow i) ;;
       call (node_inverse node x))
      (fun e => _propagate_exception e i)).

(** [res = []; for x in iterator: res.append(f(x)); return res] *)
Definition collect (iterator : source) (f : data -> Op data) : Op (list data) :=
  for_in iterator [] (fun x res => y <- f x ;; ret (res ++ [y])%list).

Definition execute (iterator : exec_arg ndarray) (nodenr : option Z) : Op data :=
  match iterator with
  | ExArray a =>
      (* if iterator is one single input sequence *)
      _execute_seq (Array a) nodenr
  | ExIterable iterator =>
      (* otherwise it is a iterator *)
      res <- collect iterator (fun x => _execute_seq x nodenr) ;;
      lift (numx_concatenate res)
  end.

Definition inverse (iterator : exec_arg ndarray) : Op data :=
  match iterator with
  | ExArray a => _inverse_seq (Array a)
  | ExIterable iterator =>
      res <- collect iterator _inverse_seq ;;
      lift (numx_concatenate res)
  end.

(** ** [CheckpointFlow] *)

Definition err_checkpoints (given needed : Z) : string :=
  pretty given +:+ " checkpoints specified, " +:+ pretty needed +:+ " needed".

Definition _train_check_checkpoints (checkpoints : checkpoints_arg Checkpoint)
  : Op (list (option Checkpoint)) :=
  s <- gets self ;;
  let checkpoints :=
    match checkpoints with
    | CkList l => l
    | CkSingle c => replicate (length (flow s)) c
    end in
  if negb (len checkpoints =? len (flow s))
  then raise (FlowException (err_checkpoints (len checkpoints) (len (flow s))))
  else ret checkpoints.

(** [dict = checkpoints[i](node); if dict: self.__dict__.update(dict)] *)
Definition run_checkpoint (c : Checkpoint) (node : Node) : Op unit :=
  dict <- call (call_checkpoint c node) ;;
  match dict with
  | Some d =>
      if bool_decide (entries d = ∅) then ret tt
      else modify (fun m => set_self (dict_update d (self m)) m)
  | None => ret tt
  end.

(** The body of the loop of [CheckpointFlow.train]. *)
Definition checkpoint_step (fuel : nat) (data_iterators : list source)
           (checkpoints : list (option Checkpoint)) (i : Z) : Op unit :=
  s <- gets self ;;
  node <- lift (list_getitem (flow s) i) ;;
  when (truthy (verbose s))
       (print (msg_training i (node_type_name node))) ;;;
  iter <- lift (list_getitem data_iterators i) ;;
  _train_node fuel iter i ;;;
  (if i <=? len checkpoints then
     c <- lift (list_getitem checkpoints i) ;;
     match c with
     | Some c => run_checkpoint c node
     | None => ret tt
     end
   else ret tt) ;;;
  s <- gets self ;;
  when (truthy (verbose s)) (print "Training finished").

(** [for i in range(len(self.flow)): ...] *)
Definition checkpoint_units (fuel : nat) (data_iterators : list source)
           (checkpoints : list (option Checkpoint)) : Op unit :=
  s <- gets self ;;
  for_each (range (len (flow s)))
           (checkpoint_step fuel data_iterators checkpoints).

Definition CheckpointFlow_train (fuel : nat)
           (data_iterators : iterators_arg ndarray)
           (checkpoints : checkpoints_arg Checkpoint) : Op unit :=
  data_iterators <- _train_check_iterators data_iterators ;;
  checkpoints <- _train_check_checkpoints checkpoints ;;
  (* train each Node successively *)
  checkpoint_units fuel data_iterators checkpoints ;;;
  _close_last_node.

(** ** What the methods are specified to do *)

(** The machine with the line [_close_last_node] prints when the flow is
    verbose. *)
Definition announced (m : Machine) : Machine :=
  if truthy (verbose (self m))
  then add_line "Close the training phase of the last node" m
  else m.

(** Crash recovery is armed when [_crash_recovery] is true: the dump goes
    to the file named by a string setting, to a temporary file otherwise. *)
Definition dump_name (m : Machine) : option string :=
  let rec := _crash_recovery (self m) in
  if truthy rec then
    Some (match rec with
          | VStr name => name
          | _ => mkstemp (tmp_counter m)
          end)
  else None.

(** The machine once the wrapping error has been built. *)
Definition crashed (m : Machine) : Machine :=
  let rec := _crash_recovery (self m) in
  if truthy rec then
    match rec with
    | VStr name => write_file name false m
    | _ => write_file (mkstemp (tmp_counter m)) true m
    end
  else m.

(** The wrapping error for a failure [e] of [node] at index [nodenr]. *)
Definition wrapping (m : Machine) (nodenr : Z) (node : Node) (e : exn) : exn :=
  let errstr := msg_errstr nodenr (node_type_name node) (format_exception e) in
  match dump_name m with
  | Some name => FlowExceptionCR (errstr +:+ dumpinfo name) e (Some name)
  | None => FlowExceptionCR errstr e None
  end.

(** The units of [units] transform [x] one after the other, none failing:
    from [x] in state [w] to [y] in state [w']. *)
Inductive applies : list Node -> data -> World -> data -> World -> Prop :=
| applies_nil x w : applies [] x w x w
| applies_cons n rest x w y w1 z w2 :
    node_execute n x w = (Ok y, w1) ->
    applies rest y w1 z w2 ->
    applies (n :: rest) x w z w2.

(** The same for inverse transforms: the units of [units], in this
    order, invert [x]. *)
Inductive inverts : list Node -> data -> World -> data -> World -> Prop :=
| inverts_nil x w : inverts [] x w x w
| inverts_cons n rest x w y w1 z w2 :
    node_inverse n x w = (Ok y, w1) ->
    inverts rest y w1 z w2 ->
    inverts (n :: rest) x w z w2.

(** The body of the loop of [_inverse_seq]. *)
Definition inverse_round (fl : list Node) (i : Z) (x : data) : Op data :=
  try_except
    (node <- lift (list_getitem fl i) ;;
     call (node_inverse node x))
    (fun e => _propagate_exception e i).

(** The indices [idxs] of the list [fl] hold the nodes [nodes]. *)
Definition located (fl : list Node) (idxs : list Z) (nodes : list Node) : Prop :=
  Forall2 (fun i n => 0 <= i /\ fl !! Z.to_nat i = Some n) idxs nodes.

(** Every batch goes through [units], in input order. The state of the
    iterator object, if the batches come from one, moves on before each
    batch. *)
Inductive applies_each (units : list Node) (advance : list data -> Machine -> Machine)
  : list data -> Machine -> list data -> Machine -> Prop :=
| applies_each_nil m : applies_each units advance [] m [] m
| applies_each_cons x xs m y w1 ys m2 :
    applies units x (world m) y w1 ->
    applies_each units advance xs (set_world w1 (advance xs m)) ys m2 ->
    applies_each units advance (x :: xs) m (y :: ys) m2.

(** What an iterable has to yield in state [m], and how its object moves
    on. *)
Definition items_of (iterator : source) (m : Machine) : option (list data) :=
  match iterator with
  | SrcList items => Some items
  | SrcGenerator g | SrcIterator g => Some (default [] (iterators m !! g))
  | SrcNone | SrcNotIterable _ => None
  end.

Definition advance_of (iterator : source) (rest : list data) (m : Machine)
  : Machine :=
  match iterator with
  | SrcGenerator g | SrcIterator g => set_iterator g rest m
  | _ => m
  end.

(** The loop of [_execute_seq] over the indices [j], ..., [j + n - 1] of
    the list [fl]. *)
Definition execute_from (fl : list Node) (j n : Z) (x : data) : Op data :=
  for_fold (seqZ j n) x (fun i x =>
    try_except
      (node <- lift (list_getitem fl i) ;;
       call (node_execute node x))
      (fun e => _propagate_exception e i)).

(** The units an execution up to [nodenr] goes through. *)
Definition units_upto (f : Flow) (nodenr : option Z) : list Node :=
  match nodenr with
  | None => flow f
  | Some k => take (Z.to_nat (k + 1)) (flow f)
  end.

(** What an item of a data source presents to the unit in training: of
    a list and of a tuple the first element is the sample and the
    remaining elements are the extra arguments; any other item is the
    sample itself, without extra arguments. *)
Inductive presents : data -> data -> list data -> Prop :=
| presents_list sample extra : presents (Sequence (sample :: extra)) sample extra
| presents_tuple sample extra : presents (Tuple (sample :: extra)) sample extra
| presents_array a : presents (Array a) (Array a) [].

(** One traversal of the data source of unit [i]: of each item the
    sample is filtered through the units before [i], and the unit is
    trained on the result with the extra arguments of the item. *)
Inductive pass (node : Node) (i : Z) (iterator : source)
  : list data -> Machine -> Machine -> Prop :=
| pass_done m : pass node i iterator [] m m
| pass_item item rest sample extra m y w1 w2 m3 :
    presents item sample extra ->
    applies (take (Z.to_nat i) (flow (self m))) sample (world m) y w1 ->
    node_train node y extra w1 = (Ok tt, w2) ->
    pass node i iterator rest (set_world w2 (advance_of iterator rest m)) m3 ->
    pass node i iterator (item :: rest) m m3.

(** The training of unit [i]: traversals of the source, each but the last
    followed by an explicit [stop_training]; the last is the first after
    which the unit reports at most one remaining phase. *)
Inductive phases (node : Node) (i : Z) (iterator : source)
  : Machine -> Machine -> Prop :=
| phases_last items m m1 :
    items_of iterator m = Some items ->
    pass node i iterator items m m1 ->
    get_remaining_train_phase node (world m1) <= 1 ->
    phases node i iterator m m1
| phases_more items m m1 w2 m3 :
    items_of iterator m = Some items ->
    pass node i iterator items m m1 ->
    1 < get_remaining_train_phase node (world m1) ->
    node_stop_training node (world m1) = (Ok tt, w2) ->
    phases node i iterator (set_world w2 m1) m3 ->
    phases node i iterator m m3.

(** The first index from [j] on of an entry that is neither [None] nor
    iterable. *)
Fixpoint first_not_iterable (j : Z) (its : list source) : option Z :=
  match its with
  | [] => None
  | el :: rest =>
      if negb (is_None el) && negb (has_iter el) then Some j
      else first_not_iterable (j + 1) rest
  end.

(** The first index from [j] on at which a node with several training
    phases faces a generator. *)
Fixpoint first_generator (w : World) (j : Z) (nodes : list Node)
         (its : list source) : option Z :=
  match nodes, its with
  | node :: nodes', it :: its' =>
      if (1 <? train_seq_len node w) && is_generator it then Some j
      else first_generator w (j + 1) nodes' its'
  | _, _ => None
  end.

(** [_train_check_iterators] in closed form: the list of sources it
    returns, or the error of the first check that fails. *)
Definition expanded (args : iterators_arg ndarray) (fl : list Node)
  : result (list source) :=
  match args with
  | ItArray a => Ok (replicate (length fl) (SrcList [Array a]))
  | ItList l => Ok l
  | ItOther type_str => Raise (FlowException (err_not_list type_str))
  end.

Definition validated_list (its : list source) (m : Machine)
  : result (list source) :=
  let fl := flow (self m) in
  match first_not_iterable 0 its with
  | Some i => Raise (FlowException (err_element i))
  | None =>
      if negb (len its =? len fl)
      then Raise (FlowException (err_count (len its) (len fl)))
      else match first_generator (world m) 0 fl its with
           | Some i => Raise (FlowException (err_generator i))
           | None => Ok its
           end
  end.

Definition validated (args : iterators_arg ndarray) (m : Machine)
  : result (list source) :=
  (its <- expanded args (flow (self m)) ;; validated_list its m)%res.

(** [_train_check_checkpoints] in closed form. *)
Definition validated_checkpoints (cks : checkpoints_arg Checkpoint) (m : Machine)
  : result (list (option Checkpoint)) :=
  let fl := flow (self m) in
  let l := match cks with
           | CkList l => l
           | CkSingle c => replicate (length fl) c
           end in
  if negb (len l =? len fl)
  then Raise (FlowException (err_checkpoints (len l) (len fl)))
  else Ok l.

(** ** Observations that operations leave alone *)

(** An operation preserves the observation [f] of the machine, whatever
    its outcome. *)
Definition preserves {A X} (f : Machine -> X) (op : Op A) : Prop :=
  forall m : Machine, f (op m).2 = f m.

(** An observation that does not depend on the state of the nodes, on the
    iterator objects, on the files or on the lines printed. *)
Definition framed {X} (f : Machine -> X) : Prop :=
  (forall w m, f (set_world w m) = f m) /\
  (forall g rest m, f (set_iterator g rest m) = f m) /\
  (forall name fresh m, f (write_file name fresh m) = f m) /\
  (forall line m, f (add_line line m) = f m).

(** ... nor on the warnings issued. *)
Definition unwarned {X} (f : Machine -> X) : Prop :=
  forall category msg m, f (add_warning category msg m) = f m.

(** The filter of the training loop: the sample goes through the units
    before [nodenr]. *)
Definition filtered (nodenr : Z) (x : data) : Op data :=
  if 0 <? nodenr then _execute_seq x (Some (nodenr - 1)) else ret x.

(** The body of the [for] loop of the training loop. *)
Definition train_item (node : Node) (nodenr : Z) (x : data) (_ : unit)
  : Op unit :=
  p <- lift (split_item x) ;;
  let arg := p.2 in
  let x := p.1 in
  x <- (if 0 <? nodenr then _execute_seq x (Some (nodenr - 1)) else ret x) ;;
  call (node_train node x arg).

(** ** Checkpoints *)

(** The machine once [CheckpointFlow.train] has announced unit [i], and
    the end of its loop body. *)
Definition entering (i : Z) (node : Node) (m : Machine) : Machine :=
  if truthy (verbose (self m))
  then add_line (msg_training i (node_type_name node)) m
  else m.

Definition leaving : Op unit :=
  s <- gets self ;;
  when (truthy (verbose s)) (print "Training finished").

(** A checkpoint function that never returns a dictionary with the key
    [k]. *)
Definition quiet (k : string) (c : Checkpoint) : Prop :=
  forall node w d w', call_checkpoint c node w = (Ok (Some d), w') ->
                      entries d !! k = None.

(** The attribute [k] of the flow, as its [__dict__] has it. *)
Definition attribute (k : string) (m : Machine) : option (pyval Node) :=
  __dict__ (self m) !! k.

(** ** Calling a flow *)

(** Calling an instance is equivalent to call its 'execute' method. *)
Definition __call__ (iterator : exec_arg ndarray) (nodenr : option Z) : Op data :=
  execute iterator nodenr.

(** ** Inverse execution of batches *)

(** Every batch is inverted by [units], in input order. The state of the
    iterator object, if the batches come from one, moves on before each
    batch. *)
Inductive inverts_each (units : list Node) (advance : list data -> Machine -> Machine)
  : list data -> Machine -> list data -> Machine -> Prop :=
| inverts_each_nil m : inverts_each units advance [] m [] m
| inverts_each_cons x xs m y w1 ys m2 :
    inverts units x (world m) y w1 ->
    inverts_each units advance xs (set_world w1 (advance xs m)) ys m2 ->
    inverts_each units advance (x :: xs) m (y :: ys) m2.

(** The inverse of a node undoes its transform: whenever the node turns
    [x] into [y], its inverse, in whatever state, turns [y] back into
    [x]. *)
Definition invertible (n : Node) : Prop :=
  forall x w y w1, node_execute n x w = (Ok y, w1) ->
                   forall w2, exists w3, node_inverse n y w2 = (Ok x, w3).

(** ** Invariants of the machine *)

(** An operation keeps the invariant [I], whatever its outcome. *)
Definition keeps {A} (I : Machine -> Prop) (op : Op A) : Prop :=
  forall m : Machine, I m -> I (op m).2.

(** An invariant that the methods of the nodes, the iterator objects and
    the warnings do not disturb. *)
Definition settled (I : Machine -> Prop) : Prop :=
  (forall w m, I m -> I (set_world w m)) /\
  (forall g rest m, I m -> I (set_iterator g rest m)) /\
  (forall category msg m, I m -> I (add_warning category msg m)).

(** An invariant that holds on after a line printed by a verbose flow,
    and after a dump written by a flow with crash recovery. *)
Definition survives_print (I : Machine -> Prop) : Prop :=
  forall line m, I m -> truthy (verbose (self m)) = true -> I (add_line line m).

Definition survives_dump (I : Machine -> Prop) : Prop :=
  forall name fresh m, I m -> truthy (_crash_recovery (self m)) = true ->
                       I (write_file name fresh m).

(** The flow object is [s]. *)
Definition same_flow (s : Flow) (m : Machine) : Prop := self m = s.

(** Crash recovery is off, and the files are those of [m0]. *)
Definition undumped (m0 m : Machine) : Prop :=
  truthy (_crash_recovery (self m)) = false /\
  files m = files m0 /\ tmp_counter m = tmp_counter m0.

(** The flow is not verbose, and the lines printed are those of [m0]. *)
Definition silent (m0 m : Machine) : Prop :=
  truthy (verbose (self m)) = false /\ stdout m = stdout m0.

(** ** One flow standing in for another *)

(** The operation [op'] of the flow [s'] does what the operation [op] of
    the flow [s] does: run on the same machine but for the flow object,
    they have the same result and the same effects, and [op] leaves the
    flow object alone. *)
Definition simulates (s s' : Flow) {A} (op op' : Op A) : Prop :=
  forall m : Machine,
    self m = s ->
    op' (set_self s' m) = ((op m).1, set_self s' (op m).2) /\
    self (op m).2 = s.

End Methods.
End Engine.

(** * Checkpoint functions *)

Module Checkpoints.
Import Py Model.
Local Open Scope py_scope.

Section Functions.
Context {Node World ndarray Checkpoint : Type}.
Context {U : Units Node World ndarray Checkpoint}.

(** What [cPickle.dump(node, fid, proto)] leaves in a file: the node
    with its state, and the protocol. *)
Record Pickle : Type := mkPickle {
  pickled_node : Node;
  pickled_state : World;
  pickle_protocol : Z
}.

(** A file that was opened for writing: the mode, and the pickle written
    to it since, if any. *)
Record File : Type := mkFile {
  file_mode : string;
  file_content : option Pickle
}.

(** The state a checkpoint function runs in: the state of the nodes, the
    files, and the names that the file system refuses to open. *)
Record Disk : Type := mkDisk {
  disk_world : World;
  disk_files : gmap string File;
  disk_refused : gset string
}.

(** A method of a node, run on the state of the nodes. *)
Definition on_node {A} (f : World -> result A * World) : M Disk A :=
  fun d => let (r, w) := f (disk_world d) in
           (r, mkDisk w (disk_files d) (disk_refused d)).

(** [open(name, mode)] for a mode that writes: the file is created, or
    what it held is dropped. *)
Definition open (name mode : string) : M Disk unit :=
  fun d =>
    if bool_decide (name ∈ disk_refused d)
    then (Raise (OtherException "IOError" name), d)
    else (Ok tt, mkDisk (disk_world d)
                        (<[name := mkFile mode None]> (disk_files d))
                        (disk_refused d)).

(** [cPickle.dump(node, fid, proto)] on the file opened under [name]. *)
Definition cPickle_dump (node : Node) (name : string) (proto : Z) : M Disk unit :=
  fun d =>
    let mode := match disk_files d !! name with
                | Some f => file_mode f
                | None => EmptyString
                end in
    (Ok tt, mkDisk (disk_world d)
                   (<[name := mkFile mode
                                (Some (mkPickle node (disk_world d) proto))]>
                      (disk_files d))
                   (disk_refused d)).

(** [CheckpointFunction.__call__]: the base class does nothing and
    returns [None]. *)
Definition CheckpointFunction_call (node : Node)
  : M Disk (option (gmap string (pyval Node))) :=
  ret None.

(** An instance of [CheckpointSaveFunction]. *)
Record CheckpointSaveFunction : Type := mkSave {
  filename : string;
  proto : Z;
  stop_training : pyval Node;
  mode : string
}.

(** [CheckpointSaveFunction(filename, stop_training, binary, protocol)] *)
Definition CheckpointSaveFunction_init (filename : string)
           (stop_training binary : pyval Node) (protocol : Z)
  : CheckpointSaveFunction :=
  mkSave filename protocol stop_training
         (if truthy binary || (0 <? protocol) then "wb" else "w").

(** [CheckpointSaveFunction.__call__] *)
Definition CheckpointSaveFunction_call (self : CheckpointSaveFunction)
           (node : Node) : M Disk (option (gmap string (pyval Node))) :=
  open (filename self) (mode self) ;;;
  (if truthy (stop_training self) then on_node (node_stop_training node)
   else ret tt) ;;;
  cPickle_dump node (filename self) (proto self) ;;;
  (* fid.close() *)
  ret None.

(** The disk with the state [w] of the nodes and, under [name], a file
    of the given mode and content. *)
Definition saved (d : Disk) (w : World) (name mode : string)
           (content : option Pickle) : Disk :=
  mkDisk w (<[name := mkFile mode content]> (disk_files d)) (disk_refused d).

End Functions.

Arguments Pickle : clear implicits.
Arguments File : clear implicits.
Arguments Disk : clear implicits.
Arguments CheckpointSaveFunction : clear implicits.

End Checkpoints.

(** * A concrete family of nodes

    Nodes are numbered; each has a state in the style of [mdp.Node]: a
    current training phase out of a fixed number, fixed dimensions, and
    switches that make its methods fail. Arrays are lists of integers; a
    node executes by adding its number plus one to every entry, and the
    state logs every call. *)

Module Example.
Import Py Model.

Inductive event : Type :=
| ETrain (node : nat) (x : data (list Z)) (arg : list (data (list Z)))
| EStop (node : nat)
| EExecute (node : nat) (x : data (list Z))
| EInverse (node : nat) (x : data (list Z))
| ECheckpoint (node : nat).

Record node_state : Type := mkNode {
  ns_trainable : bool;
  ns_phases : Z;
  ns_phase : Z;
  ns_in : option Z;
  ns_out : option Z;
  ns_train_fails : bool;
  ns_execute_fails : bool
}.

Record store : Type := mkStore {
  nodes : list node_state;
  log : list event
}.

Definition untrainable : node_state :=
  mkNode false 0 0 None None false false.

Definition state_of (n : nat) (w : store) : node_state :=
  default untrainable (nodes w !! n).

Definition logged (e : event) (w : store) : store :=
  mkStore (nodes w) (log w ++ [e]).

Definition next_phase (n : nat) (w : store) : store :=
  let st := state_of n w in
  mkStore (<[n := mkNode (ns_trainable st) (ns_phases st) (ns_phase st + 1)
                        (ns_in st) (ns_out st) (ns_train_fails st)
                        (ns_execute_fails st)]> (nodes w))
          (log w).

Definition training (n : nat) (w : store) : bool :=
  ns_phase (state_of n w) <? ns_phases (state_of n w).

Fixpoint shift (k : Z) (x : data (list Z)) : data (list Z) :=
  match x with
  | Array a => Array ((fun z => z + k) <$> a)
  | Sequence xs => Sequence (shift k <$> xs)
  | Tuple xs => Tuple (shift k <$> xs)
  end.

Definition boom : exn := OtherException "RuntimeError" "boom".

Definition ex_train (n : nat) (x : data (list Z)) (arg : list (data (list Z)))
           (w : store) : result unit * store :=
  if ns_train_fails (state_of n w) then (Raise boom, w)
  else if negb (training n w)
  then (Raise (TrainingFinishedException "The training phase has already finished."), w)
  else (Ok tt, logged (ETrain n x arg) w).

Definition ex_stop_training (n : nat) (w : store) : result unit * store :=
  if negb (training n w)
  then (Raise (TrainingFinishedException "The training phase has already finished."), w)
  else (Ok tt, logged (EStop n) (next_phase n w)).

Definition ex_execute (n : nat) (x : data (list Z)) (w : store)
  : result (data (list Z)) * store :=
  if ns_execute_fails (state_of n w) then (Raise boom, w)
  else (Ok (shift (Z.of_nat n + 1) x), logged (EExecute n x) w).

Definition ex_inverse (n : nat) (x : data (list Z)) (w : store)
  : result (data (list Z)) * store :=
  (Ok (shift (- (Z.of_nat n + 1)) x), logged (EInverse n x) w).

Definition ex_concatenate (res : list (data (list Z)))
  : result (data (list Z)) :=
  match res with
  | [] => Raise (ValueError "need at least one array to concatenate")
  | _ => Ok (Array (concat ((fun x => match x with
                                      | Array a => a
                                      | Sequence _ | Tuple _ => []
                                      end) <$> res)))
  end.

(** A checkpoint function is given by the dictionary it returns, if any. *)
Definition ex_checkpoint (c : option (update nat)) (n : nat)
           (w : store) : result (option (update nat)) * store :=
  (Ok c, logged (ECheckpoint n) w).

#[export] Instance units
  : Units nat store (list Z) (option (update nat)) := {|
  node_type_name := fun n => "Node" +:+ pretty n;
  node_str := fun n _ => "Node" +:+ pretty n;
  input_dim := fun n w => ns_in (state_of n w);
  output_dim := fun n w => ns_out (state_of n w);
  is_trainable := fun n w => ns_trainable (state_of n w);
  is_training := training;
  get_remaining_train_phase :=
    fun n w => ns_phases (state_of n w) - ns_phase (state_of n w);
  train_seq_len := fun n w => ns_phases (state_of n w);
  node_train := ex_train;
  node_stop_training := ex_stop_training;
  node_execute := ex_execute;
  node_inverse := ex_inverse;
  numx_concatenate := ex_concatenate;
  format_exception := fun e => "Traceback: " +:+ exn_message e;
  mkstemp := fun k => "MDPcrash_" +:+ pretty k +:+ ".pic";
  call_checkpoint := ex_checkpoint
|}.

(** A trainable node with [phases] training phases, none done yet. *)
Definition fresh (phases : Z) (inp out : option Z) : node_state :=
  mkNode true phases 0 inp out false false.

(** A machine holding the flow [fl] of the given class over the given
    node states, with a crash recovery setting and iterator objects. *)
Definition machine (cls : flow_class) (fl : list nat) (sts : list node_state)
           (rec : pyval nat) (its : gmap nat (list (data (list Z))))
  : Machine nat store (list Z) :=
  mkMachine (mkFlow cls fl (VInt 0) rec ∅) (mkStore sts []) its ∅ 0 [] [].

(** Three nodes: 10 to 8, 8 to 6, and 5 to 4. *)
Definition chain : list node_state :=
  [fresh 2 (Some 10) (Some 8); fresh 2 (Some 8) (Some 6);
   fresh 1 (Some 5) (Some 4)].

(** Appending the node 5 to 4 after the chain 10 to 8 to 6. *)
Definition m_chain : Machine nat store (list Z) :=
  machine ClsFlow [0; 1]%nat chain (VInt 0) ∅.

(** A strided slice of a valid flow that fails the check: every second
    node of 10 to 8, 8 to 6, 6 to 5 puts 8 next to 6. *)
Definition m_strided : Machine nat store (list Z) :=
  machine ClsCheckpointFlow [0; 1; 2]%nat
          [fresh 1 (Some 10) (Some 8); fresh 1 (Some 8) (Some 6);
           fresh 1 (Some 6) (Some 5)] (VInt 0) ∅.

(** One node with two training phases, and an iterator object number 0
    that has one array left to yield. *)
Definition m_two_phases : Machine nat store (list Z) :=
  machine ClsFlow [0]%nat [fresh 2 None None] (VInt 0)
          {[ 0%nat := [Array [1]] ]}.

(** One trainable node whose single training phase is over. *)
Definition m_trained : Machine nat store (list Z) :=
  machine ClsFlow [0]%nat [mkNode true 1 1 None None false false] (VInt 0) ∅.

(** One node with a single training phase, not yet trained. *)
Definition m_single : Machine nat store (list Z) :=
  machine ClsFlow [0]%nat [fresh 1 None None] (VInt 0) ∅.

(** Two nodes, the first of which fails when executed; crash recovery
    is armed with a temporary file. *)
Definition m_failing : Machine nat store (list Z) :=
  machine ClsFlow [0; 1]%nat
          [mkNode true 1 0 None None false true; fresh 1 None None]
          (VInt 1) ∅.

(** A checkpoint flow of two nodes; the checkpoint of the first returns
    a dictionary with one entry, the second has no checkpoint. *)
Definition m_checkpoint : Machine nat store (list Z) :=
  machine ClsCheckpointFlow [0; 1]%nat [fresh 1 None None; fresh 1 None None]
          (VInt 0) ∅.

Definition seven : update nat := mkUpdate {[ "k" := VInt 7 ]} eq_refl.

Definition one_batch : list (source (list Z)) :=
  [SrcList [Array [1]]; SrcList [Array [2]]].

(** Three nodes in line, 10 to 8, 8 to 6 and 6 to 5, and the flow of the
    first two. *)
Definition line : list node_state :=
  [fresh 1 (Some 10) (Some 8); fresh 1 (Some 8) (Some 6);
   fresh 1 (Some 6) (Some 5)].

Definition m_line : Machine nat store (list Z) :=
  machine ClsFlow [0; 1]%nat line (VInt 0) ∅.

(** A flow without nodes. *)
Definition m_empty : Machine nat store (list Z) :=
  machine ClsFlow [] [] (VInt 0) ∅.

(** A node of output dimension zero and a node of unset input
    dimension, not yet in a flow. *)
Definition m_zero : Machine nat store (list Z) :=
  machine ClsFlow [] [fresh 1 None (Some 0); fresh 1 None None] (VInt 0) ∅.

(** Nodes whose inverse fails where their transform does. *)
Definition ex_inverse_fragile (n : nat) (x : data (list Z)) (w : store)
  : result (data (list Z)) * store :=
  if ns_execute_fails (state_of n w) then (Raise boom, w)
  else ex_inverse n x w.

Definition fragile
  : Units nat store (list Z) (option (update nat)) := {|
  node_type_name := fun n => "Node" +:+ pretty n;
  node_str := fun n _ => "Node" +:+ pretty n;
  input_dim := fun n w => ns_in (state_of n w);
  output_dim := fun n w => ns_out (state_of n w);
  is_trainable := fun n w => ns_trainable (state_of n w);
  is_training := training;
  get_remaining_train_phase :=
    fun n w => ns_phases (state_of n w) - ns_phase (state_of n w);
  train_seq_len := fun n w => ns_phases (state_of n w);
  node_train := ex_train;
  node_stop_training := ex_stop_training;
  node_execute := ex_execute;
  node_inverse := ex_inverse_fragile;
  numx_concatenate := ex_concatenate;
  format_exception := fun e => "Traceback: " +:+ exn_message e;
  mkstemp := fun k => "MDPcrash_" +:+ pretty k +:+ ".pic";
  call_checkpoint := ex_checkpoint
|}.

(** A disk without files, with one node that can be trained and one
    whose training is over. *)
Definition disk : Checkpoints.Disk nat store :=
  Checkpoints.mkDisk
    (mkStore [fresh 1 None None; mkNode true 1 1 None None false false] [])
    ∅ ∅.

End Example.

(** * Proof steps for sequences of operations

    [run_gets] runs a leading read of the machine, [run_lift] exposes a
    leading pure computation so that its value can be rewritten. *)

Ltac run_gets := unfold Py.bind at 1, Py.gets at 1; cbn [fst snd].
Ltac run_lift := unfold Py.bind at 1, Py.lift at 1.

(** * Properties of the container methods *)

Module ContainerFacts.
Import Py Model Container.
Local Open Scope py_scope.

Section Facts.
Context {Node World ndarray Checkpoint : Type}.
Context {U : Units Node World ndarray Checkpoint}.

Abbreviation Flow := (Flow Node).
Abbreviation Machine := (Machine Node World ndarray).
Abbreviation object := (object Node).

Lemma check_dimension_run out inp (m : Machine) :
  _check_dimension_consistency out inp m = (check_dims out inp, m).
Proof.
  unfold _check_dimension_consistency, check_dims.
  destruct (bool_decide _ && _); [|reflexivity].
  destruct out, inp; reflexivity.
Qed.

Lemma list_getitem_lookup {A} (l : list A) (i : nat) (x : A) :
  l !! i = Some x -> list_getitem l (Z.of_nat i) = Ok x.
Proof.
  intros H. pose proof (lookup_lt_Some _ _ _ H) as Hlt.
  unfold list_getitem, len.
  destruct (Z.ltb_spec (Z.of_nat i) 0); [lia|].
  destruct (Z.ltb_spec (Z.of_nat i) 0); [lia|].
  destruct (Z.leb_spec (Z.of_nat (length l)) (Z.of_nat i)); [lia|].
  simpl. rewrite Nat2Z.id, H. reflexivity.
Qed.

(** The index loop of [_check_nodes_consistency], started in the middle of
    the list, checks the pairs that remain. *)
Lemma check_nodes_from (pre : list Node) (a : Node) (rest : list Node)
      (m : Machine) :
  for_each (seqZ (len pre + 1) (len rest)) (fun i =>
      w <- gets world ;;
      prev <- lift (list_getitem (pre ++ a :: rest)%list (i - 1)) ;;
      next <- lift (list_getitem (pre ++ a :: rest)%list i) ;;
      _check_dimension_consistency (output_dim prev w) (input_dim next w)) m
  = (adjacent_check (world m) (a :: rest), m).
Proof.
  revert pre a. induction rest as [|b rest IH]; intros pre a.
  - reflexivity.
  - unfold len at 2. rewrite seqZ_cons by (simpl; lia).
    cbn [for_each]. unfold bind at 1. unfold bind at 1. unfold gets at 1.
    cbn [fst snd].
    replace (len pre + 1 - 1) with (Z.of_nat (length pre)) by (unfold len; lia).
    rewrite (list_getitem_lookup _ _ a)
      by (rewrite lookup_app_r, Nat.sub_diag by lia; reflexivity).
    run_lift.
    replace (len pre + 1) with (Z.of_nat (S (length pre))) by (unfold len; lia).
    rewrite (list_getitem_lookup _ _ b).
    2:{ rewrite lookup_app_r by lia.
        replace (S (length pre) - length pre)%nat with 1%nat by lia.
        reflexivity. }
    run_lift.
    rewrite check_dimension_run.
    cbn [adjacent_check].
    destruct (check_dims _ _) as [[]| |]; try reflexivity.
    specialize (IH (pre ++ [a])%list b).
    rewrite <- app_assoc in IH. cbn [app] in IH.
    replace (len (pre ++ [a]) + 1) with (Z.succ (Z.of_nat (S (length pre)))) in IH
      by (unfold len; rewrite length_app; simpl; lia).
    replace (Z.pred (Z.of_nat (length (b :: rest)))) with (len rest)
      by (unfold len; simpl; lia).
    exact IH.
Qed.

Lemma check_nodes_run (l : list Node) (m : Machine) :
  _check_nodes_consistency l m = (adjacent_check (world m) l, m).
Proof.
  destruct l as [|a rest]; [reflexivity|].
  unfold _check_nodes_consistency, range2.
  replace (len (a :: rest) - 1) with (len rest) by (unfold len; simpl; lia).
  exact (check_nodes_from [] a rest m).
Qed.

(** What the check of one pair answers, for a left dimension that is not
    the integer zero. *)
Lemma check_dims_cases (out inp : option Z) :
  out <> Some 0 ->
  (check_dims out inp = Ok tt /\
   forall o d, out = Some o -> inp = Some d -> o = d) \/
  (exists o d, out = Some o /\ inp = Some d /\ o <> d /\
               check_dims out inp = Raise (ValueError (msg_dimensions o d))).
Proof.
  intros Hnz. unfold check_dims, dim_and, dim_truthy, dim_ne.
  destruct out as [o|]; [|left; split; [reflexivity|discriminate]].
  destruct (Z.eqb_spec o 0) as [->|Ho]; [congruence|]. cbn [negb].
  destruct inp as [d|]; [|left; split; [reflexivity|discriminate]].
  rewrite bool_decide_eq_true_2 by discriminate. cbn [andb].
  destruct (Z.eqb_spec o d) as [->|Hod]; cbn [negb].
  - left. split; [reflexivity|]. intros ? ? [= <-] [= <-]. reflexivity.
  - right. exists o, d. repeat split; assumption.
Qed.

Lemma conflict_cons w (a : Node) (l : list Node) o d :
  conflict w l o d -> conflict w (a :: l) o d.
Proof.
  intros (i & x & y & Hx & Hy & H). exists (S i), x, y. exact (conj Hx (conj Hy H)).
Qed.

(** The check passes exactly on the sequences that satisfy the adjacency
    invariant, and otherwise names a conflicting pair. *)
Lemma adjacent_check_cases w (l : list Node) :
  dims_nonzero w l ->
  (adjacent_check w l = Ok tt /\ ~ violates w l) \/
  (exists o d, conflict w l o d /\
               adjacent_check w l = Raise (ValueError (msg_dimensions o d))).
Proof.
  induction l as [|a rest IH]; intros Hnz.
  - left. split; [reflexivity|]. intros (o & d & i & x & y & Hx & _). discriminate.
  - destruct rest as [|b rest'].
    + left. split; [reflexivity|].
      intros (o & d & i & x & y & _ & Hy & _). discriminate.
    + cbn [adjacent_check].
      destruct (check_dims_cases (output_dim a w) (input_dim b w)) as
        [[Hok Heq]|(o & d & Ho & Hd & Hne & Hraise)].
      { exact (Forall_inv Hnz). }
      * rewrite Hok.
        destruct IH as [[IHok IHnv]|(o & d & Hc & IHraise)].
        { exact (Forall_inv_tail Hnz). }
        -- left. split; [exact IHok|].
           intros (o & d & i & x & y & Hx & Hy & Hxo & Hyd & Hne).
           destruct i as [|i].
           ++ cbn in Hx, Hy. injection Hx as <-. injection Hy as <-.
              apply Hne. eapply Heq; eassumption.
           ++ apply IHnv. exists o, d, i, x, y. repeat split; assumption.
        -- right. exists o, d. split; [apply conflict_cons; exact Hc|exact IHraise].
      * right. exists o, d. rewrite Hraise. split; [|reflexivity].
        exists 0%nat, a, b. repeat split; assumption.
Qed.

Lemma check_then (l : list Node) {A} (k : M Machine A) (m : Machine) :
  (_check_nodes_consistency l ;;; k) m =
  match adjacent_check (world m) l with
  | Ok _ => k m
  | Raise e => (Raise e, m)
  | OutOfFuel => (OutOfFuel, m)
  end.
Proof.
  unfold bind. rewrite check_nodes_run.
  destruct (adjacent_check _ _); reflexivity.
Qed.

Lemma world_constructed cls (m : Machine) : world (constructed cls m) = world m.
Proof. destruct cls; reflexivity. Qed.

Lemma init_run cls (l : list Node) (m : Machine) :
  adjacent_check (world m) l = Ok tt ->
  __init__ cls l (VInt 0) m =
  (Ok (mkFlow cls l (VInt 0) (VInt 0) ∅), constructed cls m).
Proof.
  intros Hok. unfold __init__.
  assert (Hw : forall m' : Machine, world m' = world m ->
            (_check_nodes_consistency l ;;; ret (mkFlow cls l (VInt 0) (VInt 0) ∅)) m'
            = (Ok (mkFlow cls l (VInt 0) (VInt 0) ∅), m')).
  { intros m' Hm'. rewrite check_then, Hm', Hok. reflexivity. }
  destruct cls; unfold bind at 1; cbn; apply Hw; reflexivity.
Qed.

Lemma map_check_run (items : list object) (m : Machine) :
  map_op _check_value_type_isnode items m =
  (all_nodes items, m).
Proof.
  induction items as [|x rest IH]; [reflexivity|].
  cbn [map_op all_nodes]. unfold bind at 1.
  destruct x; cbn; try reflexivity.
  unfold bind at 1. rewrite IH. destruct (all_nodes rest); reflexivity.
Qed.

Lemma all_nodes_fmap (l : list Node) : all_nodes (ObjNode <$> l) = Ok l.
Proof.
  induction l as [|n l IH]; [reflexivity|].
  cbn. rewrite IH. reflexivity.
Qed.

Lemma commit_run (l : list Node) (m : Machine) :
  (_check_nodes_consistency l ;;;
   modify (fun m => set_self (set_flow l (self m)) m) ;;;
   ret (@ObjNone Node)) m =
  match adjacent_check (world m) l with
  | Ok _ => (Ok (@ObjNone Node), set_self (set_flow l (self m)) m)
  | Raise e => (Raise e, m)
  | OutOfFuel => (OutOfFuel, m)
  end.
Proof. rewrite check_then. reflexivity. Qed.

Lemma setitem_slice_run sl (value : object) (m : Machine) :
  __setitem__ (KSlice sl) value m =
  match (ns <- nodes_of value ;; list_setslice (flow (self m)) sl ns)%res with
  | Ok l =>
      match adjacent_check (world m) l with
      | Ok _ => (Ok (@ObjNone Node), set_self (set_flow l (self m)) m)
      | Raise e => (Raise e, m)
      | OutOfFuel => (OutOfFuel, m)
      end
  | Raise e => (Raise e, m)
  | OutOfFuel => (OutOfFuel, m)
  end.
Proof.
  assert (Hrest : forall ns : list Node,
    (s <- gets self ;;
     flow_copy <- lift (list_setslice (flow s) sl ns) ;;
     _check_nodes_consistency flow_copy ;;;
     modify (fun m => set_self (set_flow flow_copy (self m)) m) ;;;
     ret (@ObjNone Node)) m =
    match list_setslice (flow (self m)) sl ns with
    | Ok l =>
        match adjacent_check (world m) l with
        | Ok _ => (Ok (@ObjNone Node), set_self (set_flow l (self m)) m)
        | Raise e => (Raise e, m)
        | OutOfFuel => (OutOfFuel, m)
        end
    | Raise e => (Raise e, m)
    | OutOfFuel => (OutOfFuel, m)
    end).
  { intros ns. run_gets.
    run_lift.
    destruct (list_setslice _ _ _) as [l| |]; try reflexivity.
    apply commit_run. }
  unfold __setitem__.
  destruct value as [|n|f|items|t]; try reflexivity.
  - unfold bind at 1. cbn [iterate]. unfold ret at 1.
    unfold bind at 1. rewrite map_check_run, all_nodes_fmap.
    cbn [nodes_of and_then]. apply Hrest.
  - unfold bind at 1. cbn [iterate]. unfold ret at 1.
    unfold bind at 1. rewrite map_check_run. cbn [nodes_of].
    destruct (all_nodes items) as [ns| |]; cbn [and_then]; try reflexivity.
    apply Hrest.
Qed.

Lemma setitem_int_run i (value : object) (m : Machine) :
  __setitem__ (KInt i) value m =
  match (n <- node_of value ;; list_setitem (flow (self m)) i n)%res with
  | Ok l =>
      match adjacent_check (world m) l with
      | Ok _ => (Ok (@ObjNone Node), set_self (set_flow l (self m)) m)
      | Raise e => (Raise e, m)
      | OutOfFuel => (OutOfFuel, m)
      end
  | Raise e => (Raise e, m)
  | OutOfFuel => (OutOfFuel, m)
  end.
Proof.
  unfold __setitem__.
  destruct value; try reflexivity.
  cbn [_check_value_type_isnode node_of and_then].
  unfold bind at 1, ret at 1. run_gets.
  run_lift.
  destruct (list_setitem _ _ _) as [l| |]; try reflexivity.
  apply commit_run.
Qed.

Lemma delitem_run k (m : Machine) :
  __delitem__ k m =
  match (match k with
         | KInt i => list_delitem (flow (self m)) i
         | KSlice sl => list_delslice (flow (self m)) sl
         end) with
  | Ok l =>
      match adjacent_check (world m) l with
      | Ok _ => (Ok (@ObjNone Node), set_self (set_flow l (self m)) m)
      | Raise e => (Raise e, m)
      | OutOfFuel => (OutOfFuel, m)
      end
  | Raise e => (Raise e, m)
  | OutOfFuel => (OutOfFuel, m)
  end.
Proof.
  unfold __delitem__.
  run_gets.
  run_lift.
  destruct (match k with KInt _ => _ | KSlice _ => _ end) as [l| |];
    try reflexivity.
  apply commit_run.
Qed.

(** [l[len(l):len(l)] = v] appends. *)
Lemma setslice_at_end {A} (l v : list A) :
  list_setslice l (Slice (Some (len l)) (Some (len l)) None) v = Ok (l ++ v)%list.
Proof.
  assert (Hneg : (len l <? 0) = false) by (apply Z.ltb_ge; unfold len; lia).
  assert (Hle : (len l <=? len l) = true) by (apply Z.leb_le; lia).
  assert (Hlt : (len l <? len l) = false) by (apply Z.ltb_ge; lia).
  unfold list_setslice, slice_indices, clip_bound.
  cbn [slice_step slice_start slice_stop default].
  change (1 =? 0) with false. change (1 <? 0) with false. cbn [andb orb].
  rewrite Hneg, Hle. cbn [ix_step ix_start ix_stop].
  change (1 =? 1) with true. cbv iota.
  unfold list_ass_slice. cbv zeta. rewrite !Hneg, !Hlt.
  unfold len. rewrite Nat2Z.id, firstn_all, drop_all, app_nil_r. reflexivity.
Qed.

(** Every operation is its closed form: the pure construction of the new
    sequence, the dimension check, and the commit. *)
Lemma run_closed_form (mu : mutation) (m : Machine) :
  run mu m = closed_form mu m.
Proof.
  unfold closed_form, finish, returned.
  destruct mu as [k value|k|i x|x|x|i|other]; cbn [run proposal].
  - destruct k as [i|sl]; [rewrite setitem_int_run|rewrite setitem_slice_run];
      destruct (and_then _ _); reflexivity.
  - rewrite delitem_run.
    destruct k as [i|sl];
      [destruct (list_delitem (flow (self m)) i)
      |destruct (list_delslice (flow (self m)) sl)]; reflexivity.
  - unfold insert, slice2. rewrite setitem_slice_run.
    cbn [nodes_of all_nodes].
    destruct x; cbn [node_of and_then]; reflexivity.
  - unfold append, __len__, slice2.
    unfold bind at 1. unfold bind at 1, gets at 1, ret at 1. cbn [fst snd].
    rewrite setitem_slice_run. cbn [nodes_of all_nodes].
    destruct x; cbn [node_of and_then]; try reflexivity.
    rewrite setslice_at_end. reflexivity.
  - unfold extend, __len__, slice2.
    destruct x; cbn [is_flow negb]; try reflexivity.
    unfold bind at 1. unfold bind at 1, gets at 1, ret at 1. cbn [fst snd].
    rewrite setitem_slice_run. cbn [nodes_of and_then].
    rewrite setslice_at_end. reflexivity.
  - unfold pop, __getitem__.
    unfold bind at 1. run_gets.
    run_lift.
    destruct (list_getitem (flow (self m)) i) as [n| |] eqn:Hget;
      cbn [and_then]; try reflexivity.
    unfold ret at 1. unfold bind at 1. rewrite delitem_run.
    destruct (list_delitem _ _) as [l| |]; try reflexivity.
    destruct (adjacent_check _ _); reflexivity.
  - unfold __add__. destruct other; try reflexivity.
    run_gets.
    rewrite check_then.
    destruct (adjacent_check _ _) as [[]| |] eqn:Hok; try reflexivity.
    unfold bind at 1. rewrite init_run by exact Hok. reflexivity.
Qed.

(** An operation that raises leaves the machine as it was. *)
Lemma run_raise_unchanged (mu : mutation) (m m' : Machine) (e : exn) :
  run mu m = (Raise e, m') -> m' = m.
Proof.
  rewrite run_closed_form. unfold closed_form, finish.
  destruct (proposal mu (self m)) as [l| |]; [|congruence..].
  destruct (adjacent_check _ _); [|congruence..].
  destruct mu; congruence.
Qed.

Lemma prospective_proposal (mu : mutation) (f : Flow) (l : list Node) :
  prospective mu f = Some l -> proposal mu f = Ok l.
Proof.
  unfold prospective, to_option.
  destruct (proposal mu f); congruence.
Qed.

(** C1. Every mutating operation (index and slice assignment, deletion,
    insert, append, extend, pop, concatenation) submits its prospective
    new sequence to the adjacency check. If the sequence violates the
    invariant the operation raises the dimension error naming two
    conflicting dimensions of the sequence and leaves the machine, and so
    the flow, exactly as it was; if the invariant holds the mutation is
    committed. No operation that raises changes anything. Dimensions are
    unset or nonzero, as in the data model. *)
Theorem C1_mutation_checked_then_committed
        (mu : mutation) (m : Machine) (l : list Node) :
  prospective mu (self m) = Some l ->
  dims_nonzero (world m) l ->
  (violates (world m) l ->
   exists o d, conflict (world m) l o d /\ rejected m o d (run mu m)) /\
  (~ violates (world m) l -> committed mu m l (run mu m)) /\
  (forall e m', run mu m = (Raise e, m') -> m' = m).
Proof.
  intros Hpro Hnz.
  pose proof (prospective_proposal _ _ _ Hpro) as Hprop.
  assert (Hrun : run mu m = finish mu l m).
  { rewrite run_closed_form. unfold closed_form. rewrite Hprop. reflexivity. }
  split; [|split].
  - intros Hv.
    destruct (adjacent_check_cases (world m) l Hnz) as [[_ Hnv]|(o & d & Hc & Hraise)].
    { contradiction. }
    exists o, d. split; [exact Hc|].
    unfold rejected. rewrite Hrun. unfold finish. rewrite Hraise. reflexivity.
  - intros Hnv.
    destruct (adjacent_check_cases (world m) l Hnz) as [[Hok _]|(o & d & Hc & _)].
    2:{ exfalso. apply Hnv. exists o, d. exact Hc. }
    rewrite Hrun. unfold finish. rewrite Hok.
    destruct mu as [k value|k|i x|x|x|i|other]; cbn [committed returned]; try reflexivity.
    cbn [proposal] in Hprop.
    destruct (list_getitem (flow (self m)) i) as [n| |]; cbn [and_then] in Hprop;
      try discriminate.
    exists n. split; reflexivity.
  - intros e m'. apply run_raise_unchanged.
Qed.

(** [extend] accepts flows only: every other operand, a plain list of
    nodes included, is refused before the flow is touched. *)
Lemma extend_requires_flow (x : object) (m : Machine) :
  is_flow x = false ->
  extend x m = (Raise (TypeError (msg_concatenate x)), m).
Proof.
  intros Hx. change (run (MExtend x) m = (Raise (TypeError (msg_concatenate x)), m)).
  rewrite run_closed_form. unfold closed_form. cbn [proposal].
  destruct x; try discriminate; reflexivity.
Qed.

Lemma not_sequence_not_flow (x : object) :
  to_option (nodes_of x) = None -> is_flow x = false.
Proof. destruct x; try reflexivity. discriminate. Qed.

(** C9. Concatenation requires the right-hand operand to be a flow, and
    [extend] requires a sequence of units: for an operand that is not of
    the required kind the operation fails with a [TypeError] that names
    the operand's type, and the machine, the left flow included, is
    unchanged. Conversely an operation that succeeds had an operand of
    the required kind. *)
Theorem C9_operand_kind_checked (x : object) (m : Machine) :
  (is_flow x = false ->
   __add__ x m = (Raise (TypeError (msg_concatenate x)), m)) /\
  (to_option (nodes_of x) = None ->
   extend x m = (Raise (TypeError (msg_concatenate x)), m)) /\
  (forall r m', __add__ x m = (Ok r, m') -> is_flow x = true) /\
  (forall r m', extend x m = (Ok r, m') -> exists ns, nodes_of x = Ok ns).
Proof.
  split; [|split; [|split]].
  - intros Hx. destruct x; try discriminate; reflexivity.
  - intros Hx. apply extend_requires_flow, not_sequence_not_flow, Hx.
  - intros r m' H. destruct x; try reflexivity; discriminate.
  - intros r m' H. destruct x as [|n|f|items|t];
      try (rewrite extend_requires_flow in H by reflexivity; discriminate).
    exists (flow f). reflexivity.
Qed.

(** C10. Indexing with a slice validates the selected subsequence
    against the adjacency invariant and, if it passes, returns a new flow
    of the class of [self] that holds it; if it fails, the dimension
    error is raised although nothing was to be mutated. Indexing with an
    integer returns the unit at that index and checks nothing. Neither
    changes the flow. *)
Theorem C10_getitem (m : Machine) :
  (forall sl l,
      list_getslice (flow (self m)) sl = Ok l ->
      dims_nonzero (world m) l ->
      (~ violates (world m) l ->
       __getitem__ (KSlice sl) m =
       (Ok (ObjFlow (mkFlow (__class__ (self m)) l (VInt 0) (VInt 0) ∅)),
        constructed (__class__ (self m)) m)) /\
      (violates (world m) l ->
       exists o d, conflict (world m) l o d /\
                   __getitem__ (KSlice sl) m =
                   (Raise (ValueError (msg_dimensions o d)), m))) /\
  (forall i n,
      list_getitem (flow (self m)) i = Ok n ->
      __getitem__ (KInt i) m = (Ok (ObjNode n), m)).
Proof.
  split.
  - intros sl l Hsl Hnz.
    assert (Hrun : __getitem__ (KSlice sl) m =
                   match adjacent_check (world m) l with
                   | Ok _ =>
                       (Ok (ObjFlow (mkFlow (__class__ (self m)) l (VInt 0) (VInt 0) ∅)),
                        constructed (__class__ (self m)) m)
                   | Raise e => (Raise e, m)
                   | OutOfFuel => (OutOfFuel, m)
                   end).
    { unfold __getitem__. run_gets.
      run_lift. rewrite Hsl.
      rewrite check_then.
      destruct (adjacent_check _ _) as [[]| |] eqn:Hok; try reflexivity.
      unfold bind at 1. rewrite init_run by exact Hok. reflexivity. }
    rewrite Hrun.
    destruct (adjacent_check_cases (world m) l Hnz) as [[Hok Hnv]|(o & d & Hc & Hraise)].
    + rewrite Hok. split; [reflexivity|contradiction].
    + rewrite Hraise. split.
      * intros Hnv. exfalso. apply Hnv. exists o, d. exact Hc.
      * intros _. exists o, d. split; [exact Hc|reflexivity].
  - intros i n Hi. unfold __getitem__.
    run_gets.
    run_lift. rewrite Hi. reflexivity.
Qed.

End Facts.
End ContainerFacts.

(** * Properties of training, execution and crash recovery *)

Module EngineFacts.
Import Py Model Engine.
Local Open Scope py_scope.

Section Facts.
Context {Node World ndarray Checkpoint : Type}.
Context {U : Units Node World ndarray Checkpoint}.

Abbreviation Flow := (Flow Node).
Abbreviation Machine := (Machine Node World ndarray).
Abbreviation data := (data ndarray).
Abbreviation source := (source ndarray).
Abbreviation Op := (M Machine).

(** ** The machine *)

Lemma set_world_id (m : Machine) : set_world (world m) m = m.
Proof. destruct m; reflexivity. Qed.

Lemma set_world_inj (w1 w2 : World) (m : Machine) :
  set_world w1 m = set_world w2 m -> w1 = w2.
Proof. intros H. exact (f_equal world H). Qed.

(** ** Inversion of monadic steps *)

Lemma bind_ok {A B} (a : Op A) (k : A -> Op B) (m m' : Machine) (y : B) :
  bind a k m = (Ok y, m') ->
  exists x m1, a m = (Ok x, m1) /\ k x m1 = (Ok y, m').
Proof.
  unfold bind. destruct (a m) as [[x|e|] m1]; try discriminate.
  intros H. exists x, m1. split; [reflexivity|exact H].
Qed.

Lemma bind_run {A B} (a : Op A) (k : A -> Op B) (m m1 : Machine) (x : A) :
  a m = (Ok x, m1) -> bind a k m = k x m1.
Proof. intros H. unfold bind. rewrite H. reflexivity. Qed.

Lemma for_each_app {A} (l1 l2 : list A) (body : A -> Op unit) (m : Machine) :
  for_each (l1 ++ l2) body m = (for_each l1 body ;;; for_each l2 body) m.
Proof.
  revert m. induction l1 as [|x l1 IH]; intros m.
  - reflexivity.
  - cbn [app for_each]. unfold bind.
    destruct (body x m) as [[[]|e|] m1]; try reflexivity.
    rewrite IH. reflexivity.
Qed.

(** ** Crash recovery *)

Lemma exception_init_run (errstr : string) (parent : exn) (m : Machine) :
  FlowExceptionCR_init errstr parent m =
  (Ok (match dump_name m with
       | Some name => FlowExceptionCR (errstr +:+ dumpinfo name) parent (Some name)
       | None => FlowExceptionCR errstr parent None
       end), crashed m).
Proof.
  unfold FlowExceptionCR_init, dump_name, crashed.
  run_gets.
  destruct (truthy (_crash_recovery (self m))); [|reflexivity].
  destruct (_crash_recovery (self m)); reflexivity.
Qed.

(** The wrapping error of a node that is in the flow. *)
Lemma propagate_run {A} (e : exn) (i : Z) (node : Node) (m : Machine) :
  list_getitem (flow (self m)) i = Ok node ->
  @_propagate_exception _ _ _ _ _ A e i m = (Raise (wrapping m i node e), crashed m).
Proof.
  intros Hnode. unfold _propagate_exception, wrapping.
  run_gets.
  run_lift. rewrite Hnode.
  unfold bind at 1. rewrite exception_init_run. reflexivity.
Qed.

(** [_propagate_exception] never returns. *)
Lemma propagate_raises {A} (e : exn) (i : Z) (m : Machine) :
  exists e' m', @_propagate_exception _ _ _ _ _ A e i m = (Raise e', m').
Proof.
  destruct (list_getitem (flow (self m)) i) as [node|e'|] eqn:Hnode.
  - rewrite (propagate_run e i node m Hnode). eauto.
  - unfold _propagate_exception.
    run_gets.
    run_lift. rewrite Hnode. eauto.
  - exfalso. unfold list_getitem in Hnode.
    destruct (_ || _); [discriminate|].
    destruct (_ !! _); discriminate.
Qed.

Lemma append_assoc (a b c : string) : (a +:+ b) +:+ c = a +:+ (b +:+ c).
Proof.
  induction a as [|ch a IH]; [reflexivity|].
  change (String ch ((a +:+ b) +:+ c) = String ch (a +:+ (b +:+ c))).
  rewrite IH. reflexivity.
Qed.

Lemma contains_here (s post : string) : contains (s +:+ post) s.
Proof. exists EmptyString, post. reflexivity. Qed.

Lemma contains_right (a t s : string) : contains t s -> contains (a +:+ t) s.
Proof.
  intros (pre & post & ->). exists (a +:+ pre), post.
  symmetry. apply append_assoc.
Qed.

Lemma contains_left (t b s : string) : contains t s -> contains (t +:+ b) s.
Proof.
  intros (pre & post & ->). exists pre, (post +:+ b).
  rewrite !append_assoc. reflexivity.
Qed.

Lemma errstr_contains (i : Z) (name prev : string) :
  contains (msg_errstr i name prev) (pretty i) /\
  contains (msg_errstr i name prev) name.
Proof.
  unfold msg_errstr, msg_act. split.
  - do 2 apply contains_right. apply contains_left.
    do 2 apply contains_right. apply contains_here.
  - do 2 apply contains_right. apply contains_left.
    do 4 apply contains_right. apply contains_here.
Qed.

(** The message of the wrapping error names the index and the type of
    the node. *)
Lemma wrapping_message (m : Machine) (i : Z) (node : Node) (e : exn) :
  contains (exn_message (wrapping m i node e)) (pretty i) /\
  contains (exn_message (wrapping m i node e)) (node_type_name node).
Proof.
  destruct (errstr_contains i (node_type_name node) (format_exception e))
    as [Hi Hn].
  unfold wrapping. destruct (dump_name m) as [name|]; cbn [exn_message].
  - split; apply contains_left; assumption.
  - split; assumption.
Qed.

(** The wrapping error keeps the failure it wraps. *)
Lemma wrapping_parent (m : Machine) (i : Z) (node : Node) (e : exn) :
  exists msg, wrapping m i node e = FlowExceptionCR msg e (dump_name m).
Proof.
  unfold wrapping. destruct (dump_name m); eauto.
Qed.

(** With crash recovery armed, the snapshot of the flow is on the file the
    error names once the error has been built. *)
Lemma crashed_dump (m : Machine) (name : string) :
  dump_name m = Some name ->
  files (crashed m) !! name = Some (mkSnapshot (self m) (world m)).
Proof.
  unfold dump_name, crashed.
  destruct (truthy (_crash_recovery (self m))); [|discriminate].
  destruct (_crash_recovery (self m)); intros [= <-]; cbn [files write_file];
    apply lookup_insert_eq.
Qed.

(** ** Execution *)

Lemma call_run {A} (f : World -> result A * World) (m : Machine) :
  call f m = ((f (world m)).1, set_world (f (world m)).2 m).
Proof. unfold call. destruct (f (world m)); reflexivity. Qed.

Lemma list_getitem_at {A} (l : list A) (i : Z) (x : A) :
  0 <= i -> l !! Z.to_nat i = Some x -> list_getitem l i = Ok x.
Proof.
  intros Hi Hx. rewrite <- (Z2Nat.id i Hi).
  apply ContainerFacts.list_getitem_lookup, Hx.
Qed.

(** One round of the loop of [_execute_seq], at a node of the flow. *)
Lemma execute_step (fl : list Node) (i : Z) (node : Node) (x : data)
      (m : Machine) :
  0 <= i -> fl !! Z.to_nat i = Some node ->
  try_except
    (node <- lift (list_getitem fl i) ;; call (node_execute node x))
    (fun e => _propagate_exception e i) m =
  match node_execute node x (world m) with
  | (Ok y, w) => (Ok y, set_world w m)
  | (Raise e, w) => _propagate_exception e i (set_world w m)
  | (OutOfFuel, w) => (OutOfFuel, set_world w m)
  end.
Proof.
  intros Hi Hnode. unfold try_except.
  run_lift.
  rewrite (list_getitem_at _ _ _ Hi Hnode).
  rewrite call_run.
  destruct (node_execute node x (world m)) as [[y|e|] w]; reflexivity.
Qed.

Lemma execute_from_cons (pre : list Node) (n : Node) (units post : list Node)
      (x : data) (m : Machine) :
  let fl := (pre ++ (n :: units) ++ post)%list in
  execute_from fl (len pre) (len (n :: units)) x m =
  match node_execute n x (world m) with
  | (Ok y, w) => execute_from fl (len (pre ++ [n])) (len units) y (set_world w m)
  | (Raise e, w) => _propagate_exception e (len pre) (set_world w m)
  | (OutOfFuel, w) => (OutOfFuel, set_world w m)
  end.
Proof.
  intros fl. unfold execute_from.
  assert (Hseq : seqZ (len pre) (len (n :: units)) =
                 len pre :: seqZ (len (pre ++ [n])) (len units)).
  { rewrite seqZ_cons by (unfold len; simpl; lia).
    f_equal. f_equal; unfold len; rewrite ?length_app; simpl; lia. }
  assert (Hn : fl !! Z.to_nat (len pre) = Some n).
  { subst fl. unfold len. rewrite Nat2Z.id.
    rewrite lookup_app_r, Nat.sub_diag by lia. reflexivity. }
  assert (Hpos : 0 <= len pre) by (unfold len; lia).
  rewrite Hseq. cbn [for_fold]. unfold bind at 1.
  rewrite (execute_step fl (len pre) n x m Hpos Hn).
  destruct (node_execute n x (world m)) as [[y|e|] w]; try reflexivity.
  destruct (@propagate_raises data e (len pre) (set_world w m)) as (e' & m' & Hp).
  rewrite Hp. reflexivity.
Qed.

(** The loop over a stretch [units] of the flow succeeds exactly when
    each of the units does. *)
Lemma execute_loop (pre units post : list Node) (x : data) (m : Machine) :
  let fl := (pre ++ units ++ post)%list in
  (forall y w', applies units x (world m) y w' ->
                execute_from fl (len pre) (len units) x m = (Ok y, set_world w' m)) /\
  (forall y m', execute_from fl (len pre) (len units) x m = (Ok y, m') ->
                exists w', m' = set_world w' m /\ applies units x (world m) y w').
Proof.
  revert pre x m. induction units as [|n units IH]; intros pre x m fl.
  - unfold execute_from. cbn. split.
    + intros y w' H. inversion H; subst. unfold ret. rewrite set_world_id.
      reflexivity.
    + intros y m' [= <- <-]. exists (world m).
      rewrite set_world_id. split; [reflexivity|constructor].
  - subst fl. rewrite execute_from_cons.
    assert (Hfl : (pre ++ (n :: units) ++ post)%list =
                  ((pre ++ [n]) ++ units ++ post)%list).
    { rewrite <- app_assoc. reflexivity. }
    rewrite Hfl.
    destruct (node_execute n x (world m)) as [[y1|e|] w1] eqn:Hex.
    + destruct (IH (pre ++ [n])%list y1 (set_world w1 m)) as [IH1 IH2]. split.
      * intros y w' H. inversion H; subst.
        match goal with
        | H1 : node_execute n x (world m) = _ |- _ =>
            rewrite Hex in H1; injection H1 as <- <-
        end.
        rewrite (IH1 y w') by assumption. reflexivity.
      * intros y m' Hrun. destruct (IH2 y m' Hrun) as (w' & -> & Happ).
        exists w'. split; [reflexivity|].
        econstructor; [exact Hex|exact Happ].
    + split.
      * intros y w' H. inversion H; subst. congruence.
      * intros y m' Hrun.
        destruct (@propagate_raises data e (len pre) (set_world w1 m))
          as (e' & m'' & Hp).
        rewrite Hp in Hrun. discriminate.
    + split.
      * intros y w' H. inversion H; subst. congruence.
      * intros y m' Hrun. discriminate.
Qed.

Lemma units_upto_range (f : Flow) (nodenr : option Z) :
  (forall k, nodenr = Some k -> k < len (flow f)) ->
  range (match nodenr with
         | None => len (flow f) - 1
         | Some k => k
         end + 1) = seqZ (len (@nil Node)) (len (units_upto f nodenr)) /\
  flow f = ([] ++ units_upto f nodenr ++
            drop (length (units_upto f nodenr)) (flow f))%list.
Proof.
  intros Hk. unfold range, units_upto. destruct nodenr as [k|].
  - specialize (Hk k eq_refl). unfold len in *. split.
    + cbn [length]. rewrite length_take.
      destruct (Z.le_gt_cases (k + 1) 0).
      * rewrite !seqZ_nil by lia. reflexivity.
      * f_equal. lia.
    + cbn [app]. rewrite length_take.
      replace (drop (Z.to_nat (k + 1) `min` length (flow f)) (flow f))
        with (drop (Z.to_nat (k + 1)) (flow f)).
      * symmetry. apply take_drop.
      * destruct (Nat.le_gt_cases (Z.to_nat (k + 1)) (length (flow f))).
        -- rewrite Nat.min_l by assumption. reflexivity.
        -- lia.
  - split.
    + unfold len. cbn [length]. f_equal. lia.
    + cbn [app]. rewrite drop_all, app_nil_r. reflexivity.
Qed.

(** [_execute_seq] returns [y] exactly when the units up to [nodenr]
    transform [x] into [y], and then only the state of the nodes has
    changed. *)
Lemma execute_seq_applies (x : data) (nodenr : option Z) (m : Machine) :
  (forall k, nodenr = Some k -> k < len (flow (self m))) ->
  (forall y w', applies (units_upto (self m) nodenr) x (world m) y w' ->
                _execute_seq x nodenr m = (Ok y, set_world w' m)) /\
  (forall y m', _execute_seq x nodenr m = (Ok y, m') ->
                exists w', m' = set_world w' m /\
                           applies (units_upto (self m) nodenr) x (world m) y w').
Proof.
  intros Hk. destruct (units_upto_range (self m) nodenr Hk) as [Hrange Hfl].
  assert (Hrun : _execute_seq x nodenr m =
                 execute_from (flow (self m)) (len (@nil Node))
                              (len (units_upto (self m) nodenr)) x m).
  { unfold _execute_seq, execute_from. unfold bind at 1, gets at 1.
    cbn [fst snd]. rewrite Hrange. reflexivity. }
  rewrite Hrun.
  pose proof (execute_loop [] (units_upto (self m) nodenr)
                (drop (length (units_upto (self m) nodenr)) (flow (self m)))
                x m) as Hloop.
  cbv zeta in Hloop. rewrite <- Hfl in Hloop. exact Hloop.
Qed.

Lemma self_advance_of (src : source) (rest : list data) (m : Machine) :
  self (advance_of src rest m) = self m.
Proof. destruct src; reflexivity. Qed.

Lemma world_advance_of (src : source) (rest : list data) (m : Machine) :
  world (advance_of src rest m) = world m.
Proof. destruct src; reflexivity. Qed.

Lemma iterate_items_cons {B} (adv : list data -> Op unit) (x : data)
      (xs : list data) (acc : B) (body : data -> B -> Op B) (m ma : Machine) :
  adv xs m = (Ok tt, ma) ->
  iterate_items adv (x :: xs) acc body m =
  match body x acc ma with
  | (Ok acc', m1) => iterate_items adv xs acc' body m1
  | (Raise e, m1) => (Raise e, m1)
  | (OutOfFuel, m1) => (OutOfFuel, m1)
  end.
Proof.
  intros Hadv. cbn [iterate_items]. unfold bind. rewrite Hadv.
  destruct (body x acc ma) as [[acc'|e|] m1]; reflexivity.
Qed.

(** The loop of [execute] over the batches of an iterable. *)
Lemma collect_loop (src : source) (adv : list data -> Op unit)
      (nodenr : option Z) (units : list Node) (xs : list data) :
  (forall rest m, adv rest m = (Ok tt, advance_of src rest m)) ->
  forall (acc : list data) (m : Machine),
    units = units_upto (self m) nodenr ->
    (forall k, nodenr = Some k -> k < len (flow (self m))) ->
    (forall ys m', applies_each units (advance_of src) xs m ys m' ->
                   iterate_items adv xs acc
                     (fun x res => y <- _execute_seq x nodenr ;; ret (res ++ [y])%list) m
                   = (Ok (acc ++ ys)%list, m')) /\
    (forall res m',
        iterate_items adv xs acc
          (fun x res => y <- _execute_seq x nodenr ;; ret (res ++ [y])%list) m
        = (Ok res, m') ->
        exists ys, res = (acc ++ ys)%list /\
                   applies_each units (advance_of src) xs m ys m').
Proof.
  intros Hadv. induction xs as [|x xs IH]; intros acc m Hunits Hk.
  - cbn [iterate_items]. split.
    + intros ys m' H. inversion H; subst. rewrite app_nil_r. reflexivity.
    + intros res m' [= <- <-]. exists []. rewrite app_nil_r.
      split; [reflexivity|constructor].
  - rewrite (iterate_items_cons adv x xs acc _ m _ (Hadv xs m)).
    set (ma := advance_of src xs m).
    assert (Hself : self ma = self m) by apply self_advance_of.
    assert (Hworld : world ma = world m) by apply world_advance_of.
    assert (Hk' : forall k, nodenr = Some k -> k < len (flow (self ma))).
    { rewrite Hself. exact Hk. }
    destruct (execute_seq_applies x nodenr ma Hk') as [Hex1 Hex2].
    rewrite Hself, Hworld, <- Hunits in Hex1, Hex2.
    assert (Hu : forall w, units = units_upto (self (set_world w ma)) nodenr).
    { intros w. cbn [self set_world]. rewrite Hself. exact Hunits. }
    clear Hunits. unfold bind at 1 3.
    destruct (_execute_seq x nodenr ma) as [[y|e|] m1] eqn:Hex.
    + destruct (Hex2 y m1 eq_refl) as (w1 & -> & Happ).
      change (ret (acc ++ [y])%list (set_world w1 ma))
        with (Ok (acc ++ [y])%list, set_world w1 ma).
      cbv beta iota.
      destruct (IH (acc ++ [y])%list (set_world w1 ma) (Hu w1) Hk') as [IH1 IH2].
      split.
      * intros ys m' H.
        inversion H as [|x' xs' m0 y' w1' ys' m2 Happ' Heach]; subst.
        pose proof (Hex1 y' w1' Happ') as Hrun'.
        injection Hrun' as <- Hm. subst w1'.
        rewrite (IH1 _ _ Heach). rewrite <- app_assoc. reflexivity.
      * intros res m' Hrun.
        destruct (IH2 res m' Hrun) as (ys & -> & Heach).
        exists (y :: ys). rewrite <- app_assoc. split; [reflexivity|].
        econstructor; eassumption.
    + split.
      * intros ys m' H.
        inversion H as [|x' xs' m0 y' w1' ys' m2 Happ' Heach]; subst.
        pose proof (Hex1 y' w1' Happ'). discriminate.
      * intros res m' Hrun. discriminate.
    + split.
      * intros ys m' H.
        inversion H as [|x' xs' m0 y' w1' ys' m2 Happ' Heach]; subst.
        pose proof (Hex1 y' w1' Happ'). discriminate.
      * intros res m' Hrun. discriminate.
Qed.

Lemma collect_run (src : source) (nodenr : option Z) (xs : list data)
      (m : Machine) :
  items_of src m = Some xs ->
  (forall k, nodenr = Some k -> k < len (flow (self m))) ->
  (forall ys m', applies_each (units_upto (self m) nodenr) (advance_of src) xs m ys m' ->
                 collect src (fun x => _execute_seq x nodenr) m = (Ok ys, m')) /\
  (forall res m', collect src (fun x => _execute_seq x nodenr) m = (Ok res, m') ->
                  applies_each (units_upto (self m) nodenr) (advance_of src) xs m res m').
Proof.
  intros Hitems Hk.
  assert (Hloop : exists adv,
             (forall rest m, adv rest m = (Ok tt, advance_of src rest m)) /\
             collect src (fun x => _execute_seq x nodenr) m =
             iterate_items adv xs []
               (fun x res => y <- _execute_seq x nodenr ;; ret (res ++ [y])%list) m).
  { unfold collect, for_in.
    destruct src as [|items|g|g|t]; try discriminate;
      cbn [items_of] in Hitems; injection Hitems as <-.
    - exists (fun _ => ret tt). split; reflexivity.
    - exists (fun rest => modify (set_iterator g rest)). split; reflexivity.
    - exists (fun rest => modify (set_iterator g rest)). split; reflexivity. }
  destruct Hloop as (adv & Hadv & ->).
  destruct (collect_loop src adv nodenr _ xs Hadv [] m eq_refl Hk) as [H1 H2].
  split.
  - intros ys m' H. rewrite (H1 ys m' H). reflexivity.
  - intros res m' H. destruct (H2 res m' H) as (ys & -> & Heach). exact Heach.
Qed.

(** C6. [execute] on a single array applies the transforms of the units
    from index 0 through [nodenr] included, all units when [nodenr] is
    left out, and returns the result; on an iterable of batches it applies
    the same sequence to every batch, in input order, and returns the
    concatenation of the outputs. Both directions: the result is returned
    exactly when every unit involved succeeds. *)
Theorem C6_execute_sequential (m : Machine) (nodenr : option Z) :
  (forall k, nodenr = Some k -> k < len (flow (self m))) ->
  (forall a y w',
      applies (units_upto (self m) nodenr) (Array a) (world m) y w' <->
      execute (ExArray a) nodenr m = (Ok y, set_world w' m)) /\
  (forall src xs ys m',
      items_of src m = Some xs ->
      applies_each (units_upto (self m) nodenr) (advance_of src) xs m ys m' ->
      execute (ExIterable src) nodenr m = (numx_concatenate ys, m')) /\
  (forall src xs z m',
      items_of src m = Some xs ->
      execute (ExIterable src) nodenr m = (Ok z, m') ->
      exists ys,
        applies_each (units_upto (self m) nodenr) (advance_of src) xs m ys m' /\
        numx_concatenate ys = Ok z).
Proof.
  intros Hk. split; [|split].
  - intros a y w'. cbn [execute].
    destruct (execute_seq_applies (Array a) nodenr m Hk) as [H1 H2]. split.
    + apply H1.
    + intros Hrun. destruct (H2 y _ Hrun) as (w'' & Heq & Happ).
      apply set_world_inj in Heq. subst w''. exact Happ.
  - intros src xs ys m' Hitems Heach. cbn [execute].
    destruct (collect_run src nodenr xs m Hitems Hk) as [H1 _].
    unfold bind. rewrite (H1 ys m' Heach). reflexivity.
  - intros src xs z m' Hitems Hrun. cbn [execute] in Hrun.
    destruct (collect_run src nodenr xs m Hitems Hk) as [_ H2].
    unfold bind in Hrun.
    destruct (collect src _ m) as [[res|e|] m1] eqn:Hc; try discriminate.
    unfold lift in Hrun. injection Hrun as Hz <-.
    exists res. split; [apply H2; reflexivity|exact Hz].
Qed.

(** ** Inverse execution *)

Lemma inverse_step (fl : list Node) (i : Z) (node : Node) (x : data)
      (m : Machine) :
  0 <= i -> fl !! Z.to_nat i = Some node ->
  inverse_round fl i x m =
  match node_inverse node x (world m) with
  | (Ok y, w) => (Ok y, set_world w m)
  | (Raise e, w) => _propagate_exception e i (set_world w m)
  | (OutOfFuel, w) => (OutOfFuel, set_world w m)
  end.
Proof.
  intros Hi Hnode. unfold inverse_round, try_except.
  run_lift.
  rewrite (list_getitem_at _ _ _ Hi Hnode).
  rewrite call_run.
  destruct (node_inverse node x (world m)) as [[y|e|] w]; reflexivity.
Qed.

(** A loop of inverse rounds succeeds exactly when each node does. *)
Lemma inverse_loop (fl : list Node) (idxs : list Z) (nodes : list Node) :
  located fl idxs nodes ->
  forall (x : data) (m : Machine),
    (forall y w', inverts nodes x (world m) y w' ->
                  for_fold idxs x (inverse_round fl) m = (Ok y, set_world w' m)) /\
    (forall y m', for_fold idxs x (inverse_round fl) m = (Ok y, m') ->
                  exists w', m' = set_world w' m /\ inverts nodes x (world m) y w').
Proof.
  induction 1 as [|i n idxs nodes [Hi Hn] _ IH]; intros x m.
  - cbn [for_fold]. split.
    + intros y w' H. inversion H; subst. unfold ret. rewrite set_world_id.
      reflexivity.
    + intros y m' [= <- <-]. exists (world m). rewrite set_world_id.
      split; [reflexivity|constructor].
  - cbn [for_fold]. unfold bind. rewrite (inverse_step fl i n x m Hi Hn).
    destruct (node_inverse n x (world m)) as [[y1|e|] w1] eqn:Hinv.
    + destruct (IH y1 (set_world w1 m)) as [IH1 IH2]. split.
      * intros y w' H.
        inversion H as [|n' rest' x' w0 y' w1' z w2' Hn' Hrest]; subst.
        rewrite Hinv in Hn'. injection Hn' as <- <-.
        apply (IH1 y w' Hrest).
      * intros y m' Hrun. destruct (IH2 y m' Hrun) as (w' & -> & Hrest).
        exists w'. split; [reflexivity|].
        econstructor; [exact Hinv|exact Hrest].
    + destruct (@propagate_raises data e i (set_world w1 m)) as (e' & m'' & Hp).
      rewrite Hp. split.
      * intros y w' H. inversion H; subst. congruence.
      * intros y m' Hrun. discriminate.
    + split.
      * intros y w' H. inversion H; subst. congruence.
      * intros y m' Hrun. discriminate.
Qed.

Lemma located_range (fl : list Node) : located fl (range (len fl)) fl.
Proof.
  unfold located, range. apply Forall2_same_length_lookup_2.
  - rewrite length_seqZ. unfold len. lia.
  - intros i z n Hz Hn. apply lookup_seqZ in Hz as [-> _].
    split; [lia|]. rewrite Z.add_0_l, Nat2Z.id. exact Hn.
Qed.

(** [_inverse_seq] returns [y] exactly when the units of the flow, the
    last one first, invert [x] into [y]. *)
Lemma inverse_seq_inverts (x : data) (m : Machine) :
  (forall y w', inverts (reverse (flow (self m))) x (world m) y w' ->
                _inverse_seq x m = (Ok y, set_world w' m)) /\
  (forall y m', _inverse_seq x m = (Ok y, m') ->
                exists w', m' = set_world w' m /\
                           inverts (reverse (flow (self m))) x (world m) y w').
Proof.
  exact (inverse_loop (flow (self m)) _ _
           (Forall2_reverse _ _ _ (located_range (flow (self m)))) x m).
Qed.

(** The first failure of a unit during inverse execution comes out
    wrapped once, under the index of the failing unit. *)
Lemma inverse_loop_fails (fl : list Node) (idxs : list Z) (nodes : list Node)
      (i : Z) (node : Node) (later : list Z) :
  located fl idxs nodes ->
  0 <= i -> fl !! Z.to_nat i = Some node ->
  forall (x y : data) (w1 w2 : World) (e : exn) (m : Machine),
    flow (self m) = fl ->
    inverts nodes x (world m) y w1 ->
    node_inverse node y w1 = (Raise e, w2) ->
    for_fold (idxs ++ i :: later) x (inverse_round fl) m =
    (Raise (wrapping (set_world w2 m) i node e), crashed (set_world w2 m)).
Proof.
  intros Hloc Hi Hnode.
  induction Hloc as [|j n idxs nodes [Hj Hn] _ IH]; intros x y w1 w2 e m Hfl Hinv Hfail.
  - inversion Hinv; subst. cbn [app for_fold]. unfold bind.
    rewrite (inverse_step _ i node _ m Hi Hnode), Hfail.
    rewrite (propagate_run e i node (set_world w2 m)); [reflexivity|].
    cbn [self set_world]. apply list_getitem_at; assumption.
  - inversion Hinv as [|n' rest' x' w0 y1 w1' z w2' Hn' Hrest]; subst.
    cbn [app for_fold]. unfold bind.
    rewrite (inverse_step _ j n x m Hj Hn), Hn'.
    apply (IH y1 y w1 w2 e (set_world w1' m)); [reflexivity|exact Hrest|exact Hfail].
Qed.

Lemma inverse_failure_wrapped (pre : list Node) (node : Node) (post : list Node)
      (x y : data) (w1 w2 : World) (e : exn) (m : Machine) :
  flow (self m) = (pre ++ node :: post)%list ->
  inverts (reverse post) x (world m) y w1 ->
  node_inverse node y w1 = (Raise e, w2) ->
  exists msg,
    _inverse_seq x m =
    (Raise (FlowExceptionCR msg e (dump_name (set_world w2 m))),
     crashed (set_world w2 m)) /\
    contains msg (pretty (len pre)) /\
    contains msg (node_type_name node).
Proof.
  intros Hfl Hinv Hfail.
  assert (Hidx : reverse (range (len (flow (self m)))) =
                 (reverse (seqZ (len pre + 1) (len post)) ++
                  len pre :: reverse (range (len pre)))%list).
  { unfold range. rewrite Hfl.
    replace (len (pre ++ node :: post)) with (len pre + (1 + len post))
      by (unfold len; rewrite length_app; simpl; lia).
    rewrite seqZ_app by (unfold len; lia).
    rewrite (seqZ_cons (0 + len pre)) by (unfold len; lia).
    rewrite reverse_app, reverse_cons, <- app_assoc. cbn [app].
    replace (Z.succ (0 + len pre)) with (len pre + 1) by lia.
    replace (Z.pred (1 + len post)) with (len post) by lia.
    replace (0 + len pre) with (len pre) by lia.
    reflexivity. }
  assert (Hloc : located (flow (self m))
                         (reverse (seqZ (len pre + 1) (len post))) (reverse post)).
  { apply Forall2_reverse. apply Forall2_same_length_lookup_2.
    - rewrite length_seqZ. unfold len. lia.
    - intros i z n Hz Hn. apply lookup_seqZ in Hz as [-> _].
      split; [unfold len; lia|]. rewrite Hfl.
      replace (Z.to_nat (len pre + 1 + Z.of_nat i)) with (length pre + S i)%nat
        by (unfold len; lia).
      rewrite lookup_app_r by lia.
      replace (length pre + S i - length pre)%nat with (S i) by lia.
      exact Hn. }
  assert (Hnode : flow (self m) !! Z.to_nat (len pre) = Some node).
  { rewrite Hfl. unfold len. rewrite Nat2Z.id, lookup_app_r, Nat.sub_diag by lia.
    reflexivity. }
  assert (Hrun : _inverse_seq x m =
                 for_fold (reverse (range (len (flow (self m))))) x
                          (inverse_round (flow (self m))) m) by reflexivity.
  rewrite Hrun, Hidx.
  rewrite (inverse_loop_fails _ _ _ (len pre) node _ Hloc
             ltac:(unfold len; lia) Hnode x y w1 w2 e m eq_refl Hinv Hfail).
  destruct (wrapping_parent (set_world w2 m) (len pre) node e) as [msg Hmsg].
  pose proof (wrapping_message (set_world w2 m) (len pre) node e) as [Hc1 Hc2].
  rewrite Hmsg in Hc1, Hc2 |- *. exists msg.
  split; [reflexivity|]. split; assumption.
Qed.

(** ** Validation of the training arguments *)

Lemma seqZ_len_cons {A} (pre : list A) (x : A) (rest : list A) :
  seqZ (len pre) (len (x :: rest)) =
  len pre :: seqZ (len (pre ++ [x])) (len rest).
Proof.
  rewrite seqZ_cons by (unfold len; simpl; lia).
  f_equal. f_equal; unfold len; rewrite ?length_app; simpl; lia.
Qed.

Lemma list_getitem_middle {A} (pre : list A) (x : A) (rest : list A) :
  list_getitem (pre ++ x :: rest) (len pre) = Ok x.
Proof.
  apply list_getitem_at; [unfold len; lia|].
  unfold len. rewrite Nat2Z.id, lookup_app_r, Nat.sub_diag by lia. reflexivity.
Qed.

(** The loop that looks for an entry that cannot be iterated. *)
Lemma elements_loop (pre its : list source) (m : Machine) :
  for_each (seqZ (len pre) (len its)) (fun i =>
    el <- lift (list_getitem (pre ++ its)%list i) ;;
    if negb (is_None el) && negb (has_iter el)
    then raise (FlowException (err_element i))
    else ret tt) m =
  (match first_not_iterable (len pre) its with
   | Some i => Raise (FlowException (err_element i))
   | None => Ok tt
   end, m).
Proof.
  revert pre. induction its as [|el its IH]; intros pre; [reflexivity|].
  rewrite seqZ_len_cons. cbn [for_each first_not_iterable].
  unfold bind at 1. run_lift.
  rewrite list_getitem_middle.
  destruct (negb (is_None el) && negb (has_iter el)); [reflexivity|].
  unfold ret at 1.
  specialize (IH (pre ++ [el])%list). rewrite <- app_assoc in IH. cbn [app] in IH.
  rewrite IH.
  replace (len (pre ++ [el])) with (len pre + 1)
    by (unfold len; rewrite length_app; simpl; lia).
  reflexivity.
Qed.

(** The loop that looks for a generator facing several phases. *)
Lemma generator_loop (pre1 l1 : list Node) (pre2 l2 : list source) (m : Machine) :
  length pre1 = length pre2 -> length l1 = length l2 ->
  for_each (seqZ (len pre1) (len l1)) (fun i =>
    node <- lift (list_getitem (pre1 ++ l1)%list i) ;;
    iter <- lift (list_getitem (pre2 ++ l2)%list i) ;;
    w <- gets world ;;
    if (1 <? train_seq_len node w) && is_generator iter
    then raise (FlowException (err_generator i))
    else ret tt) m =
  (match first_generator (world m) (len pre1) l1 l2 with
   | Some i => Raise (FlowException (err_generator i))
   | None => Ok tt
   end, m).
Proof.
  revert pre1 pre2 l2.
  induction l1 as [|node l1 IH]; intros pre1 pre2 l2 Hpre Hl;
    destruct l2 as [|it l2]; try discriminate; [reflexivity|].
  rewrite seqZ_len_cons. cbn [for_each first_generator].
  unfold bind at 1. run_lift.
  rewrite list_getitem_middle.
  run_lift.
  replace (len pre1) with (len pre2) at 1 by (unfold len; lia).
  rewrite list_getitem_middle.
  run_gets.
  destruct ((1 <? train_seq_len node (world m)) && is_generator it);
    [reflexivity|].
  unfold ret at 1.
  specialize (IH (pre1 ++ [node])%list (pre2 ++ [it])%list l2).
  rewrite <- !app_assoc in IH. cbn [app] in IH.
  rewrite IH.
  - replace (len (pre1 ++ [node])) with (len pre1 + 1)
      by (unfold len; rewrite length_app; simpl; lia).
    reflexivity.
  - rewrite !length_app. simpl. lia.
  - simpl in Hl. lia.
Qed.

Lemma len_eqb_length {A B} (l1 : list A) (l2 : list B) :
  (len l1 =? len l2) = true -> length l1 = length l2.
Proof. intros H. apply Z.eqb_eq in H. unfold len in H. lia. Qed.

(** Validation reads the machine and leaves it alone. *)
Lemma check_iterators_run (args : iterators_arg ndarray) (m : Machine) :
  _train_check_iterators args m = (validated args m, m).
Proof.
  assert (Hlist : forall its : list source,
    (for_each (range (len its)) (fun i =>
       el <- lift (list_getitem its i) ;;
       if negb (is_None el) && negb (has_iter el)
       then raise (FlowException (err_element i))
       else ret tt) ;;;
     (if negb (len its =? len (flow (self m)))
      then raise (FlowException (err_count (len its) (len (flow (self m)))))
      else ret tt) ;;;
     for_each (range (len (flow (self m)))) (fun i =>
       node <- lift (list_getitem (flow (self m)) i) ;;
       iter <- lift (list_getitem its i) ;;
       w <- gets world ;;
       if (1 <? train_seq_len node w) && is_generator iter
       then raise (FlowException (err_generator i))
       else ret tt) ;;;
     ret its) m =
    (match first_not_iterable 0 its with
     | Some i => Raise (FlowException (err_element i))
     | None =>
         if negb (len its =? len (flow (self m)))
         then Raise (FlowException (err_count (len its) (len (flow (self m)))))
         else match first_generator (world m) 0 (flow (self m)) its with
              | Some i => Raise (FlowException (err_generator i))
              | None => Ok its
              end
     end, m)).
  { intros its. unfold bind at 1.
    pose proof (elements_loop [] its m) as Hel.
    change (len (@nil source)) with 0 in Hel. change ([] ++ its)%list with its in Hel.
    unfold range. rewrite Hel.
    destruct (first_not_iterable 0 its); [reflexivity|].
    unfold bind at 1.
    destruct (len its =? len (flow (self m))) eqn:Hlen; cbn [negb];
      [|reflexivity].
    unfold ret at 1. unfold bind at 1.
    pose proof (generator_loop [] (flow (self m)) [] its m eq_refl) as Hgen.
    change (len (@nil Node)) with 0 in Hgen.
    change ([] ++ its)%list with its in Hgen.
    change ([] ++ flow (self m))%list with (flow (self m)) in Hgen.
    rewrite Hgen by (symmetry; apply len_eqb_length, Hlen).
    destruct (first_generator _ _ _ _); reflexivity. }
  unfold _train_check_iterators, validated, validated_list.
  run_gets.
  destruct args as [a|l|t]; [| |reflexivity].
  - unfold bind at 1, ret at 1. apply Hlist.
  - unfold bind at 1, ret at 1. apply Hlist.
Qed.

Lemma check_checkpoints_run (cks : checkpoints_arg Checkpoint) (m : Machine) :
  _train_check_checkpoints cks m = (validated_checkpoints cks m, m).
Proof.
  unfold _train_check_checkpoints, validated_checkpoints.
  run_gets.
  destruct (negb _); reflexivity.
Qed.

(** Validation either accepts or raises a [FlowException]. *)
Lemma validated_cases (args : iterators_arg ndarray) (m : Machine) :
  (exists its, validated args m = Ok its) \/
  (exists msg, validated args m = Raise (FlowException msg)).
Proof.
  unfold validated, validated_list.
  destruct args as [a|l|t]; cbn [expanded and_then]; [| |right; eauto].
  all: destruct (first_not_iterable 0 _); [right; eauto|].
  all: destruct (negb _); [right; eauto|].
  all: destruct (first_generator _ _ _ _); [right; eauto|left; eauto].
Qed.

(** A generator that faces a node with several phases is found, at that
    index or before. *)
Lemma first_generator_found (w : World) (j : Z) (nodes : list Node)
      (its : list source) (i : nat) (node : Node) (g : nat) :
  nodes !! i = Some node -> its !! i = Some (SrcGenerator g) ->
  1 < train_seq_len node w ->
  exists k, first_generator w j nodes its = Some k /\ j <= k <= j + Z.of_nat i.
Proof.
  revert j nodes its. induction i as [|i IH]; intros j nodes its Hn Hi Hlen;
    destruct nodes as [|n nodes]; destruct its as [|it its]; try discriminate;
    cbn [first_generator].
  - injection Hn as ->. injection Hi as ->.
    rewrite (proj2 (Z.ltb_lt _ _) Hlen). cbn. exists j. split; [reflexivity|lia].
  - destruct ((1 <? train_seq_len n w) && is_generator it).
    + exists j. split; [reflexivity|lia].
    + destruct (IH (j + 1) nodes its Hn Hi Hlen) as (k & Hk & Hrange).
      exists k. split; [exact Hk|lia].
Qed.

(** A generator never passes validation when its node has several
    phases. *)
Lemma generator_not_validated (its : list source) (m : Machine) (i : nat)
      (node : Node) (g : nat) :
  flow (self m) !! i = Some node ->
  its !! i = Some (SrcGenerator g) ->
  1 < train_seq_len node (world m) ->
  (exists msg, validated (ItList its) m = Raise (FlowException msg)) /\
  (first_not_iterable 0 its = None ->
   len its = len (flow (self m)) ->
   exists k, 0 <= k <= Z.of_nat i /\
             first_generator (world m) 0 (flow (self m)) its = Some k /\
             validated (ItList its) m = Raise (FlowException (err_generator k))).
Proof.
  intros Hn Hi Hlen.
  destruct (first_generator_found (world m) 0 _ _ i node g Hn Hi Hlen)
    as (k & Hk & Hrange).
  split.
  - destruct (validated_cases (ItList its) m) as [[its' Hok]|Hraise];
      [|exact Hraise].
    exfalso. unfold validated, validated_list in Hok.
    cbn [expanded and_then] in Hok.
    destruct (first_not_iterable 0 its); [discriminate|].
    destruct (negb _); [discriminate|].
    rewrite Hk in Hok. discriminate.
  - intros Hel Hcount. exists k. split; [lia|]. split; [exact Hk|].
    unfold validated, validated_list. cbn [expanded and_then].
    rewrite Hel, Hcount, Z.eqb_refl. cbn [negb].
    rewrite Hk. reflexivity.
Qed.

Lemma train_rejected (fuel : nat) (args : iterators_arg ndarray) (m : Machine)
      (msg : string) :
  validated args m = Raise (FlowException msg) ->
  train fuel args m = (Raise (FlowException msg), m) /\
  forall cks, CheckpointFlow_train fuel args cks m = (Raise (FlowException msg), m).
Proof.
  intros H. unfold train, CheckpointFlow_train. split; [|intros cks].
  all: unfold bind at 1; rewrite check_iterators_run, H; reflexivity.
Qed.

(** C3 (amended). If some unit has more than one training phase and its
    data source is a generator, validation rejects the call: [train] and
    [CheckpointFlow.train] raise a [FlowException] and the machine is
    untouched, so no sample was consumed and nothing was trained. When the
    list of sources passes the earlier checks (every entry [None] or
    iterable, one entry per unit) the error is the one about generators
    and names the first such unit. Single-pass sources of other types are
    not looked for. *)
Theorem C3_generator_rejected (fuel : nat) (its : list source) (m : Machine)
        (i : nat) (node : Node) (g : nat) :
  flow (self m) !! i = Some node ->
  its !! i = Some (SrcGenerator g) ->
  1 < train_seq_len node (world m) ->
  (exists msg,
      train fuel (ItList its) m = (Raise (FlowException msg), m) /\
      forall cks,
        CheckpointFlow_train fuel (ItList its) cks m =
        (Raise (FlowException msg), m)) /\
  (first_not_iterable 0 its = None ->
   len its = len (flow (self m)) ->
   exists k, 0 <= k <= Z.of_nat i /\
             first_generator (world m) 0 (flow (self m)) its = Some k /\
             train fuel (ItList its) m =
             (Raise (FlowException (err_generator k)), m)).
Proof.
  intros Hn Hi Hlen.
  destruct (generator_not_validated its m i node g Hn Hi Hlen) as [[msg Hmsg] Hfirst].
  split.
  - exists msg. apply train_rejected, Hmsg.
  - intros Hel Hcount. destruct (Hfirst Hel Hcount) as (k & Hk & Hgen & Hval).
    exists k. split; [exact Hk|]. split; [exact Hgen|].
    apply (train_rejected fuel _ m _ Hval).
Qed.

(** ** Training one node *)

Lemma list_getitem_last {A} (l : list A) (x : A) :
  last l = Some x -> list_getitem l (-1) = Ok x.
Proof.
  intros Hlast. rewrite last_lookup in Hlast.
  assert (Hlen : (0 < length l)%nat).
  { destruct l; [discriminate|simpl; lia]. }
  unfold list_getitem. change (-1 <? 0) with true. cbv iota.
  assert (Hneg : (-1 + len l <? 0) = false) by (apply Z.ltb_ge; unfold len; lia).
  assert (Hle : (len l <=? -1 + len l) = false) by (apply Z.leb_gt; lia).
  rewrite Hneg, Hle. cbn [orb].
  replace (Z.to_nat (-1 + len l)) with (pred (length l)) by (unfold len; lia).
  rewrite Hlast. reflexivity.
Qed.

(** What [_train_node] does when the iterator is [None]. *)
Lemma train_node_none (fuel : nat) (i : Z) (node : Node) (m : Machine) :
  list_getitem (flow (self m)) i = Ok node ->
  _train_node (S fuel) SrcNone i m =
  if is_training node (world m)
  then (Raise (FlowException (err_none_iterator i)), m)
  else if is_trainable node (world m)
       then (Raise (wrapping m i node
                      (TypeError "'NoneType' object is not iterable")),
             crashed m)
       else (Ok tt, m).
Proof.
  intros Hnode. unfold _train_node.
  run_gets.
  run_lift. rewrite Hnode.
  unfold bind at 1, gets at 1. cbn [fst snd is_None negb andb].
  destruct (is_training node (world m)); [reflexivity|].
  destruct (is_trainable node (world m)); [|reflexivity].
  cbn [negb]. unfold try_except. cbn [train_phases].
  unfold bind at 1. unfold train_pass. cbn [for_in]. unfold raise at 1.
  cbn [is_training_finished].
  apply propagate_run, Hnode.
Qed.

(** C4. For a unit whose data source is [None]: a unit that is
    training makes the call fail with the [FlowException] about the
    [None] iterator, and a unit that is neither training nor trainable is
    skipped without a warning. A trainable unit that is no longer
    training is not skipped: iterating [None] fails inside the training
    block, and the failure comes out as a crash recovery error. *)
Theorem C4_none_source (fuel : nat) (i : Z) (node : Node) (m : Machine) :
  list_getitem (flow (self m)) i = Ok node ->
  (is_training node (world m) = true ->
   _train_node (S fuel) SrcNone i m =
   (Raise (FlowException (err_none_iterator i)), m)) /\
  (is_training node (world m) = false ->
   is_trainable node (world m) = false ->
   _train_node (S fuel) SrcNone i m = (Ok tt, m)) /\
  (is_training node (world m) = false ->
   is_trainable node (world m) = true ->
   exists msg,
     _train_node (S fuel) SrcNone i m =
     (Raise (FlowExceptionCR msg (TypeError "'NoneType' object is not iterable")
                             (dump_name m)),
      crashed m)).
Proof.
  intros Hnode. rewrite (train_node_none fuel i node m Hnode).
  split; [|split].
  - intros ->. reflexivity.
  - intros -> ->. reflexivity.
  - intros -> ->.
    destruct (wrapping_parent m i node
                (TypeError "'NoneType' object is not iterable")) as [msg ->].
    exists msg. reflexivity.
Qed.

(** ** Closing the last node *)

Lemma close_last_run (node : Node) (m : Machine) :
  last (flow (self m)) = Some node ->
  _close_last_node m =
  match node_stop_training node (world m) with
  | (Ok _, w) => (Ok tt, set_world w (announced m))
  | (Raise e, w) =>
      if is_training_finished e then (Ok tt, set_world w (announced m))
      else (Raise (wrapping (set_world w (announced m))
                            (len (flow (self m)) - 1) node e),
            crashed (set_world w (announced m)))
  | (OutOfFuel, w) => (OutOfFuel, set_world w (announced m))
  end.
Proof.
  intros Hlast.
  pose proof (list_getitem_last _ _ Hlast) as Hget.
  assert (Hidx : list_getitem (flow (self m)) (len (flow (self m)) - 1) = Ok node).
  { rewrite last_lookup in Hlast.
    apply list_getitem_at.
    - destruct (flow (self m)); [discriminate|unfold len; simpl; lia].
    - replace (Z.to_nat (len (flow (self m)) - 1))
        with (pred (length (flow (self m)))) by (unfold len; lia).
      exact Hlast. }
  assert (Hself : self (announced m) = self m).
  { unfold announced. destruct (truthy _); reflexivity. }
  assert (Hworld : world (announced m) = world m).
  { unfold announced. destruct (truthy _); reflexivity. }
  assert (Hprint : when (truthy (verbose (self m)))
                        (print "Close the training phase of the last node") m
                   = (Ok tt, announced m)).
  { unfold when, announced. destruct (truthy _); reflexivity. }
  unfold _close_last_node.
  run_gets.
  unfold bind at 1. rewrite Hprint.
  unfold try_except.
  run_gets.
  run_lift. rewrite Hself, Hget.
  rewrite call_run, Hworld.
  destruct (node_stop_training node (world m)) as [[[]|e|] w];
    cbn [fst snd]; try reflexivity.
  destruct (is_training_finished e); [reflexivity|].
  unfold bind at 1, gets at 1. cbn [fst snd self set_world].
  rewrite Hself. apply propagate_run.
  cbn [self set_world]. rewrite Hself. exact Hidx.
Qed.

(** C8. Once validation has passed and every unit has been processed,
    [train] calls [stop_training] on the last unit of the flow. If the
    unit answers that its training is already finished, the call returns
    normally and no warning is added; any other failure comes out as the
    crash recovery error for the index of the last unit. *)
Theorem C8_last_unit_closed (fuel : nat) (args : iterators_arg ndarray)
        (its : list source) (m m2 : Machine) (node : Node) :
  validated args m = Ok its ->
  train_units fuel its m = (Ok tt, m2) ->
  last (flow (self m2)) = Some node ->
  (forall w, node_stop_training node (world m2) = (Ok tt, w) ->
             train fuel args m = (Ok tt, set_world w (announced m2))) /\
  (forall e w, node_stop_training node (world m2) = (Raise e, w) ->
               is_training_finished e = true ->
               train fuel args m = (Ok tt, set_world w (announced m2)) /\
               warnings (set_world w (announced m2)) = warnings m2) /\
  (forall e w, node_stop_training node (world m2) = (Raise e, w) ->
               is_training_finished e = false ->
               exists msg,
                 train fuel args m =
                 (Raise (FlowExceptionCR msg e
                           (dump_name (set_world w (announced m2)))),
                  crashed (set_world w (announced m2))) /\
                 contains msg (pretty (len (flow (self m2)) - 1)) /\
                 contains msg (node_type_name node)).
Proof.
  intros Hval Hunits Hlast.
  assert (Hrun : train fuel args m = _close_last_node m2).
  { unfold train. unfold bind at 1. rewrite check_iterators_run, Hval.
    unfold bind at 1. rewrite Hunits. reflexivity. }
  rewrite Hrun, (close_last_run node m2 Hlast).
  split; [|split].
  - intros w ->. reflexivity.
  - intros e w -> ->. split; [reflexivity|].
    unfold announced. destruct (truthy _); reflexivity.
  - intros e w -> ->.
    destruct (wrapping_parent (set_world w (announced m2))
                (len (flow (self m2)) - 1) node e) as [msg Hmsg].
    pose proof (wrapping_message (set_world w (announced m2))
                  (len (flow (self m2)) - 1) node e) as [Hc1 Hc2].
    rewrite Hmsg in Hc1, Hc2 |- *. exists msg.
    split; [reflexivity|]. split; assumption.
Qed.

(** ** Failures of the nodes *)

Lemma not_own_parent (e : exn) (msg : string) (f : option string) :
  FlowExceptionCR msg e f <> e.
Proof.
  revert msg f. induction e as [?|?|?|?|?|? ?|msg0 p IH f0]; intros msg1 f1;
    try discriminate.
  intros [= -> Hp ->]. exact (IH _ _ Hp).
Qed.

Lemma self_crashed (m : Machine) : self (crashed m) = self m.
Proof.
  unfold crashed. destruct (truthy _); [|reflexivity].
  destruct (_crash_recovery (self m)); reflexivity.
Qed.

(** The first failure of a unit during execution, after the units before
    it have succeeded, comes out wrapped once, under the index of the
    failing unit. *)
Lemma execute_from_fails (pre units : list Node) (node : Node) (post : list Node)
      (n : Z) (x y : data) (w1 w2 : World) (e : exn) (m : Machine) :
  flow (self m) = (pre ++ units ++ node :: post)%list ->
  applies units x (world m) y w1 ->
  node_execute node y w1 = (Raise e, w2) ->
  len units < n ->
  execute_from (flow (self m)) (len pre) n x m =
  (Raise (wrapping (set_world w2 m) (len (pre ++ units)) node e),
   crashed (set_world w2 m)).
Proof.
  revert pre n x m. induction units as [|u units IH]; intros pre n x m Hfl Happ Hex Hn.
  - inversion Happ; subst. cbn [app] in Hfl. rewrite app_nil_r.
    unfold execute_from. rewrite seqZ_cons by (unfold len in Hn; simpl in Hn; lia).
    cbn [for_fold]. unfold bind at 1.
    assert (Hnode : flow (self m) !! Z.to_nat (len pre) = Some node).
    { rewrite Hfl. unfold len. rewrite Nat2Z.id, lookup_app_r, Nat.sub_diag by lia.
      reflexivity. }
    assert (Hpos : 0 <= len pre) by (unfold len; lia).
    rewrite (execute_step _ _ node _ m Hpos Hnode), Hex.
    rewrite (propagate_run e (len pre) node (set_world w2 m)).
    + reflexivity.
    + cbn [self set_world]. apply list_getitem_at; assumption.
  - inversion Happ as [|u' units' x' w' y1 w1' z w2' Hu Hrest]; subst.
    unfold execute_from. rewrite seqZ_cons by (unfold len in *; simpl in *; lia).
    cbn [for_fold]. unfold bind at 1.
    assert (Hnode : flow (self m) !! Z.to_nat (len pre) = Some u).
    { rewrite Hfl. unfold len. rewrite Nat2Z.id, lookup_app_r, Nat.sub_diag by lia.
      reflexivity. }
    assert (Hpos : 0 <= len pre) by (unfold len; lia).
    rewrite (execute_step _ _ u x m Hpos Hnode), Hu.
    specialize (IH (pre ++ [u])%list (Z.pred n) y1 (set_world w1' m)).
    unfold execute_from in IH. cbn [self set_world world] in IH.
    replace (Z.succ (len pre)) with (len (pre ++ [u]))
      by (unfold len; rewrite length_app; simpl; lia).
    rewrite IH.
    + rewrite <- app_assoc. reflexivity.
    + rewrite Hfl, <- app_assoc. reflexivity.
    + exact Hrest.
    + exact Hex.
    + unfold len in *. simpl in Hn. lia.
Qed.

(** A failure of unit [j] in [execute] is wrapped once: the error names
    [j] and the type of the unit, its parent is the failure, and with
    crash recovery armed the snapshot is on the file it names. *)
Lemma execute_failure_wrapped (j : nat) (node : Node) (k : Z) (x y : data)
      (w1 w2 : World) (e : exn) (m : Machine) :
  flow (self m) !! j = Some node ->
  applies (take j (flow (self m))) x (world m) y w1 ->
  node_execute node y w1 = (Raise e, w2) ->
  Z.of_nat j <= k ->
  exists msg,
    _execute_seq x (Some k) m =
    (Raise (FlowExceptionCR msg e (dump_name (set_world w2 m))),
     crashed (set_world w2 m)) /\
    contains msg (pretty (Z.of_nat j)) /\
    contains msg (node_type_name node) /\
    (forall name, dump_name (set_world w2 m) = Some name ->
                  files (crashed (set_world w2 m)) !! name =
                  Some (mkSnapshot (self m) w2)).
Proof.
  intros Hnode Happ Hex Hk.
  pose proof (take_drop_middle _ _ _ Hnode) as Hfl.
  pose proof (lookup_lt_Some _ _ _ Hnode) as Hlt.
  assert (Hrun : _execute_seq x (Some k) m =
                 execute_from (flow (self m)) (len (@nil Node)) (k + 1) x m).
  { reflexivity. }
  rewrite Hrun.
  rewrite (execute_from_fails [] (take j (flow (self m))) node
             (drop (S j) (flow (self m))) (k + 1) x y w1 w2 e m).
  - cbn [app].
    replace (len (take j (flow (self m)))) with (Z.of_nat j)
      by (unfold len; rewrite length_take; lia).
    destruct (wrapping_parent (set_world w2 m) (Z.of_nat j) node e) as [msg Hmsg].
    pose proof (wrapping_message (set_world w2 m) (Z.of_nat j) node e) as [Hc1 Hc2].
    rewrite Hmsg in Hc1, Hc2 |- *. exists msg.
    split; [reflexivity|]. split; [exact Hc1|]. split; [exact Hc2|].
    intros name Hname. exact (crashed_dump _ _ Hname).
  - symmetry. exact Hfl.
  - exact Happ.
  - exact Hex.
  - unfold len. rewrite length_take. lia.
Qed.

(** A failure of the unit being trained, at the first item of its
    source, is wrapped once as well. *)
Lemma train_failure_wrapped (fuel : nat) (i : nat) (node : Node)
      (item sample : data) (extra rest : list data) (y : data)
      (w1 w2 : World) (e : exn) (m : Machine) :
  flow (self m) !! i = Some node ->
  is_trainable node (world m) = true ->
  split_item item = Ok (sample, extra) ->
  applies (take i (flow (self m))) sample (world m) y w1 ->
  node_train node y extra w1 = (Raise e, w2) ->
  is_training_finished e = false ->
  exists msg,
    _train_node (S fuel) (SrcList (item :: rest)) (Z.of_nat i) m =
    (Raise (FlowExceptionCR msg e (dump_name (set_world w2 m))),
     crashed (set_world w2 m)) /\
    contains msg (pretty (Z.of_nat i)) /\
    contains msg (node_type_name node).
Proof.
  intros Hnode Htrainable Hsplit Happ Htrain Hfin.
  pose proof (ContainerFacts.list_getitem_lookup _ _ _ Hnode) as Hget.
  pose proof (lookup_lt_Some _ _ _ Hnode) as Hlt.
  assert (Hfilter :
    (if 0 <? Z.of_nat i then _execute_seq sample (Some (Z.of_nat i - 1))
     else ret sample) m = (Ok y, set_world w1 m)).
  { destruct (Z.ltb_spec 0 (Z.of_nat i)) as [Hpos|Hzero].
    - assert (Hk : forall k, Some (Z.of_nat i - 1) = Some k ->
                             k < len (flow (self m))).
      { intros k [= <-]. unfold len. lia. }
      destruct (execute_seq_applies sample (Some (Z.of_nat i - 1)) m Hk) as [H1 _].
      apply H1. unfold units_upto.
      replace (Z.to_nat (Z.of_nat i - 1 + 1)) with i by lia. exact Happ.
    - assert (i = 0%nat) by lia. subst i. cbn [take] in Happ.
      inversion Happ; subst. unfold ret. rewrite set_world_id. reflexivity. }
  unfold _train_node.
  run_gets.
  run_lift. rewrite Hget.
  unfold bind at 1, gets at 1. cbn [fst snd is_None negb andb].
  rewrite Htrainable. cbn [negb andb].
  unfold try_except. cbn [train_phases].
  unfold bind at 1. unfold train_pass at 1. cbn [for_in iterate_items].
  unfold bind at 1, ret at 1. unfold bind at 1.
  run_lift. rewrite Hsplit. cbn [fst snd].
  unfold bind at 1. rewrite Hfilter.
  rewrite call_run. cbn [world set_world]. rewrite Htrain. cbn [fst snd].
  rewrite Hfin.
  rewrite (propagate_run e (Z.of_nat i) node).
  2:{ cbn [self set_world]. exact Hget. }
  destruct (wrapping_parent (set_world w2 (set_world w1 m)) (Z.of_nat i) node e)
    as [msg Hmsg].
  pose proof (wrapping_message (set_world w2 (set_world w1 m)) (Z.of_nat i) node e)
    as [Hc1 Hc2].
  rewrite Hmsg in Hc1, Hc2 |- *. exists msg.
  split; [reflexivity|]. split; assumption.
Qed.

(** C5. A failure of an upstream unit while a later unit is being
    trained is wrapped twice: [_execute_seq] wraps the failure under the
    index of the failing unit, and the training block of [_train_node]
    wraps that error again under the index of the unit in training. The
    error that reaches the caller has the inner wrapper as its parent, not
    the original failure, and with crash recovery armed two dumps are
    written. *)
Theorem C5_upstream_failure_wrapped_twice
        (fuel : nat) (i : nat) (node first : Node) (a : ndarray)
        (rest : list data) (w1 : World) (e : exn) (m : Machine) :
  (0 < i)%nat ->
  flow (self m) !! i = Some node ->
  flow (self m) !! 0%nat = Some first ->
  is_trainable node (world m) = true ->
  node_execute first (Array a) (world m) = (Raise e, w1) ->
  exists msg inner_msg,
    let inner := FlowExceptionCR inner_msg e (dump_name (set_world w1 m)) in
    _train_node (S fuel) (SrcList (Array a :: rest)) (Z.of_nat i) m =
    (Raise (FlowExceptionCR msg inner
              (dump_name (crashed (set_world w1 m)))),
     crashed (crashed (set_world w1 m))) /\
    inner <> e /\
    contains inner_msg (pretty 0) /\
    contains inner_msg (node_type_name first) /\
    contains msg (pretty (Z.of_nat i)) /\
    contains msg (node_type_name node).
Proof.
  intros Hi Hnode Hfirst Htrainable Hex.
  pose proof (ContainerFacts.list_getitem_lookup _ _ _ Hnode) as Hget.
  destruct (execute_failure_wrapped 0 first (Z.of_nat i - 1) (Array a) (Array a)
              (world m) w1 e m Hfirst) as (inner_msg & Hrun & Hc1 & Hc2 & _).
  { cbn [take]. constructor. }
  { exact Hex. }
  { lia. }
  set (inner := FlowExceptionCR inner_msg e (dump_name (set_world w1 m))) in *.
  set (m1 := crashed (set_world w1 m)) in *.
  assert (Hget1 : list_getitem (flow (self m1)) (Z.of_nat i) = Ok node).
  { subst m1. rewrite self_crashed. exact Hget. }
  destruct (wrapping_parent m1 (Z.of_nat i) node inner) as [msg Hmsg].
  pose proof (wrapping_message m1 (Z.of_nat i) node inner) as [Hd1 Hd2].
  rewrite Hmsg in Hd1, Hd2. cbn [exn_message] in Hd1, Hd2.
  exists msg, inner_msg. cbv zeta. fold inner.
  split; [|split; [apply not_own_parent|repeat split; assumption]].
  unfold _train_node.
  run_gets.
  run_lift. rewrite Hget.
  unfold bind at 1, gets at 1. cbn [fst snd is_None negb andb].
  rewrite Htrainable. cbn [negb andb].
  unfold try_except. cbn [train_phases].
  unfold bind at 1. unfold train_pass at 1. cbn [for_in iterate_items].
  unfold bind at 1, ret at 1. unfold bind at 1.
  run_lift. cbn [split_item fst snd].
  unfold bind at 1.
  rewrite (proj2 (Z.ltb_lt 0 (Z.of_nat i))) by lia.
  rewrite Hrun. cbn [is_training_finished inner].
  rewrite (propagate_run inner (Z.of_nat i) node m1 Hget1), Hmsg.
  reflexivity.
Qed.

(** ** What the operations preserve *)

Create HintDb preserve.

Lemma preserves_ret {A X} (f : Machine -> X) (a : A) : preserves f (ret a).
Proof. intros m. reflexivity. Qed.

Lemma preserves_raise {A X} (f : Machine -> X) (e : exn) :
  preserves f (@raise Machine A e).
Proof. intros m. reflexivity. Qed.

Lemma preserves_lift {A X} (f : Machine -> X) (r : result A) :
  preserves f (lift r).
Proof. intros m. reflexivity. Qed.

Lemma preserves_gets {A X} (f : Machine -> X) (g : Machine -> A) :
  preserves f (gets g).
Proof. intros m. reflexivity. Qed.

Lemma preserves_get {X} (f : Machine -> X) : preserves f get.
Proof. intros m. reflexivity. Qed.

Lemma preserves_out_of_fuel {A X} (f : Machine -> X) :
  preserves f (@out_of_fuel Machine A).
Proof. intros m. reflexivity. Qed.

Lemma preserves_bind {A B X} (f : Machine -> X) (a : Op A) (k : A -> Op B) :
  preserves f a -> (forall x, preserves f (k x)) -> preserves f (bind a k).
Proof.
  intros Ha Hk m. unfold bind. specialize (Ha m).
  destruct (a m) as [[x|e|] m1]; cbn [snd] in *; try exact Ha.
  rewrite (Hk x m1). exact Ha.
Qed.

Lemma preserves_try {A X} (f : Machine -> X) (body : Op A) (h : exn -> Op A) :
  preserves f body -> (forall e, preserves f (h e)) ->
  preserves f (try_except body h).
Proof.
  intros Hb Hh m. unfold try_except. specialize (Hb m).
  destruct (body m) as [[x|e|] m1]; cbn [snd] in *; try exact Hb.
  rewrite (Hh e m1). exact Hb.
Qed.

Lemma preserves_if {A X} (f : Machine -> X) (b : bool) (a c : Op A) :
  preserves f a -> preserves f c -> preserves f (if b then a else c).
Proof. destruct b; auto. Qed.

Lemma preserves_when {X} (f : Machine -> X) (b : bool) (a : Op unit) :
  preserves f a -> preserves f (when b a).
Proof. intros Ha. unfold when. destruct b; [exact Ha|apply preserves_ret]. Qed.

Lemma preserves_for_each {A X} (f : Machine -> X) (xs : list A)
      (body : A -> Op unit) :
  (forall x, preserves f (body x)) -> preserves f (for_each xs body).
Proof.
  intros Hb. induction xs as [|x xs IH]; cbn [for_each].
  - apply preserves_ret.
  - apply preserves_bind; [apply Hb|intros _; exact IH].
Qed.

Lemma preserves_for_fold {A B X} (f : Machine -> X) (xs : list A)
      (body : A -> B -> Op B) (acc : B) :
  (forall x acc, preserves f (body x acc)) -> preserves f (for_fold xs acc body).
Proof.
  intros Hb. revert acc. induction xs as [|x xs IH]; intros acc; cbn [for_fold].
  - apply preserves_ret.
  - apply preserves_bind; [apply Hb|intros acc'; apply IH].
Qed.

Lemma preserves_iterate {B X} (f : Machine -> X) (adv : list data -> Op unit)
      (xs : list data) (acc : B) (body : data -> B -> Op B) :
  (forall rest, preserves f (adv rest)) ->
  (forall x acc, preserves f (body x acc)) ->
  preserves f (iterate_items adv xs acc body).
Proof.
  intros Ha Hb. revert acc. induction xs as [|x xs IH]; intros acc;
    cbn [iterate_items].
  - apply preserves_ret.
  - apply preserves_bind; [apply Ha|intros _].
    apply preserves_bind; [apply Hb|intros acc'; apply IH].
Qed.

Lemma preserves_modify {X} (f : Machine -> X) (g : Machine -> Machine) :
  (forall m, f (g m) = f m) -> preserves f (modify g).
Proof. intros Hg m. apply Hg. Qed.

Lemma preserves_call {A X} (f : Machine -> X) (g : World -> result A * World) :
  framed f -> preserves f (call g).
Proof. intros [Hw _] m. rewrite call_run. apply Hw. Qed.

Lemma preserves_print {X} (f : Machine -> X) (line : string) :
  framed f -> preserves f (print line).
Proof. intros (_ & _ & _ & Hl) m. apply Hl. Qed.

Lemma preserves_warn {X} (f : Machine -> X) (category msg : string) :
  unwarned f -> preserves f (warn category msg).
Proof. intros Hw m. apply Hw. Qed.

#[local] Hint Resolve preserves_ret preserves_raise preserves_lift
  preserves_gets preserves_get preserves_out_of_fuel preserves_bind
  preserves_try preserves_if preserves_when preserves_for_each
  preserves_for_fold preserves_iterate preserves_modify preserves_call
  preserves_print preserves_warn : preserve.

Lemma preserves_for_in {B X} (f : Machine -> X) (src : source) (acc : B)
      (body : data -> B -> Op B) :
  framed f -> (forall x acc, preserves f (body x acc)) ->
  preserves f (for_in src acc body).
Proof.
  intros Hf Hb. destruct Hf as (Hw & Hi & Hfl & Hl).
  destruct src; cbn [for_in]; try apply preserves_raise.
  - apply preserves_iterate; [intros; apply preserves_ret|exact Hb].
  - apply preserves_bind; [apply preserves_get|intros m0].
    apply preserves_iterate; [|exact Hb].
    intros rest. apply preserves_modify. intros m. apply Hi.
  - apply preserves_bind; [apply preserves_get|intros m0].
    apply preserves_iterate; [|exact Hb].
    intros rest. apply preserves_modify. intros m. apply Hi.
Qed.

Lemma preserves_propagate {A X} (f : Machine -> X) (e : exn) (i : Z) :
  framed f -> preserves f (@_propagate_exception _ _ _ _ _ A e i).
Proof.
  intros Hf. pose proof Hf as (Hw & Hi & Hfl & Hl).
  unfold _propagate_exception.
  apply preserves_bind; [apply preserves_gets|intros s].
  apply preserves_bind; [apply preserves_lift|intros node].
  apply preserves_bind; [|intros e'; apply preserves_raise].
  intros m. rewrite exception_init_run. cbn [snd]. unfold crashed.
  destruct (truthy _); [|reflexivity].
  destruct (_crash_recovery (self m)); apply Hfl.
Qed.

#[local] Hint Resolve preserves_for_in preserves_propagate : preserve.

Lemma preserves_execute_seq {X} (f : Machine -> X) (x : data)
      (nodenr : option Z) :
  framed f -> preserves f (_execute_seq x nodenr).
Proof.
  intros Hf. unfold _execute_seq. eauto 12 with preserve.
Qed.

#[local] Hint Resolve preserves_execute_seq : preserve.

Lemma preserves_train_pass {X} (f : Machine -> X) (node : Node) (src : source)
      (i : Z) :
  framed f -> preserves f (train_pass node src i).
Proof.
  intros Hf. unfold train_pass. eauto 12 with preserve.
Qed.

#[local] Hint Resolve preserves_train_pass : preserve.

Lemma preserves_train_phases {X} (f : Machine -> X) (fuel : nat) (node : Node)
      (src : source) (i : Z) :
  framed f -> preserves f (train_phases fuel node src i).
Proof.
  intros Hf. induction fuel as [|fuel IH]; cbn [train_phases];
    eauto 12 with preserve.
Qed.

#[local] Hint Resolve preserves_train_phases : preserve.

Lemma preserves_train_node {X} (f : Machine -> X) (fuel : nat) (src : source)
      (i : Z) :
  framed f -> unwarned f -> preserves f (_train_node fuel src i).
Proof.
  intros Hf Hw. unfold _train_node. eauto 15 with preserve.
Qed.

Lemma preserves_close_last {X} (f : Machine -> X) :
  framed f -> preserves f _close_last_node.
Proof.
  intros Hf. unfold _close_last_node. eauto 15 with preserve.
Qed.

Lemma framed_self : framed (@self Node World ndarray).
Proof. repeat split. Qed.

Lemma unwarned_self : unwarned (@self Node World ndarray).
Proof. intros c msg m. reflexivity. Qed.

Lemma framed_warnings : framed (@warnings Node World ndarray).
Proof. repeat split. Qed.

(** ** The training loop *)

(** The filter of the training loop is the execution of the units before
    the one in training. *)
Lemma filtered_applies (i : nat) (x : data) (m : Machine) :
  (i <= length (flow (self m)))%nat ->
  (forall y w1, applies (take i (flow (self m))) x (world m) y w1 ->
                filtered (Z.of_nat i) x m = (Ok y, set_world w1 m)) /\
  (forall y m1, filtered (Z.of_nat i) x m = (Ok y, m1) ->
                exists w1, m1 = set_world w1 m /\
                           applies (take i (flow (self m))) x (world m) y w1).
Proof.
  intros Hi. unfold filtered.
  destruct (Z.ltb_spec 0 (Z.of_nat i)) as [Hpos|Hzero].
  - assert (Hk : forall k, Some (Z.of_nat i - 1) = Some k ->
                           k < len (flow (self m))).
    { intros k [= <-]. unfold len. lia. }
    pose proof (execute_seq_applies x (Some (Z.of_nat i - 1)) m Hk) as H.
    unfold units_upto in H.
    replace (Z.to_nat (Z.of_nat i - 1 + 1)) with i in H by lia. exact H.
  - assert (i = 0%nat) by lia. subst i. cbn [take]. split.
    + intros y w1 H. inversion H; subst. unfold ret. rewrite set_world_id.
      reflexivity.
    + intros y m1 [= <- <-]. exists (world m). rewrite set_world_id.
      split; [reflexivity|constructor].
Qed.

(** One round of the training loop. *)
Lemma train_item_run (node : Node) (i : nat) (item : data) (m : Machine) :
  (i <= length (flow (self m)))%nat ->
  (forall sample extra y w1 w2,
      split_item item = Ok (sample, extra) ->
      applies (take i (flow (self m))) sample (world m) y w1 ->
      node_train node y extra w1 = (Ok tt, w2) ->
      train_item node (Z.of_nat i) item tt m = (Ok tt, set_world w2 m)) /\
  (forall m',
      train_item node (Z.of_nat i) item tt m = (Ok tt, m') ->
      exists sample extra y w1 w2,
        split_item item = Ok (sample, extra) /\
        applies (take i (flow (self m))) sample (world m) y w1 /\
        node_train node y extra w1 = (Ok tt, w2) /\
        m' = set_world w2 m).
Proof.
  intros Hi. unfold train_item. split.
  - intros sample extra y w1 w2 Hsplit Happ Htrain.
    run_lift. rewrite Hsplit. cbn [fst snd].
    destruct (filtered_applies i sample m Hi) as [Hf _].
    unfold filtered in Hf. unfold bind at 1. rewrite (Hf y w1 Happ).
    rewrite call_run. cbn [world set_world]. rewrite Htrain. reflexivity.
  - intros m' Hrun.
    unfold bind at 1, lift at 1 in Hrun.
    destruct (split_item item) as [[sample extra]|e|] eqn:Hsplit;
      try discriminate.
    cbn [fst snd] in Hrun. unfold bind at 1 in Hrun.
    destruct (filtered_applies i sample m Hi) as [_ Hf].
    unfold filtered in Hf.
    destruct ((if 0 <? Z.of_nat i
               then _execute_seq sample (Some (Z.of_nat i - 1))
               else ret sample) m) as [[y|e|] m1] eqn:Hfilter;
      try discriminate.
    destruct (Hf y m1 eq_refl) as (w1 & -> & Happ).
    rewrite call_run in Hrun. cbn [world set_world] in Hrun.
    destruct (node_train node y extra w1) as [[[]|e|] w2] eqn:Htrain;
      try discriminate.
    injection Hrun as <-.
    exists sample, extra, y, w1, w2. repeat split; assumption.
Qed.

(** The split of the training loop gives what the item presents: the
    first element and the rest of a list or tuple, the item itself
    otherwise. *)
Lemma split_item_presents (item sample : data) (extra : list data) :
  split_item item = Ok (sample, extra) <-> presents item sample extra.
Proof.
  split.
  - destruct item as [a|[|x0 arg]|[|x0 arg]]; cbn [split_item];
      intros H; try discriminate; injection H as <- <-; constructor.
  - intros H. destruct H; reflexivity.
Qed.

(** One traversal of the source is a [pass]. *)
Lemma pass_loop (node : Node) (i : nat) (src : source)
      (adv : list data -> Op unit) (items : list data) :
  (forall rest m, adv rest m = (Ok tt, advance_of src rest m)) ->
  forall m : Machine,
    (i <= length (flow (self m)))%nat ->
    (forall m', pass node (Z.of_nat i) src items m m' ->
                iterate_items adv items tt (train_item node (Z.of_nat i)) m =
                (Ok tt, m')) /\
    (forall m', iterate_items adv items tt (train_item node (Z.of_nat i)) m =
                (Ok tt, m') ->
                pass node (Z.of_nat i) src items m m').
Proof.
  intros Hadv. induction items as [|item items IH]; intros m Hi.
  - cbn [iterate_items]. split.
    + intros m' H. inversion H; subst. reflexivity.
    + intros m' [= <-]. constructor.
  - rewrite (iterate_items_cons adv item items tt _ m _ (Hadv items m)).
    set (ma := advance_of src items m).
    assert (Hself : self ma = self m) by apply self_advance_of.
    assert (Hworld : world ma = world m) by apply world_advance_of.
    assert (Hi' : (i <= length (flow (self ma)))%nat) by (rewrite Hself; exact Hi).
    destruct (train_item_run node i item ma Hi') as [Hrun1 Hrun2].
    rewrite Hself, Hworld in Hrun1, Hrun2.
    split.
    + intros m' H.
      inversion H as [|item' rest sample extra m0 y w1 w2 m3 Hsplit Happ Htrain Hrest];
        subst.
      rewrite Nat2Z.id in Happ. apply split_item_presents in Hsplit.
      rewrite (Hrun1 sample extra y w1 w2 Hsplit Happ Htrain).
      apply (IH (set_world w2 ma)); [exact Hi'|exact Hrest].
    + intros m' Hrun.
      destruct (train_item node (Z.of_nat i) item tt ma) as [[[]|e|] m1] eqn:Hitem;
        try discriminate.
      destruct (Hrun2 m1 eq_refl) as (sample & extra & y & w1 & w2 &
                                      Hsplit & Happ & Htrain & ->).
      econstructor.
      * apply split_item_presents. exact Hsplit.
      * rewrite Nat2Z.id. exact Happ.
      * exact Htrain.
      * apply (IH (set_world w2 ma)); [exact Hi'|exact Hrun].
Qed.

Lemma train_pass_run (node : Node) (i : nat) (src : source) (m : Machine) :
  (i <= length (flow (self m)))%nat ->
  match items_of src m with
  | Some items =>
      (forall m', pass node (Z.of_nat i) src items m m' ->
                  train_pass node src (Z.of_nat i) m = (Ok tt, m')) /\
      (forall m', train_pass node src (Z.of_nat i) m = (Ok tt, m') ->
                  pass node (Z.of_nat i) src items m m')
  | None => exists e, train_pass node src (Z.of_nat i) m = (Raise e, m)
  end.
Proof.
  intros Hi. unfold train_pass, for_in.
  destruct src as [|items|g|g|t]; cbn [items_of]; try (eexists; reflexivity).
  - apply (pass_loop node i (SrcList items) (fun _ => ret tt) items); [|exact Hi].
    intros rest m0. reflexivity.
  - unfold bind at 1 2, get at 1 2. cbn [fst snd].
    apply (pass_loop node i (SrcGenerator g)
                     (fun rest => modify (set_iterator g rest))); [|exact Hi].
    intros rest m0. reflexivity.
  - unfold bind at 1 2, get at 1 2. cbn [fst snd].
    apply (pass_loop node i (SrcIterator g)
                     (fun rest => modify (set_iterator g rest))); [|exact Hi].
    intros rest m0. reflexivity.
Qed.

Lemma pass_self (node : Node) (i : Z) (src : source) (items : list data)
      (m m' : Machine) :
  pass node i src items m m' -> self m' = self m.
Proof.
  induction 1 as [|item rest sample extra m y w1 w2 m3 _ _ _ _ IH];
    [reflexivity|].
  rewrite IH. cbn [self set_world]. apply self_advance_of.
Qed.

(** Enough fuel lets the loop run through the phases. *)
Lemma phases_run (node : Node) (i : nat) (src : source) (m m' : Machine) :
  (i <= length (flow (self m)))%nat ->
  phases node (Z.of_nat i) src m m' ->
  exists fuel0, forall fuel, (fuel0 <= fuel)%nat ->
    train_phases fuel node src (Z.of_nat i) m = (Ok tt, m').
Proof.
  intros Hi Hph.
  induction Hph as [items m m1 Hitems Hpass Hrem
                   |items m m1 w2 m3 Hitems Hpass Hrem Hstop Hrest IH].
  - exists 1%nat. intros fuel Hfuel. destruct fuel as [|fuel]; [lia|].
    cbn [train_phases].
    pose proof (train_pass_run node i src m Hi) as Hrun. rewrite Hitems in Hrun.
    unfold bind at 1. rewrite (proj1 Hrun m1 Hpass).
    run_gets.
    rewrite (proj2 (Z.ltb_ge _ _)) by lia. reflexivity.
  - pose proof (pass_self _ _ _ _ _ _ Hpass) as Hself.
    destruct IH as [fuel0 IH].
    { cbn [self set_world]. rewrite Hself. exact Hi. }
    exists (S fuel0). intros fuel Hfuel. destruct fuel as [|fuel]; [lia|].
    cbn [train_phases].
    pose proof (train_pass_run node i src m Hi) as Hrun. rewrite Hitems in Hrun.
    unfold bind at 1. rewrite (proj1 Hrun m1 Hpass).
    run_gets.
    rewrite (proj2 (Z.ltb_lt _ _)) by lia.
    unfold bind at 1. rewrite call_run, Hstop. cbn [fst snd].
    apply IH. lia.
Qed.

(** A run of the loop that returns went through the phases. *)
Lemma run_phases (fuel : nat) (node : Node) (i : nat) (src : source)
      (m m' : Machine) :
  (i <= length (flow (self m)))%nat ->
  train_phases fuel node src (Z.of_nat i) m = (Ok tt, m') ->
  phases node (Z.of_nat i) src m m'.
Proof.
  revert m. induction fuel as [|fuel IH]; intros m Hi Hrun; [discriminate|].
  cbn [train_phases] in Hrun.
  pose proof (train_pass_run node i src m Hi) as Hpass.
  unfold bind at 1 in Hrun.
  destruct (train_pass node src (Z.of_nat i) m) as [[[]|e|] m1] eqn:Htp;
    try discriminate.
  destruct (items_of src m) as [items|] eqn:Hitems.
  2:{ destruct Hpass as [e He]. discriminate. }
  pose proof (proj2 Hpass m1 eq_refl) as Hp.
  unfold bind at 1, gets at 1 in Hrun. cbn [fst snd] in Hrun.
  destruct (Z.ltb_spec 1 (get_remaining_train_phase node (world m1))) as [Hmore|Hlast].
  - unfold bind at 1 in Hrun. rewrite call_run in Hrun.
    destruct (node_stop_training node (world m1)) as [[[]|e|] w2] eqn:Hstop;
      try discriminate.
    cbn [fst snd] in Hrun.
    eapply phases_more; [exact Hitems|exact Hp|exact Hmore|exact Hstop|].
    apply IH; [|exact Hrun].
    cbn [self set_world]. rewrite (pass_self _ _ _ _ _ _ Hp). exact Hi.
  - injection Hrun as <-.
    eapply phases_last; [exact Hitems|exact Hp|exact Hlast].
Qed.

(** [_train_node] on a trainable node with a source is the loop inside
    its [try] block. *)
Lemma train_node_trainable (fuel : nat) (i : nat) (node : Node) (src : source)
      (m : Machine) :
  flow (self m) !! i = Some node ->
  is_trainable node (world m) = true ->
  is_None src = false ->
  _train_node fuel src (Z.of_nat i) m =
  match train_phases fuel node src (Z.of_nat i) m with
  | (Raise e, m1) =>
      if is_training_finished e
      then (Ok tt, add_warning "MDPWarning" (wrn_finished (Z.of_nat i)) m1)
      else _propagate_exception e (Z.of_nat i) m1
  | other => other
  end.
Proof.
  intros Hnode Htrainable Hsrc. unfold _train_node.
  run_gets.
  run_lift.
  rewrite (ContainerFacts.list_getitem_lookup _ _ _ Hnode).
  run_gets.
  rewrite Htrainable, Hsrc. cbn [negb andb].
  unfold try_except.
  destruct (train_phases fuel node src (Z.of_nat i) m) as [[[]|e|] m1];
    try reflexivity.
  destruct (is_training_finished e); reflexivity.
Qed.


(** ** Checkpoints *)

(** Every entry of a typed dictionary is typed. *)
Lemma typed_lookup (d : gmap string (pyval Node)) (k : string) (v : pyval Node) :
  typed d = true -> d !! k = Some v -> entry_typed k v = true.
Proof.
  unfold typed. intros Ht Hk.
  apply (proj1 (forallb_forall _ _) Ht (k, v)).
  apply list_elem_of_In, elem_of_map_to_list. exact Hk.
Qed.

(** The entry [flow] of a dictionary that a checkpoint returns is a list
    of nodes. *)
Lemma update_flow (d : update Node) (v : pyval Node) :
  entries d !! "flow" = Some v -> exists l, v = VNodes l.
Proof.
  intros Hk. pose proof (typed_lookup _ _ _ (entries_typed d) Hk) as Ht.
  unfold entry_typed in Ht. change (String.eqb "flow" "flow") with true in Ht.
  destruct v as [| | |l|]; try discriminate. exists l. reflexivity.
Qed.

(** No dictionary that a checkpoint returns hides a method of the flow
    or binds a name of the object protocol. *)
Lemma update_hides_nothing (d : update Node) (k : string) (v : pyval Node) :
  entries d !! k = Some v ->
  ~ In k method_names /\ String.prefix "__" k = false.
Proof.
  intros Hk. pose proof (typed_lookup _ _ _ (entries_typed d) Hk) as Ht.
  unfold entry_typed in Ht.
  destruct (String.eqb_spec k "flow") as [->|Hne].
  - split; [|reflexivity]. vm_compute. intuition discriminate.
  - apply andb_prop in Ht. destruct Ht as [Hp Hm].
    apply negb_true_iff in Hp, Hm. split; [|exact Hp].
    intros Hin. apply not_true_iff_false in Hm. apply Hm.
    apply existsb_exists. exists k. split; [exact Hin|apply String.eqb_refl].
Qed.

(** [self.__dict__.update(d)] merges [d] into the dictionary of the flow,
    the entries of [d] winning. *)
Lemma dict_update_union (d : update Node) (s : Flow) :
  __dict__ (dict_update d s) = entries d ∪ __dict__ s.
Proof.
  apply map_eq. intros k. unfold __dict__, dict_update.
  cbn [flow verbose _crash_recovery attrs].
  rewrite lookup_union.
  destruct (decide (k = "flow")) as [->|Hk1].
  { rewrite !lookup_insert_eq.
    destruct (entries d !! "flow") as [v|] eqn:Hflow; [|reflexivity].
    destruct (update_flow d v Hflow) as [l ->]. reflexivity. }
  rewrite !(lookup_insert_ne _ "flow") by congruence.
  destruct (decide (k = "verbose")) as [->|Hk2].
  { rewrite !lookup_insert_eq. destruct (entries d !! "verbose"); reflexivity. }
  rewrite !(lookup_insert_ne _ "verbose") by congruence.
  destruct (decide (k = "_crash_recovery")) as [->|Hk3].
  { rewrite !lookup_insert_eq.
    destruct (entries d !! "_crash_recovery"); reflexivity. }
  rewrite !(lookup_insert_ne _ "_crash_recovery") by congruence.
  rewrite lookup_union. reflexivity.
Qed.

Lemma run_checkpoint_run (c : Checkpoint) (node : Node) (m : Machine) :
  run_checkpoint c node m =
  match call_checkpoint c node (world m) with
  | (Ok (Some d), w) =>
      if bool_decide (entries d = ∅) then (Ok tt, set_world w m)
      else (Ok tt, set_self (dict_update d (self m)) (set_world w m))
  | (Ok None, w) => (Ok tt, set_world w m)
  | (Raise e, w) => (Raise e, set_world w m)
  | (OutOfFuel, w) => (OutOfFuel, set_world w m)
  end.
Proof.
  unfold run_checkpoint. unfold bind at 1. rewrite call_run.
  destruct (call_checkpoint c node (world m)) as [[[d|]|e|] w]; cbn [fst snd];
    try reflexivity.
  destruct (bool_decide (entries d = ∅)); reflexivity.
Qed.

Lemma framed_attribute (k : string) :
  framed (attribute k : Machine -> option (pyval Node)).
Proof. repeat split. Qed.

Lemma unwarned_attribute (k : string) :
  unwarned (attribute k : Machine -> option (pyval Node)).
Proof. intros c msg m. reflexivity. Qed.

(** A quiet checkpoint leaves the attribute as it is. *)
Lemma preserves_run_checkpoint (k : string) (c : Checkpoint) (node : Node) :
  quiet k c -> preserves (attribute k) (run_checkpoint c node).
Proof.
  intros Hq m. rewrite run_checkpoint_run.
  destruct (call_checkpoint c node (world m)) as [[[d|]|e|] w] eqn:Hcall;
    try reflexivity.
  destruct (bool_decide (entries d = ∅)); [reflexivity|].
  cbn [snd]. unfold attribute. cbn [self set_self set_world].
  rewrite dict_update_union, lookup_union.
  rewrite (Hq node (world m) d w Hcall).
  destruct (__dict__ (self m) !! k); reflexivity.
Qed.

(** Printing the last line of the loop body leaves the attributes as
    they are. *)
Lemma preserves_leaving (k : string) :
  preserves (attribute k : Machine -> option (pyval Node)) leaving.
Proof.
  unfold leaving.
  apply preserves_bind; [apply preserves_gets|intros s].
  apply preserves_when, preserves_print, framed_attribute.
Qed.

Lemma list_getitem_inv {A} (l : list A) (j : Z) (x : A) :
  0 <= j -> list_getitem l j = Ok x -> l !! Z.to_nat j = Some x.
Proof.
  intros Hj. unfold list_getitem.
  rewrite (proj2 (Z.ltb_ge j 0)) by lia.
  destruct (_ || _); [discriminate|].
  destruct (l !! Z.to_nat j); intros H; [injection H as ->; reflexivity|discriminate].
Qed.

(** A step whose checkpoint is quiet leaves the attribute as it is. *)
Lemma preserves_checkpoint_step (k : string) (fuel : nat) (its : list source)
      (cl : list (option Checkpoint)) (j : Z) :
  0 <= j ->
  (forall c, cl !! Z.to_nat j = Some (Some c) -> quiet k c) ->
  preserves (attribute k) (checkpoint_step fuel its cl j).
Proof.
  intros Hj Hq. unfold checkpoint_step.
  apply preserves_bind; [apply preserves_gets|intros s].
  apply preserves_bind; [apply preserves_lift|intros node].
  apply preserves_bind;
    [apply preserves_when, preserves_print, framed_attribute|intros _].
  apply preserves_bind; [apply preserves_lift|intros iter].
  apply preserves_bind;
    [apply preserves_train_node; [apply framed_attribute|apply unwarned_attribute]
    |intros _].
  apply preserves_bind.
  - apply preserves_if; [|apply preserves_ret].
    destruct (list_getitem cl j) as [[c|]| |] eqn:Hget.
    + intros m. unfold bind, lift.
      apply preserves_run_checkpoint, Hq, list_getitem_inv; assumption.
    + intros m. reflexivity.
    + intros m. reflexivity.
    + intros m. reflexivity.
  - intros _. apply preserves_bind; [apply preserves_gets|intros s'].
    apply preserves_when, preserves_print, framed_attribute.
Qed.

Lemma preserves_for_each_in {A X} (f : Machine -> X) (xs : list A)
      (body : A -> Op unit) :
  Forall (fun x => preserves f (body x)) xs -> preserves f (for_each xs body).
Proof.
  induction 1 as [|x xs Hx _ IH]; cbn [for_each].
  - apply preserves_ret.
  - apply preserves_bind; [exact Hx|intros _; exact IH].
Qed.

(** The step of unit [i] in [CheckpointFlow.train], once the training of
    the unit has returned: the checkpoint is called on the unit. *)
Lemma checkpoint_step_run (fuel : nat) (its : list source)
      (cl : list (option Checkpoint)) (i : nat) (node : Node) (src : source)
      (c : Checkpoint) (m1 m2 : Machine) :
  flow (self m1) !! i = Some node ->
  its !! i = Some src ->
  cl !! i = Some (Some c) ->
  _train_node fuel src (Z.of_nat i) (entering (Z.of_nat i) node m1) = (Ok tt, m2) ->
  checkpoint_step fuel its cl (Z.of_nat i) m1 =
  (run_checkpoint c node ;;; leaving) m2.
Proof.
  intros Hnode Hsrc Hc Htrain. unfold checkpoint_step.
  run_gets.
  run_lift.
  rewrite (ContainerFacts.list_getitem_lookup _ _ _ Hnode).
  unfold bind at 1.
  assert (Hprint : when (truthy (verbose (self m1)))
                        (print (msg_training (Z.of_nat i) (node_type_name node))) m1
                   = (Ok tt, entering (Z.of_nat i) node m1)).
  { unfold when, entering. destruct (truthy _); reflexivity. }
  rewrite Hprint.
  run_lift.
  rewrite (ContainerFacts.list_getitem_lookup _ _ _ Hsrc).
  unfold bind at 1. rewrite Htrain.
  pose proof (lookup_lt_Some _ _ _ Hc) as Hlt.
  rewrite (proj2 (Z.leb_le (Z.of_nat i) (len cl))) by (unfold len; lia).
  unfold bind at 2, lift at 1.
  rewrite (ContainerFacts.list_getitem_lookup _ _ _ Hc).
  reflexivity.
Qed.

Lemma range_split (i : nat) (n : Z) :
  Z.of_nat (S i) <= n ->
  range n = (range (Z.of_nat (S i)) ++ seqZ (Z.of_nat (S i)) (n - Z.of_nat (S i)))%list.
Proof.
  intros Hle. unfold range.
  replace n with (Z.of_nat (S i) + (n - Z.of_nat (S i))) at 1 by lia.
  rewrite seqZ_app by lia. reflexivity.
Qed.


End Facts.
End EngineFacts.

(** * Laws of the container methods

    What the container methods do to a flow beyond the dimension check:
    the invariant they keep, their errors, and how they compose. *)

Module ContainerLaws.
Import Py Model Container ContainerFacts.
Local Open Scope py_scope.

Section Laws.
Context {Node World ndarray Checkpoint : Type}.
Context {U : Units Node World ndarray Checkpoint}.

Abbreviation Flow := (Flow Node).
Abbreviation Machine := (Machine Node World ndarray).
Abbreviation object := (object Node).

(** ** The check on parts of a sequence *)

Lemma adjacent_check_ok w (l : list Node) (u : unit) :
  adjacent_check w l = Ok u -> adjacent_check w l = Ok tt.
Proof. destruct u. exact id. Qed.

Lemma adjacent_check_tail w (a : Node) (l : list Node) :
  adjacent_check w (a :: l) = Ok tt -> adjacent_check w l = Ok tt.
Proof.
  destruct l as [|b l]; [reflexivity|].
  cbn [adjacent_check]. destruct (check_dims _ _) as [[]| |]; congruence.
Qed.

Lemma adjacent_check_app_r w (l1 l2 : list Node) :
  adjacent_check w (l1 ++ l2) = Ok tt -> adjacent_check w l2 = Ok tt.
Proof.
  induction l1 as [|a l1 IH]; [exact id|].
  intros H. apply IH. exact (adjacent_check_tail _ _ _ H).
Qed.

Lemma adjacent_check_app_l w (l1 l2 : list Node) :
  adjacent_check w (l1 ++ l2) = Ok tt -> adjacent_check w l1 = Ok tt.
Proof.
  induction l1 as [|a l1 IH]; [reflexivity|].
  intros H. pose proof (adjacent_check_tail _ _ _ H) as Ht.
  destruct l1 as [|b l1]; [reflexivity|].
  cbn [app adjacent_check] in H |- *.
  destruct (check_dims _ _) as [[]| |]; try congruence.
  apply IH. exact Ht.
Qed.

Lemma adjacent_check_take w (l : list Node) (n : nat) :
  adjacent_check w l = Ok tt -> adjacent_check w (take n l) = Ok tt.
Proof.
  intros H. rewrite <- (take_drop n l) in H.
  exact (adjacent_check_app_l _ _ _ H).
Qed.

Lemma adjacent_check_drop w (l : list Node) (n : nat) :
  adjacent_check w l = Ok tt -> adjacent_check w (drop n l) = Ok tt.
Proof.
  intros H. rewrite <- (take_drop n l) in H.
  exact (adjacent_check_app_r _ _ _ H).
Qed.

(** ** Consistent machines *)

Lemma consistent_check (m : Machine) :
  consistent m <-> adjacent_check (world m) (flow (self m)) = Ok tt.
Proof.
  unfold consistent. rewrite check_nodes_run. split.
  - intros H. injection H as H. exact H.
  - intros ->. reflexivity.
Qed.

Lemma committed_self (m : Machine) :
  set_self (set_flow (flow (self m)) (self m)) m = m.
Proof. destruct m as [[] ? ? ? ? ? ?]. reflexivity. Qed.

Lemma consistent_commit (l : list Node) (m : Machine) :
  adjacent_check (world m) l = Ok tt ->
  consistent (set_self (set_flow l (self m)) m).
Proof. intros H. apply consistent_check. exact H. Qed.

Lemma consistent_constructed cls (m : Machine) :
  consistent m -> consistent (constructed cls m).
Proof.
  rewrite !consistent_check, world_constructed.
  destruct cls; exact id.
Qed.

(** X1. Every container operation, whatever its outcome, leaves a
    consistent flow consistent, and a flow it returns is consistent as
    well. No operation runs a method of a node: the state of the nodes,
    the iterator objects, the files and the lines printed are as
    before. *)
Theorem X1_operations_keep_consistency (mu : mutation) (m : Machine) :
  consistent m ->
  consistent (run mu m).2 /\
  (forall f, (run mu m).1 = Ok (ObjFlow f) ->
             consistent (set_self f (run mu m).2)) /\
  world (run mu m).2 = world m /\
  iterators (run mu m).2 = iterators m /\
  files (run mu m).2 = files m /\
  stdout (run mu m).2 = stdout m.
Proof.
  intros Hm. rewrite run_closed_form. unfold closed_form.
  destruct (proposal mu (self m)) as [l| |];
    [|cbn [fst snd]; repeat split; try assumption; discriminate..].
  unfold finish.
  destruct (adjacent_check (world m) l) as [[]| |] eqn:Hok;
    [|cbn [fst snd]; repeat split; try assumption; discriminate..].
  destruct mu; cbn [fst snd returned];
    repeat split;
    try (apply consistent_commit; exact Hok);
    try (apply consistent_constructed; exact Hm);
    try apply world_constructed;
    try (destruct (__class__ (self m)); reflexivity);
    try (intros f Hf; destruct (list_getitem _ _); discriminate);
    try discriminate.
  intros f [= <-]. apply consistent_check. cbn.
  rewrite world_constructed. exact Hok.
Qed.

(** ** Indices of lists *)

Lemma len_nonneg {A} (l : list A) : 0 <= len l.
Proof. unfold len. lia. Qed.

Lemma list_getitem_out {A} (l : list A) (i : Z) :
  out_of_range i (len l) ->
  list_getitem l i = Raise (IndexError "list index out of range").
Proof.
  intros Hout. pose proof (len_nonneg l) as Hn. unfold out_of_range in Hout.
  unfold list_getitem.
  destruct (Z.ltb_spec i 0).
  - destruct (Z.ltb_spec (i + len l) 0); [reflexivity|lia].
  - destruct (Z.ltb_spec i 0); [lia|].
    destruct (Z.leb_spec (len l) i); [reflexivity|lia].
Qed.

Lemma list_setitem_out {A} (l : list A) (i : Z) (x : A) :
  out_of_range i (len l) ->
  list_setitem l i x = Raise (IndexError "list assignment index out of range").
Proof.
  intros Hout. pose proof (len_nonneg l) as Hn. unfold out_of_range in Hout.
  unfold list_setitem.
  destruct (Z.ltb_spec i 0).
  - destruct (Z.ltb_spec (i + len l) 0); [reflexivity|lia].
  - destruct (Z.ltb_spec i 0); [lia|].
    destruct (Z.leb_spec (len l) i); [reflexivity|lia].
Qed.

Lemma list_delitem_out {A} (l : list A) (i : Z) :
  out_of_range i (len l) ->
  list_delitem l i = Raise (IndexError "list assignment index out of range").
Proof.
  intros Hout. pose proof (len_nonneg l) as Hn. unfold out_of_range in Hout.
  unfold list_delitem.
  destruct (Z.ltb_spec i 0).
  - destruct (Z.ltb_spec (i + len l) 0); [reflexivity|lia].
  - destruct (Z.ltb_spec i 0); [lia|].
    destruct (Z.leb_spec (len l) i); [reflexivity|lia].
Qed.

Lemma list_getitem_in {A} (l : list A) (i : Z) :
  ~ out_of_range i (len l) ->
  exists x, l !! position_of i (len l) = Some x /\ list_getitem l i = Ok x.
Proof.
  intros Hin. unfold out_of_range in Hin. unfold list_getitem, position_of.
  set (j := if i <? 0 then i + len l else i).
  assert (Hj : 0 <= j < len l) by (subst j; destruct (Z.ltb_spec i 0); lia).
  destruct (Z.ltb_spec j 0); [lia|].
  destruct (Z.leb_spec (len l) j); [lia|]. cbn [orb].
  destruct (l !! Z.to_nat j) as [x|] eqn:Hx.
  - exists x. split; reflexivity.
  - apply lookup_ge_None in Hx. unfold len in Hj. lia.
Qed.

Lemma list_setitem_in {A} (l : list A) (i : Z) (x : A) :
  ~ out_of_range i (len l) ->
  list_setitem l i x = Ok (<[position_of i (len l) := x]> l).
Proof.
  intros Hin. unfold out_of_range in Hin. unfold list_setitem, position_of.
  set (j := if i <? 0 then i + len l else i).
  assert (Hj : 0 <= j < len l) by (subst j; destruct (Z.ltb_spec i 0); lia).
  destruct (Z.ltb_spec j 0); [lia|].
  destruct (Z.leb_spec (len l) j); [lia|]. reflexivity.
Qed.

Lemma list_delitem_in {A} (l : list A) (i : Z) :
  ~ out_of_range i (len l) ->
  list_delitem l i = Ok (delete (position_of i (len l)) l).
Proof.
  intros Hin. unfold out_of_range in Hin. unfold list_delitem, position_of.
  set (j := if i <? 0 then i + len l else i).
  assert (Hj : 0 <= j < len l) by (subst j; destruct (Z.ltb_spec i 0); lia).
  destruct (Z.ltb_spec j 0); [lia|].
  destruct (Z.leb_spec (len l) j); [lia|]. reflexivity.
Qed.

Lemma position_of_lt (i n : Z) :
  ~ out_of_range i n -> (position_of i n < Z.to_nat n)%nat.
Proof.
  unfold out_of_range, position_of. intros H.
  destruct (Z.ltb_spec i 0); lia.
Qed.

Lemma delete_middle {A} (pre : list A) (x : A) (rest : list A) :
  delete (length pre) (pre ++ x :: rest)%list = (pre ++ rest)%list.
Proof. induction pre as [|a pre IH]; [reflexivity|]. exact (f_equal (cons a) IH). Qed.

(** ** Insertion by slice assignment *)

Lemma clip_bound_range (i n : Z) :
  0 <= n -> 0 <= clip_bound (Some i) 0 1 n <= n.
Proof.
  intros Hn. unfold clip_bound. change (1 <? 0) with false. cbv iota.
  destruct (Z.ltb_spec i 0);
    [destruct (Z.ltb_spec (i + n) 0); [lia|];
     destruct (Z.leb_spec n (i + n)); lia
    |destruct (Z.ltb_spec i 0); [lia|];
     destruct (Z.leb_spec n i); lia].
Qed.

Lemma insertion_point_le {A} (l : list A) (i : Z) :
  (insertion_point i (len l) <= length l)%nat.
Proof.
  unfold insertion_point.
  pose proof (clip_bound_range i (len l) (len_nonneg l)) as H.
  unfold len in *. lia.
Qed.

Lemma insertion_point_inside {A} (l : list A) (i : Z) :
  0 <= i <= len l -> insertion_point i (len l) = Z.to_nat i.
Proof.
  intros Hi. unfold insertion_point, clip_bound. change (1 <? 0) with false.
  cbv iota. destruct (Z.ltb_spec i 0); [lia|].
  destruct (Z.ltb_spec i 0); [lia|].
  destruct (Z.leb_spec (len l) i); [f_equal; lia|reflexivity].
Qed.

Lemma insertion_point_beyond {A} (l : list A) (i : Z) :
  len l <= i -> insertion_point i (len l) = length l.
Proof.
  intros Hi. pose proof (len_nonneg l) as Hn.
  unfold insertion_point, clip_bound. change (1 <? 0) with false.
  cbv iota. destruct (Z.ltb_spec i 0); [lia|].
  destruct (Z.ltb_spec i 0); [lia|].
  destruct (Z.leb_spec (len l) i); [|lia]. unfold len. lia.
Qed.

Lemma insertion_point_before {A} (l : list A) (i : Z) :
  i <= - len l -> insertion_point i (len l) = 0%nat.
Proof.
  intros Hi. pose proof (len_nonneg l) as Hn.
  unfold insertion_point, clip_bound. change (1 <? 0) with false.
  cbv iota.
  destruct (Z.ltb_spec i 0).
  - destruct (Z.ltb_spec (i + len l) 0); [reflexivity|].
    destruct (Z.leb_spec (len l) (i + len l)); lia.
  - destruct (Z.ltb_spec i 0); [lia|].
    destruct (Z.leb_spec (len l) i); lia.
Qed.

(** [l[i:i] = v] puts [v] at the insertion point. *)
Lemma setslice_insert {A} (l v : list A) (i : Z) :
  list_setslice l (Slice (Some i) (Some i) None) v =
  Ok (take (insertion_point i (len l)) l ++ v ++
      drop (insertion_point i (len l)) l)%list.
Proof.
  pose proof (clip_bound_range i (len l) (len_nonneg l)) as Hc.
  unfold list_setslice, slice_indices.
  cbn [slice_step slice_start slice_stop default].
  change (1 =? 0) with false. change (1 <? 0) with false. cbv iota.
  assert (Hstop : clip_bound (Some i) (len l) 1 (len l) =
                  clip_bound (Some i) 0 1 (len l)) by reflexivity.
  rewrite Hstop. cbn [ix_step ix_start ix_stop].
  change (1 =? 1) with true. cbv iota.
  unfold list_ass_slice, insertion_point. cbv zeta.
  set (c := clip_bound (Some i) 0 1 (len l)) in *.
  destruct (Z.ltb_spec c 0); [lia|].
  destruct (Z.ltb_spec (len l) c); [lia|].
  destruct (Z.ltb_spec c c); [lia|].
  reflexivity.
Qed.

(** ** What the operations are, when they succeed *)

Lemma append_run (x : object) (m : Machine) :
  append x m =
  match node_of x with
  | Ok n => finish (MAppend x) (flow (self m) ++ [n]) m
  | Raise e => (Raise e, m)
  | OutOfFuel => (OutOfFuel, m)
  end.
Proof.
  change (append x m) with (run (MAppend x) m).
  rewrite run_closed_form. unfold closed_form. cbn [proposal].
  destruct (node_of x); reflexivity.
Qed.

Lemma insert_run (i : Z) (x : object) (m : Machine) :
  insert i x m =
  match node_of x with
  | Ok n =>
      finish (MInsert i x)
             (take (insertion_point i (len (flow (self m)))) (flow (self m)) ++
              n :: drop (insertion_point i (len (flow (self m)))) (flow (self m))) m
  | Raise e => (Raise e, m)
  | OutOfFuel => (OutOfFuel, m)
  end.
Proof.
  change (insert i x m) with (run (MInsert i x) m).
  rewrite run_closed_form. unfold closed_form. cbn [proposal].
  destruct (node_of x) as [n| |]; cbn [and_then]; try reflexivity.
  rewrite setslice_insert. reflexivity.
Qed.

Lemma pop_run (i : Z) (m : Machine) :
  pop (KInt i) m =
  match list_getitem (flow (self m)) i with
  | Ok n =>
      match list_delitem (flow (self m)) i with
      | Ok l =>
          match adjacent_check (world m) l with
          | Ok _ => (Ok (ObjNode n), set_self (set_flow l (self m)) m)
          | Raise e => (Raise e, m)
          | OutOfFuel => (OutOfFuel, m)
          end
      | Raise e => (Raise e, m)
      | OutOfFuel => (OutOfFuel, m)
      end
  | Raise e => (Raise e, m)
  | OutOfFuel => (OutOfFuel, m)
  end.
Proof.
  change (pop (KInt i) m) with (run (MPop i) m).
  rewrite run_closed_form. unfold closed_form, finish, returned. cbn [proposal].
  destruct (list_getitem _ _) as [n| |]; reflexivity.
Qed.

Lemma getitem_int_run (i : Z) (m : Machine) :
  __getitem__ (KInt i) m =
  match list_getitem (flow (self m)) i with
  | Ok n => (Ok (ObjNode n), m)
  | Raise e => (Raise e, m)
  | OutOfFuel => (OutOfFuel, m)
  end.
Proof.
  unfold __getitem__. run_gets. run_lift.
  destruct (list_getitem _ _); reflexivity.
Qed.

Lemma len_run (m : Machine) : __len__ m = (Ok (len (flow (self m))), m).
Proof. reflexivity. Qed.

(** A mutation that succeeded committed a sequence that passes the
    check. *)
Lemma finish_ok (mu : mutation) (l : list Node) (m m1 : Machine) (r : object) :
  (forall o, mu <> MAdd o) ->
  finish mu l m = (Ok r, m1) ->
  adjacent_check (world m) l = Ok tt /\
  m1 = set_self (set_flow l (self m)) m.
Proof.
  intros Hmu. unfold finish.
  destruct (adjacent_check _ _) as [[]| |]; try discriminate.
  destruct mu; try (intros [= _ <-]; split; reflexivity).
  exfalso. eapply Hmu. reflexivity.
Qed.

(** X2. Appending a node and popping the last item is a round trip:
    when [append] succeeds, a following [pop()] returns the node appended
    and leaves the machine, the flow included, as it was before the
    append. *)
Theorem X2_append_then_pop (x : object) (m m1 : Machine) (r : object) :
  append x m = (Ok r, m1) ->
  exists n, x = ObjNode n /\ pop_last m1 = (Ok (ObjNode n), m).
Proof.
  rewrite append_run. destruct x as [|n|f|items|t]; try discriminate.
  cbn [node_of]. intros H.
  apply finish_ok in H; [|discriminate]. destruct H as [Hok ->].
  exists n. split; [reflexivity|].
  unfold pop_last. rewrite pop_run. cbn [self flow set_self set_flow world].
  rewrite (EngineFacts.list_getitem_last _ n) by apply last_snoc.
  assert (Hdel : list_delitem (flow (self m) ++ [n]) (-1) = Ok (flow (self m))).
  { rewrite list_delitem_in.
    2:{ unfold out_of_range, len. rewrite length_app. simpl. lia. }
    f_equal. unfold position_of. change (-1 <? 0) with true. cbv iota.
    replace (Z.to_nat (-1 + len (flow (self m) ++ [n])))
      with (length (flow (self m)))
      by (unfold len; rewrite length_app; simpl; lia).
    rewrite delete_middle, app_nil_r. reflexivity. }
  rewrite Hdel, (adjacent_check_app_l _ _ _ Hok).
  f_equal. destruct m as [[] ? ? ? ? ? ?]. reflexivity.
Qed.

(** The dimension check fails in two ways only: with the dimension
    error, and with the error of the [%d] formatting. It never runs out
    of range. *)
Lemma adjacent_check_error w (l : list Node) (e : exn) :
  adjacent_check w l = Raise e ->
  (exists msg, e = ValueError msg) \/ (exists msg, e = TypeError msg).
Proof.
  induction l as [|a rest IH]; [discriminate|].
  destruct rest as [|b rest']; [discriminate|].
  cbn [adjacent_check]. unfold check_dims.
  destruct (_ && _).
  - destruct (output_dim a w), (input_dim b w); intros [= <-]; eauto.
  - exact IH.
Qed.

Lemma adjacent_check_fuel w (l : list Node) : adjacent_check w l <> OutOfFuel.
Proof.
  induction l as [|a rest IH]; [discriminate|].
  destruct rest as [|b rest']; [discriminate|].
  cbn [adjacent_check]. unfold check_dims.
  destruct (_ && _); [|exact IH].
  destruct (output_dim a w), (input_dim b w); discriminate.
Qed.

(** X3. [insert] never fails on its index, which is clipped to the ends
    of the flow as the bound of a slice: for every integer [i] the call
    returns or raises, it raises only a [TypeError] or a [ValueError],
    never an [IndexError], and then changes nothing; and it succeeds
    whenever the item is a node and the sequence with the node at the
    insertion point passes the dimension check. After a successful
    [insert(i, x)] the node stands at the insertion point, the nodes
    before and after it are the old ones, and the flow is one longer. An
    index at or beyond the end appends, an index at or before minus the
    length prepends. *)
Theorem X3_insert_position (i : Z) (x : object) (m : Machine) :
  let fl := flow (self m) in
  let p := insertion_point i (len fl) in
  (insert i x m).1 <> OutOfFuel /\
  (forall e m1,
      insert i x m = (Raise e, m1) ->
      m1 = m /\
      (forall msg, e <> IndexError msg) /\
      ((exists msg, e = TypeError msg) \/ (exists msg, e = ValueError msg))) /\
  (forall n,
      x = ObjNode n ->
      adjacent_check (world m) (take p fl ++ n :: drop p fl) = Ok tt ->
      insert i x m =
      (Ok ObjNone, set_self (set_flow (take p fl ++ n :: drop p fl) (self m)) m)) /\
  (forall r m1,
      insert i x m = (Ok r, m1) ->
      exists n,
        x = ObjNode n /\
        flow (self m1) = (take p fl ++ n :: drop p fl)%list /\
        __getitem__ (KInt (Z.of_nat p)) m1 = (Ok (ObjNode n), m1) /\
        __len__ m1 = (Ok (len fl + 1), m1) /\
        (0 <= i <= len fl -> p = Z.to_nat i) /\
        (len fl <= i -> p = length fl) /\
        (i <= - len fl -> p = 0%nat)).
Proof.
  intros fl p. rewrite insert_run. fold fl p.
  split; [|split; [|split]].
  - destruct x as [|n|f|items|t]; cbn [node_of fst]; try discriminate.
    unfold finish.
    pose proof (adjacent_check_fuel (world m) (take p fl ++ n :: drop p fl)) as Hf.
    destruct (adjacent_check _ _) as [[]|e|]; cbn [fst];
      [discriminate|discriminate|contradiction].
  - intros e m1 H.
    assert (Hkind : (exists msg, e = TypeError msg) \/ (exists msg, e = ValueError msg)).
    { destruct x as [|n|f|items|t]; cbn [node_of] in H;
        try (injection H as <- _; left; eexists; reflexivity).
      unfold finish in H.
      destruct (adjacent_check _ _) as [[]|e'|] eqn:Hck; try discriminate.
      injection H as <- _.
      destruct (adjacent_check_error _ _ _ Hck) as [Hv|Ht]; [right|left]; assumption. }
    split; [|split; [|exact Hkind]].
    + destruct x as [|n|f|items|t]; cbn [node_of] in H;
        try (injection H as _ <-; reflexivity).
      unfold finish in H.
      destruct (adjacent_check _ _) as [[]| |]; try discriminate.
      injection H as _ <-. reflexivity.
    + intros msg ->. destruct Hkind as [[? [=]]|[? [=]]].
  - intros n -> Hok. cbn [node_of]. unfold finish. rewrite Hok. reflexivity.
  - intros r m1 H.
    destruct x as [|n|f|items|t]; try discriminate.
    cbn [node_of] in H. apply finish_ok in H; [|discriminate].
    destruct H as [_ ->].
    assert (Hp : (p <= length fl)%nat) by apply insertion_point_le.
    exists n. cbn [self flow set_self set_flow].
    split; [reflexivity|]. split; [reflexivity|]. split; [|split].
    + rewrite getitem_int_run. cbn [self flow set_self set_flow].
      replace (Z.of_nat p) with (len (take p fl))
        by (unfold len; rewrite length_take; lia).
      rewrite EngineFacts.list_getitem_middle. reflexivity.
    + rewrite len_run. cbn [self flow set_self set_flow]. do 2 f_equal.
      unfold len. rewrite length_app. cbn [length].
      rewrite length_take, length_drop. lia.
    + split; [apply insertion_point_inside|].
      split; [apply insertion_point_beyond|apply insertion_point_before].
Qed.

(** X4. Inserting a node at an index of a consistent flow and popping
    that index is a round trip: [pop(i)] returns the node inserted and
    leaves the machine as it was before the insertion. *)
Theorem X4_insert_then_pop (i : Z) (x : object) (m m1 : Machine) (r : object) :
  consistent m ->
  0 <= i <= len (flow (self m)) ->
  insert i x m = (Ok r, m1) ->
  exists n, x = ObjNode n /\ pop (KInt i) m1 = (Ok (ObjNode n), m).
Proof.
  intros Hm Hi H. rewrite insert_run in H.
  destruct x as [|n|f|items|t]; try discriminate.
  cbn [node_of] in H. apply finish_ok in H; [|discriminate].
  destruct H as [_ ->].
  rewrite insertion_point_inside by exact Hi.
  exists n. split; [reflexivity|].
  rewrite pop_run. cbn [self flow set_self set_flow world].
  set (fl := flow (self m)) in *.
  assert (Hlen : len (take (Z.to_nat i) fl) = i)
    by (unfold len in *; rewrite length_take; lia).
  pose proof (EngineFacts.list_getitem_middle
                (take (Z.to_nat i) fl) n (drop (Z.to_nat i) fl)) as Hget.
  rewrite Hlen in Hget. rewrite Hget.
  assert (Hdel : list_delitem (take (Z.to_nat i) fl ++ n :: drop (Z.to_nat i) fl) i
                 = Ok fl).
  { rewrite list_delitem_in.
    2:{ unfold out_of_range, len in *. rewrite length_app. cbn [length].
        rewrite length_take, length_drop. lia. }
    f_equal. unfold position_of. destruct (Z.ltb_spec i 0); [lia|].
    replace (Z.to_nat i) with (length (take (Z.to_nat i) fl)) at 1
      by (unfold len in *; rewrite length_take; lia).
    rewrite delete_middle. apply take_drop. }
  rewrite Hdel. apply consistent_check in Hm. fold fl in Hm. rewrite Hm.
  f_equal. subst fl. destruct m as [[] ? ? ? ? ? ?]. reflexivity.
Qed.

(** X5. [extend] is concatenation in place: [flow.extend(other)]
    succeeds exactly when [flow + other] does, it then leaves in [flow]
    the nodes of the sum, which are the nodes of [flow] followed by those
    of [other], and when one raises the other raises the same exception.
    Concatenation itself does not touch [flow]. *)
Theorem X5_extend_is_add_in_place (x : object) (m : Machine) :
  (forall r m1,
      __add__ x m = (Ok r, m1) ->
      exists f o,
        r = ObjFlow f /\ x = ObjFlow o /\
        flow f = (flow (self m) ++ flow o)%list /\
        self m1 = self m /\
        extend x m = (Ok ObjNone, set_self (set_flow (flow f) (self m)) m)) /\
  (forall r m1,
      extend x m = (Ok r, m1) ->
      exists f,
        __add__ x m = (Ok (ObjFlow f), constructed (__class__ (self m)) m) /\
        flow (self m1) = flow f) /\
  (forall e m1, __add__ x m = (Raise e, m1) <-> extend x m = (Raise e, m1)).
Proof.
  change (__add__ x m) with (run (MAdd x) m).
  change (extend x m) with (run (MExtend x) m).
  rewrite !run_closed_form. unfold closed_form. cbn [proposal].
  destruct x as [|n|o|items|t];
    try (split; [intros ? ? [=]|split; [intros ? ? [=]|intros; reflexivity]]).
  unfold finish, returned.
  destruct (adjacent_check _ _) as [[]| |];
    try (split; [intros ? ? [=]|split; [intros ? ? [=]|intros; reflexivity]]).
  split; [|split].
  - intros r m1 [= <- <-]. eexists _, o. cbn [flow].
    repeat split. destruct (__class__ (self m)); reflexivity.
  - intros r m1 [= <- <-]. eexists. split; reflexivity.
  - intros e m1. split; discriminate.
Qed.

(** X6. An index that is out of range, at or beyond the length or below
    minus the length, makes indexing, item assignment, item deletion and
    [pop] raise [IndexError] and leaves the machine as it was; on an
    empty flow every index is out of range. *)
Theorem X6_index_out_of_range (i : Z) (n : Node) (m : Machine) :
  out_of_range i (len (flow (self m))) ->
  __getitem__ (KInt i) m = (Raise (IndexError "list index out of range"), m) /\
  __setitem__ (KInt i) (ObjNode n) m =
    (Raise (IndexError "list assignment index out of range"), m) /\
  __delitem__ (KInt i) m =
    (Raise (IndexError "list assignment index out of range"), m) /\
  pop (KInt i) m = (Raise (IndexError "list index out of range"), m).
Proof.
  intros Hout. split; [|split; [|split]].
  - rewrite getitem_int_run, list_getitem_out by exact Hout. reflexivity.
  - rewrite setitem_int_run. cbn [node_of and_then].
    rewrite list_setitem_out by exact Hout. reflexivity.
  - rewrite delitem_run, list_delitem_out by exact Hout. reflexivity.
  - rewrite pop_run, list_getitem_out by exact Hout. reflexivity.
Qed.

Lemma all_nodes_not_node (before : list Node) (value : object)
      (after : list object) :
  is_node value = false ->
  all_nodes ((ObjNode <$> before) ++ value :: after) =
  Raise (TypeError "flow item must be Node instance").
Proof.
  intros Hv. induction before as [|n before IH].
  - cbn. destruct value; try discriminate; reflexivity.
  - cbn [fmap list_fmap app all_nodes node_of and_then].
    cbn [fmap] in IH. rewrite IH. reflexivity.
Qed.

(** X7. Only nodes can be put into a flow: item assignment, [insert]
    and [append] of anything that is not a node, a flow or [None]
    included, raise [TypeError] whatever the index, in range or not, and
    so does the assignment to a slice of a list in which one item is not
    a node. The machine is left as it was. *)
Theorem X7_items_must_be_nodes (value : object) (m : Machine) :
  is_node value = false ->
  let refused := (Raise (TypeError "flow item must be Node instance"), m) in
  (forall i, __setitem__ (KInt i) value m = refused) /\
  (forall i, insert i value m = refused) /\
  append value m = refused /\
  (forall sl before after,
      __setitem__ (KSlice sl) (ObjList ((ObjNode <$> before) ++ value :: after)) m
      = refused).
Proof.
  intros Hv refused. subst refused. split; [|split; [|split]].
  - intros i. rewrite setitem_int_run.
    destruct value; try discriminate; reflexivity.
  - intros i. rewrite insert_run.
    destruct value; try discriminate; reflexivity.
  - rewrite append_run. destruct value; try discriminate; reflexivity.
  - intros sl before after. rewrite setitem_slice_run. cbn [nodes_of].
    rewrite all_nodes_not_node by exact Hv. reflexivity.
Qed.

(** ** Slices of step one *)

Lemma omap_lookup_seq {A} (l : list A) (n a : nat) :
  (a + n <= length l)%nat ->
  omap (fun i => l !! i) (seq a n) = take n (drop a l).
Proof.
  revert a. induction n as [|n IH]; intros a Hle; [reflexivity|].
  destruct (l !! a) as [x|] eqn:Hx.
  2:{ apply lookup_ge_None in Hx. lia. }
  cbn [seq omap list_omap]. rewrite Hx.
  rewrite (drop_S _ _ _ Hx). cbn [take]. f_equal.
  apply IH. lia.
Qed.

Lemma selected_unit_step (start stop n : Z) :
  0 <= start -> 0 <= n ->
  selected (Indices start stop 1 n) = seq (Z.to_nat start) (Z.to_nat n).
Proof.
  intros Hs Hn. unfold selected, range, seqZ. cbn [ix_start ix_step ix_slicelength].
  rewrite <- list_fmap_compose.
  transitivity (Nat.add (Z.to_nat start) <$> seq 0 (Z.to_nat n));
    [|rewrite fmap_add_seq; f_equal; lia].
  apply list_fmap_ext. intros _ k _. cbn. lia.
Qed.

Lemma clip_bound_unit (b : option Z) (dflt n : Z) :
  0 <= n -> 0 <= dflt <= n -> 0 <= clip_bound b dflt 1 n <= n.
Proof.
  intros Hn Hd. destruct b as [i|]; [|exact Hd].
  unfold clip_bound. change (1 <? 0) with false. cbv iota.
  destruct (Z.ltb_spec i 0);
    [destruct (Z.ltb_spec (i + n) 0); [lia|];
     destruct (Z.leb_spec n (i + n)); lia
    |destruct (Z.ltb_spec i 0); [lia|];
     destruct (Z.leb_spec n i); lia].
Qed.

(** [l[a:b]]: the run of items from the clipped [a] to the clipped
    [b]. *)
Lemma getslice_unit_step {A} (l : list A) (a b step : option Z) :
  step = None \/ step = Some 1 ->
  list_getslice l (Slice a b step) =
  Ok (take (Z.to_nat (clip_bound b (len l) 1 (len l) -
                      clip_bound a 0 1 (len l)))
           (drop (Z.to_nat (clip_bound a 0 1 (len l))) l)).
Proof.
  intros Hstep. pose proof (len_nonneg l) as Hn.
  pose proof (clip_bound_unit a 0 (len l) Hn ltac:(lia)) as Ha.
  pose proof (clip_bound_unit b (len l) (len l) Hn ltac:(lia)) as Hb.
  unfold list_getslice, slice_indices. cbn [slice_step slice_start slice_stop].
  assert (Hd : default 1 step = 1) by (destruct Hstep as [-> | ->]; reflexivity).
  rewrite Hd. change (1 =? 0) with false. change (1 <? 0) with false.
  change (0 <? 1) with true. cbn [andb orb]. cbv iota.
  set (start := clip_bound a 0 1 (len l)) in *.
  set (stop := clip_bound b (len l) 1 (len l)) in *.
  f_equal.
  destruct (Z.leb_spec stop start) as [Hle|Hlt].
  - rewrite selected_unit_step by lia.
    replace (Z.to_nat (stop - start)) with 0%nat by lia. reflexivity.
  - rewrite Z.quot_1_r.
    rewrite selected_unit_step by lia.
    replace (Z.to_nat (stop - start - 1 + 1)) with (Z.to_nat (stop - start)) by lia.
    apply omap_lookup_seq. unfold len in *. lia.
Qed.

(** A slice of step one of a consistent flow passes the check. *)
Lemma getitem_unit_step (a b step : option Z) (m : Machine) :
  consistent m ->
  step = None \/ step = Some 1 ->
  __getitem__ (KSlice (Slice a b step)) m =
  (Ok (ObjFlow
         (mkFlow (__class__ (self m))
                 (take (Z.to_nat (clip_bound b (len (flow (self m))) 1
                                             (len (flow (self m))) -
                                  clip_bound a 0 1 (len (flow (self m)))))
                       (drop (Z.to_nat (clip_bound a 0 1 (len (flow (self m)))))
                             (flow (self m))))
                 (VInt 0) (VInt 0) ∅)),
   constructed (__class__ (self m)) m).
Proof.
  intros Hm Hstep. apply consistent_check in Hm.
  set (fl := flow (self m)) in *.
  set (run_of := take _ _).
  assert (Hok : adjacent_check (world m) run_of = Ok tt)
    by (apply adjacent_check_take, adjacent_check_drop, Hm).
  unfold __getitem__. run_gets. run_lift.
  fold fl. rewrite getslice_unit_step by exact Hstep. fold run_of.
  rewrite check_then, Hok. unfold bind at 1.
  rewrite init_run by exact Hok. reflexivity.
Qed.

(** X8. A slice of step one of a consistent flow never fails: it
    returns a new flow of the class of [self] that holds the run of nodes
    between the two bounds, each clipped to the flow, with default
    settings. In particular [flow[:]] holds all the nodes. *)
Theorem X8_contiguous_slice (a b step : option Z) (m : Machine) :
  consistent m ->
  step = None \/ step = Some 1 ->
  let fl := flow (self m) in
  let start := clip_bound a 0 1 (len fl) in
  let stop := clip_bound b (len fl) 1 (len fl) in
  let run_of := take (Z.to_nat (stop - start)) (drop (Z.to_nat start) fl) in
  __getitem__ (KSlice (Slice a b step)) m =
  (Ok (ObjFlow (mkFlow (__class__ (self m)) run_of (VInt 0) (VInt 0) ∅)),
   constructed (__class__ (self m)) m) /\
  (a = None -> b = None -> run_of = fl).
Proof.
  intros Hm Hstep fl start stop run_of. split.
  - exact (getitem_unit_step a b step m Hm Hstep).
  - intros -> ->. subst run_of start stop. cbn [clip_bound].
    rewrite Z.sub_0_r. unfold len. rewrite Nat2Z.id. cbn [Z.to_nat drop].
    apply firstn_all.
Qed.

(** X9. Membership agrees with indexing: [node in flow] is true exactly
    when [flow[i]] is that node for some index [i] from zero to the
    length, and the test changes nothing. *)
Theorem X9_contains_agrees_with_getitem `{EqDecision Node}
        (n : Node) (m : Machine) :
  exists b : bool,
    __contains__ n m = (Ok b, m) /\
    (b = true <->
     exists i, 0 <= i < len (flow (self m)) /\
               __getitem__ (KInt i) m = (Ok (ObjNode n), m)).
Proof.
  eexists. split; [reflexivity|].
  rewrite bool_decide_eq_true, list_elem_of_lookup. split.
  - intros [k Hk]. pose proof (lookup_lt_Some _ _ _ Hk) as Hlt.
    exists (Z.of_nat k). split; [unfold len; lia|].
    rewrite getitem_int_run, (list_getitem_lookup _ _ _ Hk). reflexivity.
  - intros (i & Hi & Hget). exists (Z.to_nat i).
    rewrite getitem_int_run in Hget.
    destruct (list_getitem (flow (self m)) i) as [x| |] eqn:Hx; try discriminate.
    injection Hget as ->.
    apply EngineFacts.list_getitem_inv; [lia|exact Hx].
Qed.

(** ** The dimension zero *)

Lemma adjacent_check_after w (pre : list Node) (a : Node) (rest : list Node) :
  adjacent_check w (pre ++ [a]) = Ok tt ->
  adjacent_check w (pre ++ a :: rest) = adjacent_check w (a :: rest).
Proof.
  induction pre as [|c pre IH]; [reflexivity|].
  intros H. pose proof (adjacent_check_tail _ _ _ H) as Ht.
  specialize (IH Ht).
  destruct pre as [|c' pre].
  - cbn [app adjacent_check] in H |- *.
    destruct (check_dims _ _) as [[]| |]; try discriminate. reflexivity.
  - cbn [app] in H, IH |- *.
    change (adjacent_check w (c :: c' :: (pre ++ a :: rest)%list))
      with (match check_dims (output_dim c w) (input_dim c' w) with
            | Ok _ => adjacent_check w (c' :: (pre ++ a :: rest)%list)
            | other => other
            end).
    change (adjacent_check w (c :: c' :: (pre ++ [a])%list))
      with (match check_dims (output_dim c w) (input_dim c' w) with
            | Ok _ => adjacent_check w (c' :: (pre ++ [a])%list)
            | other => other
            end) in H.
    destruct (check_dims _ _) as [[]| |]; try discriminate. exact IH.
Qed.

(** X10. The check treats a dimension that is the integer zero as a
    set dimension only in part: where a node of output dimension zero is
    followed by a node whose input dimension is unset, the check fails,
    and with a [TypeError] from the formatting of its message, not with
    the dimension error. So does the construction of a flow from such a
    list. *)
Theorem X10_zero_dimension (pre : list Node) (a b : Node) (post : list Node)
        (m : Machine) :
  _check_nodes_consistency (pre ++ [a]) m = (Ok tt, m) ->
  output_dim a (world m) = Some 0 ->
  input_dim b (world m) = None ->
  let err := TypeError "%d format: a number is required, not NoneType" in
  _check_nodes_consistency (pre ++ a :: b :: post) m = (Raise err, m) /\
  (forall v, __init__ ClsFlow (pre ++ a :: b :: post) v m = (Raise err, m)).
Proof.
  intros Hpre Ha Hb err. subst err.
  rewrite check_nodes_run in Hpre. injection Hpre as Hpre.
  assert (Hbad : adjacent_check (world m) (pre ++ a :: b :: post) =
                 Raise (TypeError "%d format: a number is required, not NoneType")).
  { rewrite adjacent_check_after by exact Hpre.
    cbn [adjacent_check]. rewrite Ha, Hb. reflexivity. }
  split.
  - rewrite check_nodes_run, Hbad. reflexivity.
  - intros v. unfold __init__. unfold bind at 1. cbn [ret].
    rewrite check_then, Hbad. reflexivity.
Qed.

Lemma list_getitem_insert_ne {A} (l : list A) (p : nat) (x : A) (j : Z) :
  ~ out_of_range j (len l) ->
  position_of j (len l) <> p ->
  list_getitem (<[p := x]> l) j = list_getitem l j.
Proof.
  intros Hin Hne. unfold out_of_range in Hin.
  unfold list_getitem, len. rewrite length_insert. fold (len l).
  unfold position_of in Hne.
  destruct ((if j <? 0 then j + len l else j) <? 0); [reflexivity|].
  destruct (len l <=? (if j <? 0 then j + len l else j)); [reflexivity|].
  cbn [orb]. rewrite list_lookup_insert_ne by congruence. reflexivity.
Qed.

(** X11. Item assignment and indexing are a round trip: after a
    successful [flow[i] = x] the item at [i] is [x], the length is
    unchanged, and every other index yields what it yielded before. *)
Theorem X11_setitem_then_getitem (i : Z) (x : object) (m m1 : Machine)
        (r : object) :
  __setitem__ (KInt i) x m = (Ok r, m1) ->
  let n := len (flow (self m)) in
  exists node,
    x = ObjNode node /\
    __getitem__ (KInt i) m1 = (Ok (ObjNode node), m1) /\
    __len__ m1 = (Ok n, m1) /\
    forall j, ~ out_of_range j n ->
              position_of j n <> position_of i n ->
              (__getitem__ (KInt j) m1).1 = (__getitem__ (KInt j) m).1.
Proof.
  intros H n. rewrite setitem_int_run in H.
  destruct x as [|node|f|items|t]; try discriminate.
  cbn [node_of and_then] in H.
  destruct (list_setitem (flow (self m)) i node) as [l| |] eqn:Hset;
    try discriminate.
  destruct (adjacent_check (world m) l) as [[]| |]; try discriminate.
  injection H as _ <-.
  assert (Hin : ~ out_of_range i n).
  { intros Hout. rewrite list_setitem_out in Hset by exact Hout. discriminate. }
  rewrite list_setitem_in in Hset by exact Hin. injection Hset as <-.
  fold n. set (p := position_of i n).
  assert (Hp : (p < length (flow (self m)))%nat).
  { pose proof (position_of_lt i n Hin) as Hlt. subst p n.
    unfold len in Hlt |- *. lia. }
  exists node. split; [reflexivity|]. split; [|split].
  - rewrite getitem_int_run. cbn [self flow set_self set_flow].
    assert (Hget : list_getitem (<[p := node]> (flow (self m))) i = Ok node).
    { destruct (list_getitem_in (<[p := node]> (flow (self m))) i) as (y & Hy & ->).
      - unfold len. rewrite length_insert. exact Hin.
      - unfold len in Hy. rewrite length_insert in Hy. fold (len (flow (self m))) in Hy.
        fold n p in Hy. rewrite list_lookup_insert_eq in Hy by exact Hp.
        congruence. }
    rewrite Hget. reflexivity.
  - rewrite len_run. cbn [self flow set_self set_flow]. unfold len.
    rewrite length_insert. reflexivity.
  - intros j Hj Hne. rewrite !getitem_int_run. cbn [self flow set_self set_flow].
    rewrite list_getitem_insert_ne by (fold n; assumption).
    destruct (list_getitem _ _); reflexivity.
Qed.

(** ** Removing items *)

(** X27. [pop(i)] removes exactly the item at [i]: when it succeeds it
    returns the node that [flow[i]] returned, the flow holds the other
    nodes in their order, and it is one shorter. *)
Theorem X27_pop_removes_item (i : Z) (m m1 : Machine) (r : object) :
  pop (KInt i) m = (Ok r, m1) ->
  let n := len (flow (self m)) in
  ~ out_of_range i n /\
  __getitem__ (KInt i) m = (Ok r, m) /\
  flow (self m1) = delete (position_of i n) (flow (self m)) /\
  __len__ m1 = (Ok (n - 1), m1).
Proof.
  intros H n. rewrite pop_run in H.
  assert (Hin : ~ out_of_range i n).
  { intros Hout. rewrite list_getitem_out in H by exact Hout. discriminate. }
  destruct (list_getitem_in (flow (self m)) i Hin) as (x & _ & Hget).
  rewrite Hget, list_delitem_in in H by exact Hin. fold n in H.
  destruct (adjacent_check _ _) as [[]| |]; try discriminate.
  injection H as <- <-.
  split; [exact Hin|]. split; [|split].
  - rewrite getitem_int_run, Hget. reflexivity.
  - reflexivity.
  - rewrite len_run. cbn [self flow set_self set_flow]. do 2 f_equal.
    pose proof (position_of_lt i n Hin) as Hlt.
    assert (Hs : is_Some (flow (self m) !! position_of i n)).
    { apply lookup_lt_is_Some. subst n. unfold len in Hlt |- *. lia. }
    unfold len. rewrite length_delete by exact Hs.
    subst n. unfold len in Hlt |- *. lia.
Qed.

Lemma delslice_unit_step {A} (l : list A) (a b step : option Z) :
  step = None \/ step = Some 1 ->
  list_delslice l (Slice a b step) =
  Ok (take (Z.to_nat (clip_bound a 0 1 (len l))) l ++
      drop (Z.to_nat (Z.max (clip_bound a 0 1 (len l))
                            (clip_bound b (len l) 1 (len l)))) l)%list.
Proof.
  intros Hstep. pose proof (len_nonneg l) as Hn.
  pose proof (clip_bound_unit a 0 (len l) Hn ltac:(lia)) as Ha.
  pose proof (clip_bound_unit b (len l) (len l) Hn ltac:(lia)) as Hb.
  unfold list_delslice, slice_indices. cbn [slice_step slice_start slice_stop].
  assert (Hd : default 1 step = 1) by (destruct Hstep as [-> | ->]; reflexivity).
  rewrite Hd. change (1 =? 0) with false. change (1 <? 0) with false.
  cbv iota. cbn [ix_step ix_start ix_stop].
  change (1 =? 1) with true. cbv iota.
  set (start := clip_bound a 0 1 (len l)) in *.
  set (stop := clip_bound b (len l) 1 (len l)) in *.
  unfold list_ass_slice. cbv zeta.
  destruct (Z.ltb_spec start 0); [lia|].
  destruct (Z.ltb_spec (len l) start); [lia|].
  cbn [app]. do 3 f_equal.
  destruct (Z.ltb_spec stop start); [lia|].
  destruct (Z.ltb_spec (len l) stop); lia.
Qed.

(** X28. Cutting off an end of a consistent flow never fails:
    [del flow[k:]] leaves the nodes before the clipped [k], and
    [del flow[:k]] the nodes from the clipped [k] on; [del flow[:]]
    leaves the flow empty. *)
Theorem X28_delete_an_end (k : Z) (m : Machine) :
  consistent m ->
  let fl := flow (self m) in
  let p := insertion_point k (len fl) in
  __delitem__ (slice_from k) m =
    (Ok ObjNone, set_self (set_flow (take p fl) (self m)) m) /\
  __delitem__ (slice_upto k) m =
    (Ok ObjNone, set_self (set_flow (drop p fl) (self m)) m) /\
  __delitem__ (KSlice (Slice None None None)) m =
    (Ok ObjNone, set_self (set_flow [] (self m)) m).
Proof.
  intros Hm fl p. apply consistent_check in Hm. fold fl in Hm.
  pose proof (len_nonneg fl) as Hn.
  pose proof (clip_bound_range k (len fl) Hn) as Hk.
  assert (Hp : Z.to_nat (clip_bound (Some k) 0 1 (len fl)) = p) by reflexivity.
  assert (Hstop : clip_bound (Some k) (len fl) 1 (len fl) =
                  clip_bound (Some k) 0 1 (len fl)) by reflexivity.
  unfold slice_from, slice_upto. rewrite !delitem_run. fold fl.
  rewrite !delslice_unit_step by (left; reflexivity).
  change (clip_bound None 0 1 (len fl)) with 0.
  change (clip_bound None (len fl) 1 (len fl)) with (len fl).
  rewrite Hstop.
  assert (Hall : drop (Z.to_nat (len fl)) fl = [])
    by (unfold len; rewrite Nat2Z.id; apply drop_all).
  split; [|split].
  - rewrite Z.max_r by lia. rewrite Hall, app_nil_r.
    rewrite Hp, (adjacent_check_take _ _ p Hm). reflexivity.
  - rewrite Z.max_r by lia. change (Z.to_nat 0) with 0%nat. rewrite take_0. cbn [app].
    rewrite Hp, (adjacent_check_drop _ _ p Hm). reflexivity.
  - rewrite Z.max_r by lia. change (Z.to_nat 0) with 0%nat. rewrite take_0. cbn [app].
    rewrite Hall. reflexivity.
Qed.

(** ** Concatenation and slices *)

Lemma clip_bound_at_length (n extra dflt : Z) :
  0 <= n -> 0 <= extra -> clip_bound (Some n) dflt 1 (n + extra) = n.
Proof.
  intros Hn He. unfold clip_bound. change (1 <? 0) with false. cbv iota.
  destruct (Z.ltb_spec n 0); [lia|].
  destruct (Z.ltb_spec n 0); [lia|].
  destruct (Z.leb_spec (n + extra) n); lia.
Qed.

(** X29. Slicing splits a sum back into its operands: when
    [flow + other] succeeds, the slice of the sum up to the length of
    [flow] holds the nodes of [flow], and the slice from there on the
    nodes of [other]; neither slice fails. *)
Theorem X29_concatenation_splits (o : Flow) (m m1 : Machine) (r : object) :
  __add__ (ObjFlow o) m = (Ok r, m1) ->
  exists f,
    r = ObjFlow f /\
    let n := len (flow (self m)) in
    let m2 := set_self f m1 in
    let part l := ObjFlow (mkFlow (__class__ f) l (VInt 0) (VInt 0) ∅) in
    __getitem__ (slice_upto n) m2 =
      (Ok (part (flow (self m))), constructed (__class__ f) m2) /\
    __getitem__ (slice_from n) m2 =
      (Ok (part (flow o)), constructed (__class__ f) m2).
Proof.
  change (__add__ (ObjFlow o) m) with (run (MAdd (ObjFlow o)) m).
  rewrite run_closed_form. unfold closed_form, finish, returned.
  cbn [proposal].
  destruct (adjacent_check _ _) as [[]| |] eqn:Hok; try discriminate.
  intros [= <- <-]. eexists. split; [reflexivity|].
  cbv zeta. cbn [__class__].
  set (fl := flow (self m)) in *. set (ol := flow o) in *.
  set (n := len fl). set (m2 := set_self _ _).
  assert (Hm2 : consistent m2).
  { apply consistent_check. subst m2. cbn [self flow set_self world].
    rewrite world_constructed. exact Hok. }
  assert (Hlen : len (flow (self m2)) = n + len ol).
  { subst m2 n. cbn [self flow set_self]. unfold len.
    rewrite length_app. lia. }
  pose proof (len_nonneg fl) as Hn. fold n in Hn.
  pose proof (len_nonneg ol) as Hl.
  unfold slice_upto, slice_from.
  rewrite !(getitem_unit_step _ _ None m2 Hm2) by (left; reflexivity).
  rewrite Hlen.
  change (clip_bound None 0 1 (n + len ol)) with 0.
  change (clip_bound None (n + len ol) 1 (n + len ol)) with (n + len ol).
  rewrite !clip_bound_at_length by lia.
  assert (Hfl : flow (self m2) = (fl ++ ol)%list) by reflexivity.
  rewrite Hfl.
  split.
  - rewrite Z.sub_0_r. change (Z.to_nat 0) with 0%nat. rewrite drop_0.
    replace (Z.to_nat n) with (length fl) by (subst n; unfold len; lia).
    rewrite take_app_length. reflexivity.
  - replace (n + len ol - n) with (len ol) by lia.
    replace (Z.to_nat n) with (length fl) by (subst n; unfold len; lia).
    rewrite drop_app_length. unfold len. rewrite Nat2Z.id, firstn_all.
    reflexivity.
Qed.

End Laws.
End ContainerLaws.

(** * Laws of training, execution and inversion

    The edge cases of the engine, what its methods leave alone, and how
    they relate to each other. *)

Module EngineLaws.
Import Py Model Container Engine ContainerFacts EngineFacts.
Local Open Scope py_scope.

Section Laws.
Context {Node World ndarray Checkpoint : Type}.
Context {U : Units Node World ndarray Checkpoint}.

Abbreviation Flow := (Flow Node).
Abbreviation Machine := (Machine Node World ndarray).
Abbreviation data := (data ndarray).
Abbreviation source := (source ndarray).
Abbreviation Op := (M Machine).

(** ** Inverse execution *)

(** The loop of [inverse] over the batches of an iterable. *)
Lemma inverse_collect_loop (src : source) (adv : list data -> Op unit)
      (units : list Node) (xs : list data) :
  (forall rest m, adv rest m = (Ok tt, advance_of src rest m)) ->
  forall (acc : list data) (m : Machine),
    units = reverse (flow (self m)) ->
    (forall ys m', inverts_each units (advance_of src) xs m ys m' ->
                   iterate_items adv xs acc
                     (fun x res => y <- _inverse_seq x ;; ret (res ++ [y])%list) m
                   = (Ok (acc ++ ys)%list, m')) /\
    (forall res m',
        iterate_items adv xs acc
          (fun x res => y <- _inverse_seq x ;; ret (res ++ [y])%list) m
        = (Ok res, m') ->
        exists ys, res = (acc ++ ys)%list /\
                   inverts_each units (advance_of src) xs m ys m').
Proof.
  intros Hadv. induction xs as [|x xs IH]; intros acc m Hunits.
  - cbn [iterate_items]. split.
    + intros ys m' H. inversion H; subst. rewrite app_nil_r. reflexivity.
    + intros res m' [= <- <-]. exists []. rewrite app_nil_r.
      split; [reflexivity|constructor].
  - rewrite (iterate_items_cons adv x xs acc _ m _ (Hadv xs m)).
    set (ma := advance_of src xs m).
    assert (Hself : self ma = self m) by apply self_advance_of.
    assert (Hworld : world ma = world m) by apply world_advance_of.
    destruct (inverse_seq_inverts x ma) as [Hex1 Hex2].
    rewrite Hself, Hworld, <- Hunits in Hex1, Hex2.
    assert (Hu : forall w, units = reverse (flow (self (set_world w ma)))).
    { intros w. cbn [self set_world]. rewrite Hself. exact Hunits. }
    clear Hunits. unfold bind at 1 3.
    destruct (_inverse_seq x ma) as [[y|e|] m1] eqn:Hex.
    + destruct (Hex2 y m1 eq_refl) as (w1 & -> & Hinv).
      change (ret (acc ++ [y])%list (set_world w1 ma))
        with (Ok (acc ++ [y])%list, set_world w1 ma).
      cbv beta iota.
      destruct (IH (acc ++ [y])%list (set_world w1 ma) (Hu w1)) as [IH1 IH2].
      split.
      * intros ys m' H.
        inversion H as [|x' xs' m0 y' w1' ys' m2 Hinv' Heach]; subst.
        pose proof (Hex1 y' w1' Hinv') as Hrun'.
        injection Hrun' as <- Hm. subst w1'.
        rewrite (IH1 _ _ Heach). rewrite <- app_assoc. reflexivity.
      * intros res m' Hrun.
        destruct (IH2 res m' Hrun) as (ys & -> & Heach).
        exists (y :: ys). rewrite <- app_assoc. split; [reflexivity|].
        econstructor; eassumption.
    + split.
      * intros ys m' H.
        inversion H as [|x' xs' m0 y' w1' ys' m2 Hinv' Heach]; subst.
        pose proof (Hex1 y' w1' Hinv'). discriminate.
      * intros res m' Hrun. discriminate.
    + split.
      * intros ys m' H.
        inversion H as [|x' xs' m0 y' w1' ys' m2 Hinv' Heach]; subst.
        pose proof (Hex1 y' w1' Hinv'). discriminate.
      * intros res m' Hrun. discriminate.
Qed.

Lemma inverse_collect_run (src : source) (xs : list data) (m : Machine) :
  items_of src m = Some xs ->
  (forall ys m',
      inverts_each (reverse (flow (self m))) (advance_of src) xs m ys m' ->
      collect src _inverse_seq m = (Ok ys, m')) /\
  (forall res m',
      collect src _inverse_seq m = (Ok res, m') ->
      inverts_each (reverse (flow (self m))) (advance_of src) xs m res m').
Proof.
  intros Hitems.
  assert (Hloop : exists adv,
             (forall rest m, adv rest m = (Ok tt, advance_of src rest m)) /\
             collect src _inverse_seq m =
             iterate_items adv xs []
               (fun x res => y <- _inverse_seq x ;; ret (res ++ [y])%list) m).
  { unfold collect, for_in.
    destruct src as [|items|g|g|t]; try discriminate;
      cbn [items_of] in Hitems; injection Hitems as <-.
    - exists (fun _ => ret tt). split; reflexivity.
    - exists (fun rest => modify (set_iterator g rest)). split; reflexivity.
    - exists (fun rest => modify (set_iterator g rest)). split; reflexivity. }
  destruct Hloop as (adv & Hadv & ->).
  destruct (inverse_collect_loop src adv _ xs Hadv [] m eq_refl) as [H1 H2].
  split.
  - intros ys m' H. rewrite (H1 ys m' H). reflexivity.
  - intros res m' H. destruct (H2 res m' H) as (ys & -> & Heach). exact Heach.
Qed.

(** X12. [inverse] on a single array applies the inverse of every node,
    the last node first and the first node last, and returns the result;
    on an iterable of batches it does the same to every batch, in input
    order, and returns the concatenation of the results. The result is
    returned exactly when every inverse succeeds, and then only the state
    of the nodes and of the iterator object has changed. *)
Theorem X12_inverse_backwards (m : Machine) :
  (forall a y w',
      inverts (reverse (flow (self m))) (Array a) (world m) y w' <->
      inverse (ExArray a) m = (Ok y, set_world w' m)) /\
  (forall src xs ys m',
      items_of src m = Some xs ->
      inverts_each (reverse (flow (self m))) (advance_of src) xs m ys m' ->
      inverse (ExIterable src) m = (numx_concatenate ys, m')) /\
  (forall src xs z m',
      items_of src m = Some xs ->
      inverse (ExIterable src) m = (Ok z, m') ->
      exists ys,
        inverts_each (reverse (flow (self m))) (advance_of src) xs m ys m' /\
        numx_concatenate ys = Ok z).
Proof.
  split; [|split].
  - intros a y w'. cbn [inverse].
    destruct (inverse_seq_inverts (Array a) m) as [H1 H2]. split.
    + apply H1.
    + intros Hrun. destruct (H2 y _ Hrun) as (w'' & Heq & Hinv).
      apply set_world_inj in Heq. subst w''. exact Hinv.
  - intros src xs ys m' Hitems Heach. cbn [inverse].
    destruct (inverse_collect_run src xs m Hitems) as [H1 _].
    unfold bind. rewrite (H1 ys m' Heach). reflexivity.
  - intros src xs z m' Hitems Hrun. cbn [inverse] in Hrun.
    destruct (inverse_collect_run src xs m Hitems) as [_ H2].
    unfold bind in Hrun.
    destruct (collect src _ m) as [[res|e|] m1] eqn:Hc; try discriminate.
    unfold lift in Hrun. injection Hrun as Hz <-.
    exists res. split; [apply H2; reflexivity|exact Hz].
Qed.

(** ** Failures during execution and inversion *)

Lemma world_crashed (m : Machine) : world (crashed m) = world m.
Proof.
  unfold crashed. destruct (truthy _); [|reflexivity].
  destruct (_crash_recovery (self m)); reflexivity.
Qed.

Lemma crashed_off (m : Machine) :
  truthy (_crash_recovery (self m)) = false ->
  dump_name m = None /\ crashed m = m.
Proof. intros H. unfold dump_name, crashed. rewrite H. split; reflexivity. Qed.

Lemma execute_seq_default (x : data) (m : Machine) :
  _execute_seq x None m = _execute_seq x (Some (len (flow (self m)) - 1)) m.
Proof. reflexivity. Qed.

(** X13. A node that fails while a flow is executed on an array stops
    the execution there: [execute] raises a [FlowExceptionCR] whose
    parent exception is the exception of the node itself and whose
    message names the index and the type of the node; the nodes after it
    are not run, and the flow object is untouched. Without crash recovery
    the exception carries no file name and nothing but the state of the
    nodes has changed. *)
Theorem X13_execute_failure_wrapped_once
        (j : nat) (node : Node) (nodenr : option Z) (a : ndarray) (y : data)
        (w1 w2 : World) (e : exn) (m : Machine) :
  flow (self m) !! j = Some node ->
  applies (take j (flow (self m))) (Array a) (world m) y w1 ->
  node_execute node y w1 = (Raise e, w2) ->
  (forall k, nodenr = Some k -> Z.of_nat j <= k) ->
  exists msg filename m',
    execute (ExArray a) nodenr m = (Raise (FlowExceptionCR msg e filename), m') /\
    contains msg (pretty (Z.of_nat j)) /\
    contains msg (node_type_name node) /\
    world m' = w2 /\
    self m' = self m /\
    (truthy (_crash_recovery (self m)) = false ->
     filename = None /\ m' = set_world w2 m).
Proof.
  intros Hnode Happ Hfail Hk. cbn [execute].
  assert (Hrun : exists k, Z.of_nat j <= k /\
                           _execute_seq (Array a) nodenr m =
                           _execute_seq (Array a) (Some k) m).
  { destruct nodenr as [k|].
    - exists k. split; [apply Hk; reflexivity|reflexivity].
    - exists (len (flow (self m)) - 1). split; [|apply execute_seq_default].
      pose proof (lookup_lt_Some _ _ _ Hnode). unfold len. lia. }
  destruct Hrun as (k & Hjk & ->).
  destruct (execute_failure_wrapped j node k (Array a) y w1 w2 e m
              Hnode Happ Hfail Hjk) as (msg & Hex & Hc1 & Hc2 & _).
  exists msg, (dump_name (set_world w2 m)), (crashed (set_world w2 m)).
  split; [exact Hex|]. split; [exact Hc1|]. split; [exact Hc2|].
  split; [exact (world_crashed (set_world w2 m))|].
  split; [exact (self_crashed (set_world w2 m))|].
  intros Hoff. apply (crashed_off (set_world w2 m)). exact Hoff.
Qed.

(** X14. A node whose inverse fails while a flow is inverted on an
    array stops the inversion there: [inverse] raises a
    [FlowExceptionCR] whose parent exception is the exception of the node
    itself and whose message names the index and the type of the node;
    the nodes before it in the flow, which would come next, are not run,
    and the flow object is untouched. *)
Theorem X14_inverse_failure_wrapped_once
        (pre : list Node) (node : Node) (post : list Node) (a : ndarray)
        (y : data) (w1 w2 : World) (e : exn) (m : Machine) :
  flow (self m) = (pre ++ node :: post)%list ->
  inverts (reverse post) (Array a) (world m) y w1 ->
  node_inverse node y w1 = (Raise e, w2) ->
  exists msg filename m',
    inverse (ExArray a) m = (Raise (FlowExceptionCR msg e filename), m') /\
    contains msg (pretty (len pre)) /\
    contains msg (node_type_name node) /\
    world m' = w2 /\
    self m' = self m /\
    (truthy (_crash_recovery (self m)) = false ->
     filename = None /\ m' = set_world w2 m).
Proof.
  intros Hfl Hinv Hfail. cbn [inverse].
  destruct (inverse_failure_wrapped pre node post (Array a) y w1 w2 e m
              Hfl Hinv Hfail) as (msg & Hex & Hc1 & Hc2).
  exists msg, (dump_name (set_world w2 m)), (crashed (set_world w2 m)).
  split; [exact Hex|]. split; [exact Hc1|]. split; [exact Hc2|].
  split; [exact (world_crashed (set_world w2 m))|].
  split; [exact (self_crashed (set_world w2 m))|].
  intros Hoff. apply (crashed_off (set_world w2 m)). exact Hoff.
Qed.

(** ** The index [nodenr] of [execute] *)

Lemma for_fold_app {A B} (l1 l2 : list A) (acc : B) (body : A -> B -> Op B)
      (m : Machine) :
  for_fold (l1 ++ l2) acc body m =
  (acc' <- for_fold l1 acc body ;; for_fold l2 acc' body) m.
Proof.
  revert acc m. induction l1 as [|x l1 IH]; intros acc m; [reflexivity|].
  cbn [app for_fold]. unfold bind.
  destruct (body x acc m) as [[acc'|e|] m1]; try reflexivity.
  rewrite IH. reflexivity.
Qed.

(** X15. The index [nodenr] of [execute] is not checked against the
    flow. A negative index, minus one and below, executes no node and
    returns the input as it is: it does not count from the end. An index
    at or beyond the length runs every node of the flow and then fails
    with a plain [IndexError], not a [FlowExceptionCR], leaving the nodes
    in the state the execution brought them to. *)
Theorem X15_execute_index_unchecked (k : Z) (a : ndarray) (m : Machine) :
  (k < 0 -> execute (ExArray a) (Some k) m = (Ok (Array a), m)) /\
  (len (flow (self m)) <= k ->
   forall y w',
     applies (flow (self m)) (Array a) (world m) y w' ->
     execute (ExArray a) (Some k) m =
     (Raise (IndexError "list index out of range"), set_world w' m)).
Proof.
  split.
  - intros Hk. cbn [execute]. unfold _execute_seq. run_gets.
    unfold range. rewrite seqZ_nil by lia. reflexivity.
  - intros Hk y w' Happ. cbn [execute].
    set (fl := flow (self m)) in *.
    assert (Hn : 0 <= len fl) by (unfold len; lia).
    assert (Hrun : _execute_seq (Array a) (Some k) m =
                   for_fold (seqZ 0 (len fl) ++ seqZ (len fl) (k + 1 - len fl))
                     (Array a)
                     (fun i x =>
                        try_except
                          (node <- lift (list_getitem fl i) ;;
                           call (node_execute node x))
                          (fun e => _propagate_exception e i)) m).
    { unfold _execute_seq. run_gets. fold fl. unfold range.
      replace (k + 1) with (len fl + (k + 1 - len fl)) at 1 by lia.
      rewrite seqZ_app by lia. reflexivity. }
    rewrite Hrun, for_fold_app. unfold bind at 1.
    pose proof (execute_loop [] fl [] (Array a) m) as [Hloop _].
    cbn [app] in Hloop. rewrite app_nil_r in Hloop.
    unfold execute_from in Hloop. change (len (@nil Node)) with 0 in Hloop.
    rewrite (Hloop y w' Happ).
    rewrite seqZ_cons by lia. cbn [for_fold]. unfold bind at 1.
    unfold try_except. run_lift.
    rewrite ContainerLaws.list_getitem_out by (right; lia).
    unfold _propagate_exception. run_gets. run_lift.
    cbn [self set_world]. fold fl.
    rewrite ContainerLaws.list_getitem_out by (right; lia).
    reflexivity.
Qed.

(** ** The empty flow *)

Lemma validated_empty (args : iterators_arg ndarray) (m : Machine) :
  flow (self m) = [] ->
  args = ItList [] \/ (exists a, args = ItArray a) ->
  validated args m = Ok [].
Proof.
  intros Hfl [-> | [a ->]]; unfold validated, expanded, validated_list;
    rewrite Hfl; reflexivity.
Qed.

Lemma close_last_empty (m : Machine) :
  flow (self m) = [] ->
  _close_last_node m =
  (Raise (IndexError "list index out of range"), announced m).
Proof.
  intros Hfl.
  assert (Hrest : forall m' : Machine,
    flow (self m') = [] ->
    try_except
      (s <- gets self ;;
       node <- lift (list_getitem (flow s) (-1)) ;;
       call (node_stop_training node))
      (fun e =>
         if is_training_finished e then ret tt
         else
           s <- gets self ;;
           _propagate_exception e (len (flow s) - 1)) m' =
    (Raise (IndexError "list index out of range"), m')).
  { intros m' H'. unfold try_except. run_gets. rewrite H'. run_lift.
    change (list_getitem (@nil Node) (-1))
      with (@Raise Node (IndexError "list index out of range")).
    cbv iota beta. cbn [is_training_finished]. run_gets. rewrite H'.
    unfold _propagate_exception. run_gets. rewrite H'. reflexivity. }
  unfold _close_last_node, announced. run_gets.
  destruct (truthy (verbose (self m))); cbn [when]; unfold bind at 1.
  - apply (Hrest (add_line _ m)). exact Hfl.
  - apply (Hrest m). exact Hfl.
Qed.

(** X16. On a flow without nodes [execute] and [inverse] return their
    input as it is, but [train] fails: with an empty list of iterators,
    or with an array, the arguments pass the checks, and closing the
    training of the last node raises [IndexError], after the line a
    verbose flow prints. *)
Theorem X16_empty_flow (fuel : nat) (a : ndarray) (m : Machine) :
  flow (self m) = [] ->
  execute (ExArray a) None m = (Ok (Array a), m) /\
  inverse (ExArray a) m = (Ok (Array a), m) /\
  train fuel (ItList []) m =
    (Raise (IndexError "list index out of range"), announced m) /\
  train fuel (ItArray a) m =
    (Raise (IndexError "list index out of range"), announced m).
Proof.
  intros Hfl.
  assert (Htrain : forall args,
             validated args m = Ok [] ->
             train fuel args m =
             (Raise (IndexError "list index out of range"), announced m)).
  { intros args Hv. unfold train. unfold bind at 1.
    rewrite check_iterators_run, Hv.
    unfold bind at 1. unfold train_units. run_gets. rewrite Hfl.
    change (range (len (@nil Node))) with (@nil Z).
    cbn [for_each]. unfold ret at 1. cbv iota beta.
    apply close_last_empty, Hfl. }
  split; [|split; [|split]].
  - cbn [execute]. unfold _execute_seq. run_gets. rewrite Hfl. reflexivity.
  - cbn [inverse]. unfold _inverse_seq. run_gets. rewrite Hfl. reflexivity.
  - apply Htrain, validated_empty; [exact Hfl|left; reflexivity].
  - apply Htrain, validated_empty; [exact Hfl|right; exists a; reflexivity].
Qed.

(** ** The checks on the training arguments *)

Lemma first_not_iterable_none (j : Z) (its : list source) :
  Forall (fun el => is_None el = true \/ has_iter el = true) its ->
  first_not_iterable j its = None.
Proof.
  intros H. revert j. induction H as [|el its Hel _ IH]; intros j; [reflexivity|].
  cbn [first_not_iterable].
  destruct Hel as [-> | ->]; cbn [negb andb]; rewrite ?andb_false_r; apply IH.
Qed.

Lemma first_not_iterable_found (j : Z) (its : list source) (i : nat)
      (el : source) :
  its !! i = Some el -> is_None el = false -> has_iter el = false ->
  exists k, first_not_iterable j its = Some k /\ j <= k <= j + Z.of_nat i.
Proof.
  revert j i. induction its as [|x its IH]; intros j i Hi Hn Hit; [discriminate|].
  cbn [first_not_iterable].
  destruct (negb (is_None x) && negb (has_iter x)) eqn:Hx.
  - exists j. split; [reflexivity|lia].
  - destruct i as [|i].
    + injection Hi as ->. rewrite Hn, Hit in Hx. discriminate.
    + destruct (IH (j + 1) i Hi Hn Hit) as (k & Hk & Hrange).
      exists k. split; [exact Hk|lia].
Qed.

(** X17. [train] and [CheckpointFlow.train] check their iterators before
    anything is trained, and a call they refuse leaves the machine as it
    was. An argument that is neither a list nor an array is refused as
    such. A list in which some entry is neither [None] nor iterable is
    refused with the index of the first such entry, whatever its length.
    A list of entries that are [None] or iterable, but not one for each
    node, is refused with the two numbers. *)
Theorem X17_training_arguments_checked (fuel : nat) (m : Machine) :
  let refused args msg :=
    train fuel args m = (Raise (FlowException msg), m) /\
    forall cks,
      CheckpointFlow_train fuel args cks m = (Raise (FlowException msg), m) in
  (forall t, refused (ItOther t) (err_not_list t)) /\
  (forall its (i : nat) el,
      its !! i = Some el -> is_None el = false -> has_iter el = false ->
      exists k, 0 <= k <= Z.of_nat i /\
                first_not_iterable 0 its = Some k /\
                refused (ItList its) (err_element k)) /\
  (forall its,
      Forall (fun el => is_None el = true \/ has_iter el = true) its ->
      len its <> len (flow (self m)) ->
      refused (ItList its) (err_count (len its) (len (flow (self m))))).
Proof.
  intros refused. subst refused. cbv beta. split; [|split].
  - intros t. apply train_rejected. reflexivity.
  - intros its i el Hi Hn Hit.
    destruct (first_not_iterable_found 0 its i el Hi Hn Hit) as (k & Hk & Hrange).
    exists k. split; [lia|]. split; [exact Hk|].
    apply train_rejected. unfold validated, expanded, validated_list.
    cbn [and_then]. rewrite Hk. reflexivity.
  - intros its Hall Hlen. apply train_rejected.
    unfold validated, expanded, validated_list. cbn [and_then].
    rewrite (first_not_iterable_none 0 its Hall).
    destruct (Z.eqb_spec (len its) (len (flow (self m)))); [contradiction|].
    reflexivity.
Qed.

Lemma first_generator_lists w (j : Z) (nodes : list Node) (n : nat)
      (items : list data) :
  first_generator w j nodes (replicate n (SrcList items)) = None.
Proof.
  revert j n. induction nodes as [|node nodes IH]; intros j n; [reflexivity|].
  destruct n as [|n]; [reflexivity|].
  cbn [replicate first_generator is_generator]. rewrite andb_false_r. apply IH.
Qed.

Lemma validated_array (a : ndarray) (m : Machine) :
  validated (ItArray a) m =
  Ok (replicate (length (flow (self m))) (SrcList [Array a])).
Proof.
  unfold validated, expanded, validated_list. cbn [and_then].
  rewrite first_not_iterable_none.
  2:{ apply Forall_replicate. right. reflexivity. }
  unfold len at 1. rewrite length_replicate. fold (len (flow (self m))).
  rewrite Z.eqb_refl. cbn [negb].
  rewrite first_generator_lists. reflexivity.
Qed.

Lemma validated_replicated (a : ndarray) (m : Machine) :
  validated (ItList (replicate (length (flow (self m))) (SrcList [Array a]))) m =
  Ok (replicate (length (flow (self m))) (SrcList [Array a])).
Proof. exact (validated_array a m). Qed.

(** X18. An array given to [train] in place of the list of iterators
    always passes the checks: it stands for one list holding that array
    for each node, and training with the array is training with that
    list, for [CheckpointFlow.train] as well. *)
Theorem X18_array_for_every_node (fuel : nat) (a : ndarray) (m : Machine) :
  let its := replicate (length (flow (self m))) (SrcList [Array a]) in
  _train_check_iterators (ItArray a) m = (Ok its, m) /\
  train fuel (ItArray a) m = train fuel (ItList its) m /\
  (forall cks,
      CheckpointFlow_train fuel (ItArray a) cks m =
      CheckpointFlow_train fuel (ItList its) cks m).
Proof.
  intros its. subst its. split; [|split].
  - rewrite check_iterators_run, validated_array. reflexivity.
  - unfold train. unfold bind at 1 3.
    rewrite !check_iterators_run, validated_array, validated_replicated.
    reflexivity.
  - intros cks. unfold CheckpointFlow_train. unfold bind at 1 4.
    rewrite !check_iterators_run, validated_array, validated_replicated.
    reflexivity.
Qed.

(** ** Nodes that cannot be trained *)

(** X19. Data for a node that cannot be trained is no error. For a node
    that is not trainable the training issues the warning that the node
    is not trainable and does nothing else: the source is not read and
    no method of a node is called. For a trainable node whose [train]
    answers the first item with [TrainingFinishedException], the training
    issues the warning that the training phase is already finished and
    stops there; the item had gone through the nodes before. *)
Theorem X19_untrainable_nodes_warned (fuel : nat) (i : nat) (node : Node)
        (m : Machine) :
  flow (self m) !! i = Some node ->
  (forall src,
      is_trainable node (world m) = false ->
      is_None src = false ->
      _train_node fuel src (Z.of_nat i) m =
      (Ok tt, add_warning "MDPWarning" (wrn_not_trainable (Z.of_nat i)) m)) /\
  (forall item sample extra rest y w1 w2 e,
      is_trainable node (world m) = true ->
      split_item item = Ok (sample, extra) ->
      applies (take i (flow (self m))) sample (world m) y w1 ->
      node_train node y extra w1 = (Raise e, w2) ->
      is_training_finished e = true ->
      _train_node (S fuel) (SrcList (item :: rest)) (Z.of_nat i) m =
      (Ok tt, add_warning "MDPWarning" (wrn_finished (Z.of_nat i))
                          (set_world w2 m))).
Proof.
  intros Hnode.
  pose proof (ContainerFacts.list_getitem_lookup _ _ _ Hnode) as Hget.
  pose proof (lookup_lt_Some _ _ _ Hnode) as Hlt.
  split.
  - intros src Htrainable Hsrc. unfold _train_node.
    run_gets. run_lift. rewrite Hget.
    unfold bind at 1, gets at 1. cbn [fst snd].
    rewrite Htrainable, Hsrc. reflexivity.
  - intros item sample extra rest y w1 w2 e Htrainable Hsplit Happ Htrain Hfin.
    assert (Hfilter :
      (if 0 <? Z.of_nat i then _execute_seq sample (Some (Z.of_nat i - 1))
       else ret sample) m = (Ok y, set_world w1 m)).
    { destruct (Z.ltb_spec 0 (Z.of_nat i)) as [Hpos|Hzero].
      - assert (Hk : forall k, Some (Z.of_nat i - 1) = Some k ->
                               k < len (flow (self m))).
        { intros k [= <-]. unfold len. lia. }
        destruct (execute_seq_applies sample (Some (Z.of_nat i - 1)) m Hk) as [H1 _].
        apply H1. unfold units_upto.
        replace (Z.to_nat (Z.of_nat i - 1 + 1)) with i by lia. exact Happ.
      - assert (i = 0%nat) by lia. subst i. cbn [take] in Happ.
        inversion Happ; subst. unfold ret. rewrite set_world_id. reflexivity. }
    unfold _train_node.
    run_gets. run_lift. rewrite Hget.
    unfold bind at 1, gets at 1. cbn [fst snd is_None negb andb].
    rewrite Htrainable. cbn [negb andb].
    unfold try_except. cbn [train_phases].
    unfold bind at 1. unfold train_pass at 1. cbn [for_in iterate_items].
    unfold bind at 1, ret at 1. unfold bind at 1.
    run_lift. rewrite Hsplit. cbn [fst snd].
    unfold bind at 1. rewrite Hfilter.
    rewrite call_run. cbn [world set_world]. rewrite Htrain. cbn [fst snd].
    rewrite Hfin. reflexivity.
Qed.

(** An item whose split fails stops the training of the unit inside the
    [try] block, before any node runs: the failure is wrapped as that of
    the unit in training. An empty list and an empty tuple fail at
    [x[0]], each with the text of its type. *)
Lemma train_unsplit_item (fuel : nat) (i : nat) (node : Node) (item : data)
      (rest : list data) (e : exn) (m : Machine) :
  flow (self m) !! i = Some node ->
  is_trainable node (world m) = true ->
  split_item item = Raise e ->
  is_training_finished e = false ->
  _train_node (S fuel) (SrcList (item :: rest)) (Z.of_nat i) m =
  (Raise (wrapping m (Z.of_nat i) node e), crashed m).
Proof.
  intros Hnode Htrainable Hsplit Hfin.
  pose proof (ContainerFacts.list_getitem_lookup _ _ _ Hnode) as Hget.
  unfold _train_node.
  run_gets. run_lift. rewrite Hget.
  unfold bind at 1, gets at 1. cbn [fst snd is_None negb andb].
  rewrite Htrainable. cbn [negb andb].
  unfold try_except. cbn [train_phases].
  unfold bind at 1. unfold train_pass at 1. cbn [for_in iterate_items].
  unfold bind at 1, ret at 1. unfold bind at 1.
  run_lift. rewrite Hsplit. cbn [fst snd].
  rewrite Hfin. apply propagate_run. exact Hget.
Qed.

Lemma train_empty_item (fuel : nat) (i : nat) (node : Node)
      (rest : list data) (m : Machine) :
  flow (self m) !! i = Some node ->
  is_trainable node (world m) = true ->
  _train_node (S fuel) (SrcList (Sequence [] :: rest)) (Z.of_nat i) m =
  (Raise (wrapping m (Z.of_nat i) node (IndexError "list index out of range")),
   crashed m) /\
  _train_node (S fuel) (SrcList (Tuple [] :: rest)) (Z.of_nat i) m =
  (Raise (wrapping m (Z.of_nat i) node (IndexError "tuple index out of range")),
   crashed m).
Proof.
  intros Hnode Htrainable.
  split; apply train_unsplit_item; try assumption; reflexivity.
Qed.
(** ** Invariants that the engine keeps *)

Create HintDb keep.

Lemma keeps_ret {A} (I : Machine -> Prop) (a : A) : keeps I (ret a).
Proof. intros m Hm. exact Hm. Qed.

Lemma keeps_raise {A} (I : Machine -> Prop) (e : exn) :
  keeps I (@raise Machine A e).
Proof. intros m Hm. exact Hm. Qed.

Lemma keeps_lift {A} (I : Machine -> Prop) (r : result A) : keeps I (lift r).
Proof. intros m Hm. exact Hm. Qed.

Lemma keeps_gets {A} (I : Machine -> Prop) (g : Machine -> A) :
  keeps I (gets g).
Proof. intros m Hm. exact Hm. Qed.

Lemma keeps_get (I : Machine -> Prop) : keeps I get.
Proof. intros m Hm. exact Hm. Qed.

Lemma keeps_out_of_fuel {A} (I : Machine -> Prop) :
  keeps I (@out_of_fuel Machine A).
Proof. intros m Hm. exact Hm. Qed.

(** Sequencing, from a machine on which the first step is known to keep
    the invariant. *)
Lemma keeps_bind_at {A B} (I : Machine -> Prop) (a : Op A) (k : A -> Op B)
      (m : Machine) :
  I (a m).2 -> (forall x, keeps I (k x)) -> I (bind a k m).2.
Proof.
  intros Ha Hk. unfold bind.
  destruct (a m) as [[x|e|] m1]; cbn [snd] in *; try exact Ha.
  apply Hk, Ha.
Qed.

Lemma keeps_bind {A B} (I : Machine -> Prop) (a : Op A) (k : A -> Op B) :
  keeps I a -> (forall x, keeps I (k x)) -> keeps I (bind a k).
Proof. intros Ha Hk m Hm. apply keeps_bind_at; [apply Ha, Hm|exact Hk]. Qed.

Lemma keeps_try {A} (I : Machine -> Prop) (body : Op A) (h : exn -> Op A) :
  keeps I body -> (forall e, keeps I (h e)) -> keeps I (try_except body h).
Proof.
  intros Hb Hh m Hm. unfold try_except. specialize (Hb m Hm).
  destruct (body m) as [[x|e|] m1]; cbn [snd] in *; try exact Hb.
  apply Hh, Hb.
Qed.

Lemma keeps_if {A} (I : Machine -> Prop) (b : bool) (a c : Op A) :
  keeps I a -> keeps I c -> keeps I (if b then a else c).
Proof. destruct b; auto. Qed.

Lemma keeps_for_each {A} (I : Machine -> Prop) (xs : list A)
      (body : A -> Op unit) :
  (forall x, keeps I (body x)) -> keeps I (for_each xs body).
Proof.
  intros Hb. induction xs as [|x xs IH]; cbn [for_each].
  - apply keeps_ret.
  - apply keeps_bind; [apply Hb|intros _; exact IH].
Qed.

Lemma keeps_for_fold {A B} (I : Machine -> Prop) (xs : list A)
      (body : A -> B -> Op B) (acc : B) :
  (forall x acc, keeps I (body x acc)) -> keeps I (for_fold xs acc body).
Proof.
  intros Hb. revert acc. induction xs as [|x xs IH]; intros acc; cbn [for_fold].
  - apply keeps_ret.
  - apply keeps_bind; [apply Hb|intros acc'; apply IH].
Qed.

Lemma keeps_iterate {B} (I : Machine -> Prop) (adv : list data -> Op unit)
      (xs : list data) (acc : B) (body : data -> B -> Op B) :
  (forall rest, keeps I (adv rest)) ->
  (forall x acc, keeps I (body x acc)) ->
  keeps I (iterate_items adv xs acc body).
Proof.
  intros Ha Hb. revert acc. induction xs as [|x xs IH]; intros acc;
    cbn [iterate_items].
  - apply keeps_ret.
  - apply keeps_bind; [apply Ha|intros _].
    apply keeps_bind; [apply Hb|intros acc'; apply IH].
Qed.

Lemma keeps_call {A} (I : Machine -> Prop) (g : World -> result A * World) :
  settled I -> keeps I (call g).
Proof. intros [Hw _] m Hm. rewrite call_run. apply Hw, Hm. Qed.

Lemma keeps_warn (I : Machine -> Prop) (category msg : string) :
  settled I -> keeps I (warn category msg).
Proof. intros (_ & _ & Hw) m Hm. apply Hw, Hm. Qed.

#[local] Hint Resolve keeps_ret keeps_raise keeps_lift keeps_gets keeps_get
  keeps_out_of_fuel keeps_bind keeps_try keeps_if keeps_for_each
  keeps_for_fold keeps_iterate keeps_call keeps_warn : keep.

Lemma keeps_for_in {B} (I : Machine -> Prop) (src : source) (acc : B)
      (body : data -> B -> Op B) :
  settled I -> (forall x acc, keeps I (body x acc)) ->
  keeps I (for_in src acc body).
Proof.
  intros (_ & Hi & _) Hb.
  assert (Hadv : forall g rest, keeps I (modify (set_iterator g rest))).
  { intros g rest m Hm. apply Hi, Hm. }
  destruct src; cbn [for_in]; eauto 6 with keep.
Qed.

(** The wrapping of a failure writes a dump only when crash recovery is
    on. *)
Lemma keeps_propagate {A} (I : Machine -> Prop) (e : exn) (i : Z) :
  survives_dump I -> keeps I (@_propagate_exception _ _ _ _ _ A e i).
Proof.
  intros Hd. unfold _propagate_exception.
  apply keeps_bind; [apply keeps_gets|intros s].
  apply keeps_bind; [apply keeps_lift|intros node].
  apply keeps_bind; [|intros e'; apply keeps_raise].
  intros m Hm. rewrite exception_init_run. cbn [snd]. unfold crashed.
  destruct (truthy (_crash_recovery (self m))) eqn:Hrec; [|exact Hm].
  assert (Hw : forall name fresh, I (write_file name fresh m))
    by (intros; apply Hd; assumption).
  destruct (_crash_recovery (self m)); apply Hw.
Qed.

#[local] Hint Resolve keeps_for_in keeps_propagate : keep.

Lemma keeps_execute_seq (I : Machine -> Prop) (x : data) (nodenr : option Z) :
  settled I -> survives_dump I -> keeps I (_execute_seq x nodenr).
Proof. intros Hs Hd. unfold _execute_seq. eauto 12 with keep. Qed.

Lemma keeps_inverse_seq (I : Machine -> Prop) (x : data) :
  settled I -> survives_dump I -> keeps I (_inverse_seq x).
Proof. intros Hs Hd. unfold _inverse_seq. eauto 12 with keep. Qed.

#[local] Hint Resolve keeps_execute_seq keeps_inverse_seq : keep.

Lemma keeps_execute (I : Machine -> Prop) (it : exec_arg ndarray)
      (nodenr : option Z) :
  settled I -> survives_dump I -> keeps I (execute it nodenr).
Proof.
  intros Hs Hd. destruct it; cbn [execute]; unfold collect;
    eauto 12 with keep.
Qed.

Lemma keeps_inverse (I : Machine -> Prop) (it : exec_arg ndarray) :
  settled I -> survives_dump I -> keeps I (inverse it).
Proof.
  intros Hs Hd. destruct it; cbn [inverse]; unfold collect;
    eauto 12 with keep.
Qed.

Lemma keeps_train_pass (I : Machine -> Prop) (node : Node) (src : source)
      (i : Z) :
  settled I -> survives_dump I -> keeps I (train_pass node src i).
Proof. intros Hs Hd. unfold train_pass. eauto 12 with keep. Qed.

#[local] Hint Resolve keeps_train_pass : keep.

Lemma keeps_train_phases (I : Machine -> Prop) (fuel : nat) (node : Node)
      (src : source) (i : Z) :
  settled I -> survives_dump I -> keeps I (train_phases fuel node src i).
Proof.
  intros Hs Hd. induction fuel as [|fuel IH]; cbn [train_phases];
    eauto 12 with keep.
Qed.

#[local] Hint Resolve keeps_train_phases : keep.

Lemma keeps_train_node (I : Machine -> Prop) (fuel : nat) (src : source)
      (i : Z) :
  settled I -> survives_dump I -> keeps I (_train_node fuel src i).
Proof. intros Hs Hd. unfold _train_node. eauto 15 with keep. Qed.

#[local] Hint Resolve keeps_train_node : keep.

(** What a flow prints, it prints when it is verbose. *)
Lemma keeps_announce {A} (I : Machine -> Prop) (line : Flow -> Op unit)
      (rest : Op A) :
  (forall m, I m -> truthy (verbose (self m)) = true -> I (line (self m) m).2) ->
  keeps I rest ->
  keeps I (s <- gets self ;;
           when (truthy (verbose s)) (line s) ;;; rest).
Proof.
  intros Hline Hrest m Hm. unfold bind at 1, gets at 1. cbn [fst snd].
  apply keeps_bind_at; [|intros _; exact Hrest].
  destruct (truthy (verbose (self m))) eqn:Hv; cbn [when].
  - apply Hline; assumption.
  - exact Hm.
Qed.

Lemma keeps_close_last (I : Machine -> Prop) :
  settled I -> survives_print I -> survives_dump I -> keeps I _close_last_node.
Proof.
  intros Hs Hp Hd. unfold _close_last_node.
  apply (keeps_announce I
           (fun _ => print "Close the training phase of the last node")).
  - intros m Hm Hv. apply Hp; assumption.
  - eauto 15 with keep.
Qed.

Lemma keeps_train_step (I : Machine -> Prop) (fuel : nat)
      (its : list source) (i : Z) :
  settled I -> survives_print I -> survives_dump I ->
  keeps I (train_step fuel its i).
Proof.
  intros Hs Hp Hd. unfold train_step.
  apply (keeps_announce I
           (fun s => node <- lift (list_getitem (flow s) i) ;;
                     w <- gets world ;;
                     print (msg_training i (node_str node w)))).
  - intros m Hm Hv. unfold bind at 1, lift at 1.
    destruct (list_getitem _ _); cbn [snd]; try exact Hm.
    apply Hp; assumption.
  - apply keeps_bind; [apply keeps_lift|intros iter].
    apply keeps_bind; [apply keeps_train_node; assumption|intros _].
    intros m Hm. unfold bind at 1, gets at 1. cbn [fst snd].
    destruct (truthy (verbose (self m))) eqn:Hv; cbn [when].
    + apply Hp; assumption.
    + exact Hm.
Qed.

Lemma keeps_check_iterators (I : Machine -> Prop) (args : iterators_arg ndarray) :
  keeps I (_train_check_iterators args).
Proof. intros m Hm. rewrite check_iterators_run. exact Hm. Qed.

Lemma keeps_train_units (I : Machine -> Prop) (fuel : nat) (its : list source) :
  settled I -> survives_print I -> survives_dump I ->
  keeps I (train_units fuel its).
Proof.
  intros Hs Hp Hd. unfold train_units.
  apply keeps_bind; [apply keeps_gets|intros s].
  apply keeps_for_each. intros i. apply keeps_train_step; assumption.
Qed.

Lemma keeps_train (I : Machine -> Prop) (fuel : nat)
      (args : iterators_arg ndarray) :
  settled I -> survives_print I -> survives_dump I ->
  keeps I (train fuel args).
Proof.
  intros Hs Hp Hd. unfold train.
  apply keeps_bind; [apply keeps_check_iterators|intros its].
  apply keeps_bind; [apply keeps_train_units; assumption|intros _].
  apply keeps_close_last; assumption.
Qed.

(** ** The three invariants *)

Lemma same_flow_invariant (s : Flow) :
  settled (same_flow s : Machine -> Prop) /\
  survives_print (same_flow s : Machine -> Prop) /\
  survives_dump (same_flow s : Machine -> Prop).
Proof.
  unfold settled, survives_print, survives_dump, same_flow.
  repeat split; intros; assumption.
Qed.

Lemma undumped_invariant (m0 : Machine) :
  settled (undumped m0) /\ survives_print (undumped m0) /\
  survives_dump (undumped m0).
Proof.
  unfold settled, survives_print, survives_dump, undumped.
  repeat split; intros; try tauto.
  all: cbn [self write_file] in *; destruct H as [Hoff _]; congruence.
Qed.

Lemma silent_invariant (m0 : Machine) :
  settled (silent m0) /\ survives_print (silent m0) /\
  survives_dump (silent m0).
Proof.
  unfold settled, survives_print, survives_dump, silent.
  repeat split; intros; try tauto.
  all: cbn [self add_line] in *; destruct H as [Hoff _]; congruence.
Qed.

Lemma unprinted_invariant (lines : list string) :
  settled (fun m : Machine => stdout m = lines) /\
  survives_dump (fun m : Machine => stdout m = lines).
Proof.
  unfold settled, survives_dump. repeat split; intros; assumption.
Qed.

(** X20. Training, execution and inversion never modify the flow
    object: whatever their outcome, the list of nodes, the verbosity,
    the crash recovery setting and the other attributes of the flow are
    as before. *)
Theorem X20_flow_object_untouched (fuel : nat) (args : iterators_arg ndarray)
        (it : exec_arg ndarray) (nodenr : option Z) (m : Machine) :
  self (train fuel args m).2 = self m /\
  self (execute it nodenr m).2 = self m /\
  self (__call__ it nodenr m).2 = self m /\
  self (inverse it m).2 = self m.
Proof.
  destruct (same_flow_invariant (self m)) as (Hs & Hp & Hd).
  split; [|split; [|split]].
  - apply (keeps_train (same_flow (self m)) fuel args Hs Hp Hd m). reflexivity.
  - apply (keeps_execute (same_flow (self m)) it nodenr Hs Hd m). reflexivity.
  - apply (keeps_execute (same_flow (self m)) it nodenr Hs Hd m). reflexivity.
  - apply (keeps_inverse (same_flow (self m)) it Hs Hd m). reflexivity.
Qed.

Lemma undumped_start (state : pyval Node) (m : Machine) :
  truthy state = false -> undumped m (set_crash_recovery state m).2.
Proof. intros H. unfold undumped. cbn. repeat split. exact H. Qed.

(** X21. Crash recovery is off for every setting that is false: zero,
    [None], the empty string. After [set_crash_recovery] with such a
    setting, training, execution and inversion never write a file,
    whatever their outcome: the files are those that were there, and no
    temporary file name is used up. *)
Theorem X21_no_dump_without_crash_recovery
        (state : pyval Node) (fuel : nat) (args : iterators_arg ndarray)
        (it : exec_arg ndarray) (nodenr : option Z) (m : Machine) :
  truthy state = false ->
  let unwritten (m' : Machine) :=
    files m' = files m /\ tmp_counter m' = tmp_counter m in
  unwritten ((set_crash_recovery state ;;; train fuel args) m).2 /\
  unwritten ((set_crash_recovery state ;;; execute it nodenr) m).2 /\
  unwritten ((set_crash_recovery state ;;; inverse it) m).2.
Proof.
  intros Hoff unwritten. subst unwritten. cbv beta.
  destruct (undumped_invariant m) as (Hs & Hp & Hd).
  pose proof (undumped_start state m Hoff) as H0.
  split; [|split].
  - apply (keeps_bind_at (undumped m) (set_crash_recovery state)
             (fun _ => train fuel args) m H0).
    intros _. apply keeps_train; assumption.
  - apply (keeps_bind_at (undumped m) (set_crash_recovery state)
             (fun _ => execute it nodenr) m H0).
    intros _. apply keeps_execute; assumption.
  - apply (keeps_bind_at (undumped m) (set_crash_recovery state)
             (fun _ => inverse it) m H0).
    intros _. apply keeps_inverse; assumption.
Qed.

(** X22. A flow that is not verbose prints nothing while it is
    trained, and execution and inversion never print, verbose or not. *)
Theorem X22_quiet_flow_prints_nothing
        (fuel : nat) (args : iterators_arg ndarray)
        (it : exec_arg ndarray) (nodenr : option Z) (m : Machine) :
  (truthy (verbose (self m)) = false ->
   stdout (train fuel args m).2 = stdout m) /\
  stdout (execute it nodenr m).2 = stdout m /\
  stdout (inverse it m).2 = stdout m.
Proof.
  destruct (unprinted_invariant (stdout m)) as (Hs & Hd).
  split; [|split].
  - intros Hquiet. destruct (silent_invariant m) as (Hs' & Hp' & Hd').
    apply (keeps_train (silent m) fuel args Hs' Hp' Hd' m).
    split; [exact Hquiet|reflexivity].
  - apply (keeps_execute _ it nodenr Hs Hd m). reflexivity.
  - apply (keeps_inverse _ it Hs Hd m). reflexivity.
Qed.
(** ** Training without checkpoints *)

(** Two loop bodies that agree on the machines of an invariant give
    the same loop. *)
Lemma for_each_agree {A} (I : Machine -> Prop) (xs : list A)
      (f g : A -> Op unit) :
  (forall x, x ∈ xs -> forall m, I m -> f x m = g x m) ->
  (forall x, keeps I (g x)) ->
  forall m, I m -> for_each xs f m = for_each xs g m.
Proof.
  intros Hfg Hg. induction xs as [|x xs IH]; intros m Hm; [reflexivity|].
  cbn [for_each]. unfold bind.
  rewrite (Hfg x) by (exact Hm || left).
  pose proof (Hg x m Hm) as Hm1.
  destruct (g x m) as [[[]|e|] m1]; cbn [snd] in Hm1; try reflexivity.
  apply IH; [|exact Hm1].
  intros y Hy. apply Hfg. right. exact Hy.
Qed.

Lemma list_getitem_replicate {A} (n : nat) (x : A) (i : Z) :
  0 <= i < Z.of_nat n -> list_getitem (replicate n x) i = Ok x.
Proof.
  intros Hi. apply list_getitem_at; [lia|].
  apply lookup_replicate_2. lia.
Qed.

Lemma checkpoint_step_without (fuel : nat) (its : list source) (i : Z)
      (m : Machine) :
  0 <= i < len (flow (self m)) ->
  truthy (verbose (self m)) = false ->
  checkpoint_step fuel its (replicate (length (flow (self m))) None) i m =
  train_step fuel its i m.
Proof.
  intros Hi Hquiet.
  destruct (ContainerLaws.list_getitem_in (flow (self m)) i) as (node & _ & Hget).
  { unfold out_of_range. lia. }
  assert (Hle : (i <=? len (replicate (length (flow (self m))) (@None Checkpoint)))
                = true).
  { apply Z.leb_le. unfold len in *. rewrite length_replicate. lia. }
  transitivity ((iter <- lift (list_getitem its i) ;;
                 _train_node fuel iter i ;;; leaving) m).
  - unfold checkpoint_step. run_gets. run_lift. rewrite Hget, Hquiet.
    cbn [when]. unfold bind at 1, ret at 1.
    rewrite Hle, list_getitem_replicate by (unfold len in Hi; lia).
    unfold leaving, bind, lift, ret.
    destruct (list_getitem its i) as [iter| |]; reflexivity.
  - symmetry. unfold train_step. run_gets. rewrite Hquiet. reflexivity.
Qed.

(** X23. [CheckpointFlow.train] without checkpoint functions is
    [Flow.train]: with [None] in place of the checkpoints, or a list of
    [None] for every node, a flow that is not verbose is trained exactly
    as by [train], with the same result and the same final machine. *)
Theorem X23_no_checkpoints_is_train (fuel : nat) (args : iterators_arg ndarray)
        (m : Machine) :
  truthy (verbose (self m)) = false ->
  CheckpointFlow_train fuel args (CkSingle None) m = train fuel args m /\
  CheckpointFlow_train fuel args
    (CkList (replicate (length (flow (self m))) None)) m = train fuel args m.
Proof.
  intros Hquiet.
  assert (Hunits : forall its,
             checkpoint_units fuel its (replicate (length (flow (self m))) None) m
             = train_units fuel its m).
  { intros its. unfold checkpoint_units, train_units. run_gets.
    destruct (same_flow_invariant (self m)) as (Hs & Hp & Hd).
    apply (for_each_agree (same_flow (self m))).
    - intros i Hi m' Hm'. unfold same_flow in Hm'.
      apply elem_of_seqZ in Hi.
      rewrite <- Hm'. apply checkpoint_step_without.
      + rewrite Hm'. lia.
      + rewrite Hm'. exact Hquiet.
    - intros i. apply keeps_train_step; assumption.
    - reflexivity. }
  assert (Hcks : forall cks,
             validated_checkpoints cks m =
             Ok (replicate (length (flow (self m))) None) ->
             CheckpointFlow_train fuel args cks m = train fuel args m).
  { intros cks Hv. unfold CheckpointFlow_train, train. unfold bind at 1 4.
    rewrite check_iterators_run.
    destruct (validated args m) as [its| |]; try reflexivity.
    unfold bind at 1. rewrite check_checkpoints_run, Hv.
    unfold bind. rewrite Hunits. reflexivity. }
  assert (Hlen : (len (replicate (length (flow (self m))) (@None Checkpoint))
                  =? len (flow (self m))) = true).
  { apply Z.eqb_eq. unfold len. rewrite length_replicate. reflexivity. }
  split; apply Hcks; unfold validated_checkpoints; rewrite Hlen; reflexivity.
Qed.
(** ** Execution up to a node, and the slice up to that node *)

Lemma simulates_ret (s s' : Flow) {A} (a : A) :
  simulates s s' (ret a : Op A) (ret a).
Proof. intros m Hm. split; [reflexivity|exact Hm]. Qed.

Lemma simulates_lift (s s' : Flow) {A} (r : result A) :
  simulates s s' (lift r : Op A) (lift r).
Proof. intros m Hm. split; [reflexivity|exact Hm]. Qed.

Lemma simulates_raise (s s' : Flow) {A} (e : exn) :
  simulates s s' (@raise Machine A e) (raise e).
Proof. intros m Hm. split; [reflexivity|exact Hm]. Qed.

Lemma simulates_bind (s s' : Flow) {A B} (a a' : Op A) (k k' : A -> Op B) :
  simulates s s' a a' -> (forall x, simulates s s' (k x) (k' x)) ->
  simulates s s' (bind a k) (bind a' k').
Proof.
  intros Ha Hk m Hm. destruct (Ha m Hm) as [Hrun Hself].
  unfold bind. rewrite Hrun.
  destruct (a m) as [[x|e|] m1]; cbn [fst snd] in *;
    try (split; [reflexivity|exact Hself]).
  apply Hk, Hself.
Qed.

Lemma simulates_try (s s' : Flow) {A} (body body' : Op A) (h h' : exn -> Op A) :
  simulates s s' body body' -> (forall e, simulates s s' (h e) (h' e)) ->
  simulates s s' (try_except body h) (try_except body' h').
Proof.
  intros Hb Hh m Hm. destruct (Hb m Hm) as [Hrun Hself].
  unfold try_except. rewrite Hrun.
  destruct (body m) as [[x|e|] m1]; cbn [fst snd] in *;
    try (split; [reflexivity|exact Hself]).
  apply Hh, Hself.
Qed.

(** Each flow reads itself. *)
Lemma simulates_self (s s' : Flow) {B} (k k' : Flow -> Op B) :
  simulates s s' (k s) (k' s') ->
  simulates s s' (bind (gets self) k) (bind (gets self) k').
Proof.
  intros Hk m Hm. unfold bind, gets. cbn [self set_self]. rewrite Hm.
  apply Hk, Hm.
Qed.

Lemma simulates_call (s s' : Flow) {A} (f : World -> result A * World) :
  simulates s s' (call f : Op A) (call f).
Proof.
  intros m Hm. rewrite !call_run. cbn [fst snd world self set_self set_world].
  split; [reflexivity|exact Hm].
Qed.

Lemma simulates_advance (s s' : Flow) (g : nat) (rest : list data) :
  simulates s s' (modify (set_iterator g rest) : Op unit)
                 (modify (set_iterator g rest)).
Proof. intros m Hm. split; [reflexivity|exact Hm]. Qed.

Lemma simulates_for_fold (s s' : Flow) {A B} (xs : list A)
      (body body' : A -> B -> Op B) :
  (forall x, x ∈ xs -> forall acc, simulates s s' (body x acc) (body' x acc)) ->
  forall acc, simulates s s' (for_fold xs acc body) (for_fold xs acc body').
Proof.
  induction xs as [|x xs IH]; intros Hb acc; cbn [for_fold].
  - apply simulates_ret.
  - apply simulates_bind; [apply Hb; left|intros acc'].
    apply IH. intros y Hy. apply Hb. right. exact Hy.
Qed.

Lemma simulates_iterate (s s' : Flow) {B} (adv : list data -> Op unit)
      (xs : list data) (body body' : data -> B -> Op B) :
  (forall rest, simulates s s' (adv rest) (adv rest)) ->
  (forall x acc, simulates s s' (body x acc) (body' x acc)) ->
  forall acc,
    simulates s s' (iterate_items adv xs acc body) (iterate_items adv xs acc body').
Proof.
  intros Ha Hb. induction xs as [|x xs IH]; intros acc; cbn [iterate_items].
  - apply simulates_ret.
  - apply simulates_bind; [apply Ha|intros _].
    apply simulates_bind; [apply Hb|intros acc']. apply IH.
Qed.

Lemma simulates_for_in (s s' : Flow) {B} (src : source) (acc : B)
      (body body' : data -> B -> Op B) :
  (forall x acc, simulates s s' (body x acc) (body' x acc)) ->
  simulates s s' (for_in src acc body) (for_in src acc body').
Proof.
  intros Hb. destruct src as [|items|g|g|t]; cbn [for_in];
    try apply simulates_raise.
  - apply simulates_iterate; [intros; apply simulates_ret|exact Hb].
  - intros m Hm. unfold bind at 1 2 3, get. cbn [iterators set_self].
    apply simulates_iterate; [apply simulates_advance|exact Hb|exact Hm].
  - intros m Hm. unfold bind at 1 2 3, get. cbn [iterators set_self].
    apply simulates_iterate; [apply simulates_advance|exact Hb|exact Hm].
Qed.

(** Two flows without crash recovery that hold the same node at an index
    wrap a failure at that index alike. *)
Lemma simulates_propagate (s s' : Flow) {A} (e : exn) (i : Z) :
  truthy (_crash_recovery s) = false ->
  truthy (_crash_recovery s') = false ->
  list_getitem (flow s') i = list_getitem (flow s) i ->
  simulates s s' (@_propagate_exception _ _ _ _ _ A e i)
                 (_propagate_exception e i).
Proof.
  intros Hoff Hoff' Hnode. unfold _propagate_exception.
  apply simulates_self. rewrite Hnode.
  apply simulates_bind; [apply simulates_lift|intros node].
  apply simulates_bind; [|intros e'; apply simulates_raise].
  unfold FlowExceptionCR_init. apply simulates_self.
  rewrite Hoff, Hoff'. apply simulates_ret.
Qed.

Lemma list_getitem_take {A} (l : list A) (n : nat) (i : Z) :
  0 <= i < Z.of_nat n -> i < len l ->
  list_getitem (take n l) i = list_getitem l i.
Proof.
  intros Hi Hl.
  destruct (ContainerLaws.list_getitem_in l i) as (x & Hx & ->).
  { unfold out_of_range. lia. }
  unfold position_of in Hx. destruct (Z.ltb_spec i 0); [lia|].
  apply list_getitem_at; [lia|].
  rewrite lookup_take_lt by lia. exact Hx.
Qed.

(** The loop of [_execute_seq] up to [k], run by a flow and by the flow
    of its first [k + 1] nodes. *)
Lemma simulates_execute_seq (s s' : Flow) (k : Z) (x : data) :
  0 <= k < len (flow s) ->
  flow s' = take (Z.to_nat (k + 1)) (flow s) ->
  truthy (_crash_recovery s) = false ->
  truthy (_crash_recovery s') = false ->
  simulates s s' (_execute_seq x (Some k)) (_execute_seq x None).
Proof.
  intros Hk Hfl Hoff Hoff'. unfold _execute_seq.
  apply simulates_self.
  assert (Hlen : len (flow s') - 1 + 1 = k + 1).
  { rewrite Hfl. unfold len in *. rewrite length_take. lia. }
  rewrite Hlen.
  apply simulates_for_fold. intros i Hi acc.
  apply elem_of_seqZ in Hi.
  assert (Hnode : list_getitem (flow s') i = list_getitem (flow s) i).
  { rewrite Hfl. apply list_getitem_take; lia. }
  rewrite Hnode.
  apply simulates_try.
  - apply simulates_bind; [apply simulates_lift|intros node].
    apply simulates_call.
  - intros e. apply simulates_propagate; assumption.
Qed.

Lemma simulates_execute (s s' : Flow) (k : Z) (it : exec_arg ndarray) :
  0 <= k < len (flow s) ->
  flow s' = take (Z.to_nat (k + 1)) (flow s) ->
  truthy (_crash_recovery s) = false ->
  truthy (_crash_recovery s') = false ->
  simulates s s' (execute it (Some k)) (execute it None).
Proof.
  intros Hk Hfl Hoff Hoff'.
  destruct it as [a|src]; cbn [execute].
  - apply simulates_execute_seq; assumption.
  - apply simulates_bind; [|intros res; apply simulates_lift].
    unfold collect. apply simulates_for_in. intros x acc.
    apply simulates_bind; [|intros y; apply simulates_ret].
    apply simulates_execute_seq; assumption.
Qed.

(** X24. Executing a flow up to node [k] is calling its slice up to
    that node, as the documentation of [execute] has it, when [k] is an
    index of the flow, from zero, and the flow has no crash recovery:
    for a consistent flow the slice [flow[:k+1]] exists, and called on
    the same input, in the state after the slicing or in any other state
    of the machine with that flow, it gives the result of
    [execute(input, k)] and has the same effects. *)
Theorem X24_execute_upto_is_call_of_slice (k : Z) (it : exec_arg ndarray)
        (m : Machine) :
  consistent m ->
  0 <= k < len (flow (self m)) ->
  truthy (_crash_recovery (self m)) = false ->
  exists sub,
    __getitem__ (slice_upto (k + 1)) m =
      (Ok (ObjFlow sub), constructed (__class__ (self m)) m) /\
    forall m0 : Machine,
      self m0 = self m ->
      __call__ it None (set_self sub m0) =
      ((execute it (Some k) m0).1, set_self sub (execute it (Some k) m0).2).
Proof.
  intros Hm Hk Hoff.
  pose proof (ContainerLaws.getitem_unit_step None (Some (k + 1)) None m Hm
                ltac:(left; reflexivity)) as Hslice.
  eexists. split; [exact Hslice|].
  intros m0 H0. unfold __call__.
  refine (proj1 (simulates_execute (self m) _ k it Hk _ Hoff _ m0 H0));
    [|reflexivity].
  cbn [flow]. cbn [clip_bound].
  change (Z.to_nat 0) with 0%nat. cbn [drop].
  change (1 <? 0) with false. cbv iota.
  f_equal.
  destruct (Z.ltb_spec (k + 1) 0); [lia|].
  destruct (Z.ltb_spec (k + 1) 0); [lia|].
  destruct (Z.leb_spec (len (flow (self m))) (k + 1)); lia.
Qed.
(** ** Execution and inversion *)

Lemma inverts_app (l1 l2 : list Node) (x : data) (w : World) (y : data)
      (w1 : World) (z : data) (w2 : World) :
  inverts l1 x w y w1 -> inverts l2 y w1 z w2 -> inverts (l1 ++ l2) x w z w2.
Proof.
  induction 1 as [|n rest x w y w1 y' w1' Hn Hrest IH]; [exact id|].
  intros H2. cbn [app]. econstructor; [exact Hn|]. apply IH, H2.
Qed.

(** What invertible nodes have transformed, they invert, the last node
    first. *)
Lemma applies_inverts (l : list Node) (x : data) (w : World) (y : data)
      (w1 : World) :
  Forall invertible l ->
  applies l x w y w1 ->
  forall w2, exists w3, inverts (reverse l) y w2 x w3.
Proof.
  intros Hinv Happ.
  induction Happ as [x w|n rest x w y w1 z w2 Hn Hrest IH]; intros w'.
  - exists w'. constructor.
  - pose proof (Forall_inv Hinv) as Hn_inv.
    pose proof (Forall_inv_tail Hinv) as Hrest_inv.
    destruct (IH Hrest_inv w') as (w3 & Hback).
    destruct (Hn_inv x w y w1 Hn w3) as (w4 & Hn_back).
    exists w4. rewrite reverse_cons. eapply inverts_app; [exact Hback|].
    econstructor; [exact Hn_back|constructor].
Qed.

(** X25. Inversion undoes execution: when the inverse of every node of
    the flow undoes the transform of the node, and [execute] has turned
    an array into another, [inverse] turns that one back into the first,
    changing nothing but the state of the nodes. *)
Theorem X25_inverse_undoes_execute (a b : ndarray) (m m1 : Machine) :
  Forall invertible (flow (self m)) ->
  execute (ExArray a) None m = (Ok (Array b), m1) ->
  exists w, inverse (ExArray b) m1 = (Ok (Array a), set_world w m1).
Proof.
  intros Hinv Hrun. cbn [execute] in Hrun.
  destruct (execute_seq_applies (Array a) None m ltac:(discriminate)) as [_ H2].
  destruct (H2 _ _ Hrun) as (w' & -> & Happ). cbn [units_upto] in Happ.
  destruct (applies_inverts _ _ _ _ _ Hinv Happ w') as (w3 & Hback).
  exists w3. cbn [inverse].
  destruct (inverse_seq_inverts (Array b) (set_world w' m)) as [H1 _].
  apply H1. exact Hback.
Qed.

End Laws.
End EngineLaws.

(** * Laws of the checkpoint functions *)

Module CheckpointLaws.
Import Py Model Checkpoints.
Local Open Scope py_scope.

Section Laws.
Context {Node World ndarray Checkpoint : Type}.
Context {U : Units Node World ndarray Checkpoint}.

Abbreviation Disk := (Disk Node World).
Abbreviation CheckpointSaveFunction := (CheckpointSaveFunction Node).


End Laws.
End CheckpointLaws.

(** ** The container methods on the concrete nodes *)

Module ContainerExamples.
Import Py Model Container Example.

Lemma C1_witness :
  run (MAppend (ObjNode 2%nat)) m_chain =
  (Raise (ValueError "dimensions mismatch: 6 != 5"), m_chain).
Proof.
  destruct (ContainerFacts.C1_mutation_checked_then_committed
              (MAppend (ObjNode 2%nat)) m_chain [0; 1; 2]%nat) as [Hrej _].
  - reflexivity.
  - repeat constructor; discriminate.
  - destruct Hrej as (o & d & Hc & Hr).
    + exists 6, 5, 1%nat, 1%nat, 2%nat.
      repeat split; try reflexivity. discriminate.
    + unfold rejected in Hr. rewrite Hr.
      destruct Hc as (i & a & b & Ha & Hb & Ho & Hd & Hne).
      destruct i as [|[|i]].
      * injection Ha as <-. injection Hb as <-.
        vm_compute in Ho, Hd. congruence.
      * injection Ha as <-. injection Hb as <-.
        vm_compute in Ho, Hd. injection Ho as <-. injection Hd as <-.
        reflexivity.
      * destruct i; discriminate.
Defined.

Lemma C9_witness :
  extend (ObjOther "int") m_chain =
  (Raise (TypeError (msg_concatenate (ObjOther "int"))), m_chain).
Proof.
  apply (proj1 (proj2 (ContainerFacts.C9_operand_kind_checked
                         (ObjOther "int") m_chain))).
  reflexivity.
Defined.

Lemma C10_witness :
  (~ violates (world m_strided) [0; 2]%nat ->
   __getitem__ (KSlice (Slice None None (Some 2))) m_strided =
   (Ok (ObjFlow (mkFlow ClsCheckpointFlow [0; 2]%nat (VInt 0) (VInt 0) ∅)),
    m_strided)) /\
  (violates (world m_strided) [0; 2]%nat ->
   exists o d, conflict (world m_strided) [0; 2]%nat o d /\
               __getitem__ (KSlice (Slice None None (Some 2))) m_strided =
               (Raise (ValueError (msg_dimensions o d)), m_strided)).
Proof.
  apply (proj1 (ContainerFacts.C10_getitem m_strided)
               (Slice None None (Some 2)) [0; 2]%nat).
  - reflexivity.
  - repeat constructor; discriminate.
Defined.

End ContainerExamples.

(** ** Training and execution on the concrete nodes *)

Module EngineExamples.
Import Py Model Engine Example.

Lemma C6_witness :
  exists w',
    execute (ExArray [1; 2]) None m_chain =
    (Ok (Array [4; 5]), set_world w' m_chain).
Proof.
  eexists.
  apply (proj1 (EngineFacts.C6_execute_sequential m_chain None
                  ltac:(discriminate))).
  eapply applies_cons; [vm_compute; reflexivity|].
  eapply applies_cons; [vm_compute; reflexivity|].
  apply applies_nil.
Defined.

(** An iterator object that is not a generator can be traversed only
    once, its node has two training phases, and yet validation accepts it:
    the call is not rejected, it trains the node, uses up the iterator in
    the first phase and runs the second phase on nothing. *)
Lemma C3_counterexample :
  single_pass (SrcIterator 0 : source (list Z)) = true /\
  1 < train_seq_len 0%nat (world m_two_phases) /\
  validated (ItList [SrcIterator 0]) m_two_phases = Ok [SrcIterator 0] /\
  ~ (exists msg, train 3 (ItList [SrcIterator 0]) m_two_phases =
                 (Raise (FlowException msg), m_two_phases)) /\
  (train 3 (ItList [SrcIterator 0]) m_two_phases).1 = Ok tt /\
  iterators (train 3 (ItList [SrcIterator 0]) m_two_phases).2 !! 0%nat = Some [] /\
  log (world (train 3 (ItList [SrcIterator 0]) m_two_phases).2) =
  [ETrain 0 (Array [1]) []; EStop 0; EStop 0].
Proof.
  assert (Hrun : (train 3 (ItList [SrcIterator 0]) m_two_phases).1 = Ok tt)
    by (vm_compute; reflexivity).
  repeat split; try (vm_compute; reflexivity).
  intros [msg Hmsg]. rewrite Hmsg in Hrun. discriminate.
Qed.

Lemma C3_witness :
  (exists msg,
      train 3 (ItList [SrcGenerator 0]) m_two_phases =
      (Raise (FlowException msg), m_two_phases) /\
      forall cks,
        CheckpointFlow_train 3 (ItList [SrcGenerator 0]) cks m_two_phases =
        (Raise (FlowException msg), m_two_phases)) /\
  (first_not_iterable 0 [SrcGenerator 0 : source (list Z)] = None ->
   len [SrcGenerator 0 : source (list Z)] = len (flow (self m_two_phases)) ->
   exists k, 0 <= k <= Z.of_nat 0 /\
             first_generator (world m_two_phases) 0 (flow (self m_two_phases))
                             [SrcGenerator 0] = Some k /\
             train 3 (ItList [SrcGenerator 0]) m_two_phases =
             (Raise (FlowException (err_generator k)), m_two_phases)).
Proof.
  apply (EngineFacts.C3_generator_rejected 3 [SrcGenerator 0] m_two_phases
           0%nat 0%nat 0%nat).
  - reflexivity.
  - reflexivity.
  - vm_compute. reflexivity.
Defined.

Lemma C4_witness :
  exists msg,
    _train_node 1 SrcNone 0 m_trained =
    (Raise (FlowExceptionCR msg (TypeError "'NoneType' object is not iterable")
                            (dump_name m_trained)),
     crashed m_trained).
Proof.
  apply (proj2 (proj2 (EngineFacts.C4_none_source 0 0 0%nat m_trained
                         ltac:(reflexivity)))).
  - reflexivity.
  - reflexivity.
Defined.

(** The same through [train]: [None] for a trainable node whose training
    is over makes the call fail. *)
Lemma train_none_for_trained_node :
  exists msg,
    train 1 (ItList [SrcNone]) m_trained =
    (Raise (FlowExceptionCR msg (TypeError "'NoneType' object is not iterable")
                            None),
     m_trained).
Proof. eexists. vm_compute. reflexivity. Qed.

Lemma C8_witness :
  train 2 (ItList [SrcList [Array [1]]]) m_single =
  (Ok tt,
   set_world (ex_stop_training 0
                (world (train_units 2 [SrcList [Array [1]]] m_single).2)).2
             (announced (train_units 2 [SrcList [Array [1]]] m_single).2)).
Proof.
  destruct (EngineFacts.C8_last_unit_closed 2
              (ItList [SrcList [Array [1]]]) [SrcList [Array [1]]]
              m_single (train_units 2 [SrcList [Array [1]]] m_single).2
              0%nat) as [Hclosed _].
  - vm_compute. reflexivity.
  - vm_compute. reflexivity.
  - reflexivity.
  - apply Hclosed. vm_compute. reflexivity.
Defined.

Lemma C5_witness :
  exists msg inner_msg,
    let inner :=
      FlowExceptionCR inner_msg boom
                      (dump_name (set_world (world m_failing) m_failing)) in
    _train_node 1 (SrcList [Array [3]]) 1 m_failing =
    (Raise (FlowExceptionCR msg inner
              (dump_name (crashed (set_world (world m_failing) m_failing)))),
     crashed (crashed (set_world (world m_failing) m_failing))) /\
    inner <> boom /\
    contains inner_msg (pretty 0) /\
    contains inner_msg (node_type_name 0%nat) /\
    contains msg (pretty (Z.of_nat 1)) /\
    contains msg (node_type_name 1%nat).
Proof.
  apply (EngineFacts.C5_upstream_failure_wrapped_twice 0 1 1%nat 0%nat [3] []
           (world m_failing) boom m_failing).
  - lia.
  - reflexivity.
  - reflexivity.
  - reflexivity.
  - reflexivity.
Defined.

(** The failing input of C5 through [train]: the error that reaches the
    caller names node 1, its parent is the wrapper for node 0, and two
    dumps have been written. *)
Lemma train_upstream_failure :
  exists msg inner_msg m',
    train 1 (ItList [SrcList [Array [3]]; SrcList [Array [3]]]) m_failing =
    (Raise (FlowExceptionCR msg
              (FlowExceptionCR inner_msg boom (Some "MDPcrash_0.pic"))
              (Some "MDPcrash_1.pic")), m') /\
    size (files m') = 2%nat.
Proof. do 3 eexists. vm_compute. split; reflexivity. Qed.



End EngineExamples.

(** ** The laws of the container on the concrete nodes *)

Module ContainerLawExamples.
Import Py Model Container Example.

Lemma X1_witness :
  consistent (run (MAppend (ObjNode 2%nat)) m_line).2 /\
  world (run (MAppend (ObjNode 2%nat)) m_line).2 = world m_line.
Proof.
  destruct (ContainerLaws.X1_operations_keep_consistency
              (MAppend (ObjNode 2%nat)) m_line) as (Hc & _ & Hw & _).
  - vm_compute. reflexivity.
  - split; [exact Hc|exact Hw].
Defined.

Lemma X2_witness :
  pop_last (append (ObjNode 2%nat) m_line).2 = (Ok (ObjNode 2%nat), m_line).
Proof.
  destruct (ContainerLaws.X2_append_then_pop
              (ObjNode 2%nat) m_line (append (ObjNode 2%nat) m_line).2 ObjNone)
    as (n & Hx & Hpop).
  - vm_compute. reflexivity.
  - injection Hx as <-. exact Hpop.
Defined.

Lemma X3_witness :
  __getitem__ (KInt 2) (insert 5 (ObjNode 2%nat) m_line).2 =
  (Ok (ObjNode 2%nat), (insert 5 (ObjNode 2%nat) m_line).2).
Proof.
  pose proof (ContainerLaws.X3_insert_position 5 (ObjNode 2%nat) m_line) as H.
  cbv zeta in H. destruct H as (_ & _ & _ & H).
  destruct (H ObjNone (insert 5 (ObjNode 2%nat) m_line).2)
    as (n & Hx & _ & Hget & _).
  - vm_compute. reflexivity.
  - injection Hx as <-. exact Hget.
Defined.

Lemma X4_witness :
  pop (KInt 1) (insert 1 (ObjNode 1%nat) m_checkpoint).2 =
  (Ok (ObjNode 1%nat), m_checkpoint).
Proof.
  destruct (ContainerLaws.X4_insert_then_pop
              1 (ObjNode 1%nat) m_checkpoint
              (insert 1 (ObjNode 1%nat) m_checkpoint).2 ObjNone)
    as (n & Hx & Hpop).
  - vm_compute. reflexivity.
  - unfold len. simpl. lia.
  - vm_compute. reflexivity.
  - injection Hx as <-. exact Hpop.
Defined.

Lemma X5_witness :
  extend (ObjFlow (mkFlow ClsFlow [2]%nat (VInt 0) (VInt 0) ∅)) m_line =
  (Ok ObjNone, set_self (set_flow [0; 1; 2]%nat (self m_line)) m_line).
Proof.
  destruct (proj1 (ContainerLaws.X5_extend_is_add_in_place
                     (ObjFlow (mkFlow ClsFlow [2]%nat (VInt 0) (VInt 0) ∅))
                     m_line)
                  (ObjFlow (mkFlow ClsFlow [0; 1; 2]%nat (VInt 0) (VInt 0) ∅))
                  m_line)
    as (f & o & Hr & _ & _ & _ & Hext).
  - vm_compute. reflexivity.
  - injection Hr as <-. exact Hext.
Defined.

Lemma X6_witness :
  pop (KInt 5) m_line = (Raise (IndexError "list index out of range"), m_line).
Proof.
  apply (ContainerLaws.X6_index_out_of_range 5 0%nat m_line).
  right. unfold len. simpl. lia.
Defined.

Lemma X7_witness :
  append ObjNone m_line =
  (Raise (TypeError "flow item must be Node instance"), m_line).
Proof.
  pose proof (ContainerLaws.X7_items_must_be_nodes ObjNone m_line eq_refl) as H.
  cbv zeta in H. exact (proj1 (proj2 (proj2 H))).
Defined.

Lemma X8_witness :
  __getitem__ (KSlice (Slice (Some 1) (Some 3) None)) m_strided =
  (Ok (ObjFlow (mkFlow ClsCheckpointFlow [1; 2]%nat (VInt 0) (VInt 0) ∅)),
   m_strided).
Proof.
  pose proof (ContainerLaws.X8_contiguous_slice
                (Some 1) (Some 3) None m_strided) as H.
  cbv zeta in H. apply H.
  - vm_compute. reflexivity.
  - left. reflexivity.
Defined.

Lemma X9_witness :
  exists b : bool,
    __contains__ 1%nat m_line = (Ok b, m_line) /\
    (b = true <->
     exists i, 0 <= i < len (flow (self m_line)) /\
               __getitem__ (KInt i) m_line = (Ok (ObjNode 1%nat), m_line)).
Proof. exact (ContainerLaws.X9_contains_agrees_with_getitem 1%nat m_line). Defined.

Lemma X10_witness :
  _check_nodes_consistency [0; 1]%nat m_zero =
  (Raise (TypeError "%d format: a number is required, not NoneType"), m_zero).
Proof.
  pose proof (ContainerLaws.X10_zero_dimension [] 0%nat 1%nat [] m_zero) as H.
  cbv zeta in H. apply H; reflexivity.
Defined.

Lemma X11_witness :
  __getitem__ (KInt 0) (__setitem__ (KInt 0) (ObjNode 1%nat) m_checkpoint).2 =
  (Ok (ObjNode 1%nat), (__setitem__ (KInt 0) (ObjNode 1%nat) m_checkpoint).2).
Proof.
  pose proof (ContainerLaws.X11_setitem_then_getitem
                0 (ObjNode 1%nat) m_checkpoint
                (__setitem__ (KInt 0) (ObjNode 1%nat) m_checkpoint).2 ObjNone) as H.
  cbv zeta in H. destruct H as (node & Hx & Hget & _).
  - vm_compute. reflexivity.
  - injection Hx as <-. exact Hget.
Defined.

Lemma X27_witness :
  flow (self (pop (KInt 0) m_line).2) = [1]%nat /\
  __len__ (pop (KInt 0) m_line).2 = (Ok 1, (pop (KInt 0) m_line).2).
Proof.
  assert (H : pop (KInt 0) m_line =
              (Ok (ObjNode 0%nat), (pop (KInt 0) m_line).2))
    by (vm_compute; reflexivity).
  pose proof (ContainerLaws.X27_pop_removes_item 0 m_line _ _ H) as L.
  cbv zeta in L. destruct L as (_ & _ & Hfl & Hlen).
  split; [exact Hfl|exact Hlen].
Defined.

Lemma X28_witness :
  __delitem__ (slice_from 1) m_line =
  (Ok ObjNone, set_self (set_flow [0]%nat (self m_line)) m_line).
Proof.
  assert (H : consistent m_line) by (vm_compute; reflexivity).
  pose proof (ContainerLaws.X28_delete_an_end 1 m_line H) as L.
  cbv zeta in L. exact (proj1 L).
Defined.

Lemma X29_witness :
  __getitem__ (slice_from 2)
    (set_self (mkFlow ClsFlow [0; 1; 2]%nat (VInt 0) (VInt 0) ∅) m_line) =
  (Ok (ObjFlow (mkFlow ClsFlow [2]%nat (VInt 0) (VInt 0) ∅)),
   set_self (mkFlow ClsFlow [0; 1; 2]%nat (VInt 0) (VInt 0) ∅) m_line).
Proof.
  destruct (ContainerLaws.X29_concatenation_splits
              (mkFlow ClsFlow [2]%nat (VInt 0) (VInt 0) ∅) m_line m_line
              (ObjFlow (mkFlow ClsFlow [0; 1; 2]%nat (VInt 0) (VInt 0) ∅)))
    as (f & Hr & L).
  - vm_compute. reflexivity.
  - injection Hr as <-. cbv zeta in L. exact (proj2 L).
Defined.

End ContainerLawExamples.

(** ** The laws of the engine on the concrete nodes *)

Module EngineLawExamples.
Import Py Model Container Engine Example.
Local Open Scope py_scope.

Lemma X12_witness :
  exists w',
    inverse (ExArray [4; 5]) m_line = (Ok (Array [1; 2]), set_world w' m_line).
Proof.
  eexists.
  apply (proj1 (proj1 (EngineLaws.X12_inverse_backwards m_line) [4; 5] _ _)).
  eapply inverts_cons; [vm_compute; reflexivity|].
  eapply inverts_cons; [vm_compute; reflexivity|].
  apply inverts_nil.
Defined.

Lemma X13_witness :
  exists msg filename m',
    execute (ExArray [3]) None m_failing =
    (Raise (FlowExceptionCR msg boom filename), m') /\
    world m' = world m_failing.
Proof.
  destruct (EngineLaws.X13_execute_failure_wrapped_once
              0%nat 0%nat None [3] (Array [3]) (world m_failing)
              (world m_failing) boom m_failing)
    as (msg & filename & m' & Hex & _ & _ & Hw & _).
  - reflexivity.
  - apply applies_nil.
  - reflexivity.
  - discriminate.
  - exists msg, filename, m'. split; [exact Hex|exact Hw].
Defined.

Lemma X14_witness :
  exists msg filename m',
    @inverse nat store (list Z) _ fragile (ExArray [3]) m_failing =
    (Raise (FlowExceptionCR msg boom filename), m') /\
    self m' = self m_failing.
Proof.
  destruct (@EngineLaws.X14_inverse_failure_wrapped_once
              nat store (list Z) _ fragile
              [] 0%nat [1%nat] [3] (Array [1])
              (ex_inverse 1 (Array [3]) (world m_failing)).2
              (ex_inverse 1 (Array [3]) (world m_failing)).2 boom m_failing)
    as (msg & filename & m' & Hex & _ & _ & _ & Hs & _).
  - reflexivity.
  - eapply inverts_cons; [vm_compute; reflexivity|]. apply inverts_nil.
  - vm_compute. reflexivity.
  - exists msg, filename, m'. split; [exact Hex|exact Hs].
Defined.

Lemma X15_witness :
  execute (ExArray [1; 2]) (Some (-2)) m_line = (Ok (Array [1; 2]), m_line).
Proof.
  apply (proj1 (EngineLaws.X15_execute_index_unchecked (-2) [1; 2] m_line)).
  lia.
Defined.

Lemma X16_witness :
  train 1 (ItList []) m_empty =
  (Raise (IndexError "list index out of range"), announced m_empty).
Proof.
  exact (proj1 (proj2 (proj2 (EngineLaws.X16_empty_flow 1 [] m_empty eq_refl)))).
Defined.

Lemma X17_witness :
  train 1 (ItList [SrcNone]) m_line =
  (Raise (FlowException (err_count 1 2)), m_line).
Proof.
  pose proof (EngineLaws.X17_training_arguments_checked 1 m_line) as H.
  cbv zeta beta in H. destruct H as (_ & _ & H).
  apply (H [SrcNone]).
  - repeat constructor.
  - unfold len. simpl. lia.
Defined.

Lemma X18_witness :
  _train_check_iterators (ItArray [1]) m_line =
  (Ok [SrcList [Array [1]]; SrcList [Array [1]]], m_line).
Proof.
  pose proof (EngineLaws.X18_array_for_every_node 1 [1] m_line) as H.
  cbv zeta in H. exact (proj1 H).
Defined.

Lemma X19_witness :
  _train_node 1 (SrcList [Array [1]]) 0 m_trained =
  (Ok tt, add_warning "MDPWarning" (wrn_finished 0) m_trained).
Proof.
  apply (proj2 (EngineLaws.X19_untrainable_nodes_warned
                  0 0%nat 0%nat m_trained eq_refl)
               (Array [1]) (Array [1]) [] [] (Array [1])
               (world m_trained) (world m_trained)
               (TrainingFinishedException
                  "The training phase has already finished.")).
  - reflexivity.
  - reflexivity.
  - apply applies_nil.
  - reflexivity.
  - reflexivity.
Defined.

Lemma X20_witness :
  self (train 1 (ItList [SrcList [Array [1]]]) m_single).2 = self m_single.
Proof.
  exact (proj1 (EngineLaws.X20_flow_object_untouched
                  1 (ItList [SrcList [Array [1]]]) (ExArray [1]) None m_single)).
Defined.

Lemma X21_witness :
  files ((set_crash_recovery (VInt 0) ;;; execute (ExArray [3]) None) m_failing).2
  = files m_failing.
Proof.
  pose proof (EngineLaws.X21_no_dump_without_crash_recovery
                (VInt 0) 1 (ItList []) (ExArray [3]) None m_failing eq_refl) as H.
  cbv zeta beta in H. exact (proj1 (proj1 (proj2 H))).
Defined.

Lemma X22_witness :
  stdout (train 1 (ItList [SrcList [Array [1]]]) m_single).2 = stdout m_single.
Proof.
  apply (proj1 (EngineLaws.X22_quiet_flow_prints_nothing
                  1 (ItList [SrcList [Array [1]]]) (ExArray [1]) None m_single)).
  reflexivity.
Defined.

Lemma X23_witness :
  CheckpointFlow_train 2 (ItList [SrcList [Array [1]]]) (CkSingle None) m_single =
  train 2 (ItList [SrcList [Array [1]]]) m_single.
Proof.
  apply (EngineLaws.X23_no_checkpoints_is_train
           2 (ItList [SrcList [Array [1]]]) m_single).
  reflexivity.
Defined.

Lemma X24_witness :
  exists sub,
    __getitem__ (slice_upto 1) m_line = (Ok (ObjFlow sub), m_line) /\
    __call__ (ExArray [1; 2]) None (set_self sub m_line) =
    ((execute (ExArray [1; 2]) (Some 0) m_line).1,
     set_self sub (execute (ExArray [1; 2]) (Some 0) m_line).2).
Proof.
  destruct (EngineLaws.X24_execute_upto_is_call_of_slice
              0 (ExArray [1; 2]) m_line) as (sub & Hslice & Hcall).
  - vm_compute. reflexivity.
  - unfold len. simpl. lia.
  - reflexivity.
  - exists sub. split; [exact Hslice|]. apply Hcall. reflexivity.
Defined.

(** The concrete nodes shift by a constant, and shift back. *)
Lemma shift_back (k : Z) (x : data (list Z)) : shift (- k) (shift k x) = x.
Proof.
  revert x. fix IH 1. intros [a|xs|xs]; cbn [shift]; f_equal.
  - induction a as [|z a IHa]; [reflexivity|].
    cbn. f_equal; [lia|exact IHa].
  - induction xs as [|x xs IHxs]; [reflexivity|].
    cbn. f_equal; [apply IH|exact IHxs].
  - induction xs as [|x xs IHxs]; [reflexivity|].
    cbn. f_equal; [apply IH|exact IHxs].
Qed.

Lemma nodes_invertible (n : nat) : invertible n.
Proof.
  intros x w y w1 Hex w2. cbn in Hex. unfold ex_execute in Hex.
  destruct (ns_execute_fails (state_of n w)); [discriminate|].
  injection Hex as <- _. eexists. cbn. unfold ex_inverse.
  rewrite shift_back. reflexivity.
Qed.

Lemma X25_witness :
  exists w,
    inverse (ExArray [4; 5]) (execute (ExArray [1; 2]) None m_line).2 =
    (Ok (Array [1; 2]), set_world w (execute (ExArray [1; 2]) None m_line).2).
Proof.
  apply (EngineLaws.X25_inverse_undoes_execute [1; 2] [4; 5] m_line).
  - repeat constructor; apply nodes_invertible.
  - vm_compute. reflexivity.
Defined.

End EngineLawExamples.

(** ** A checkpoint function on the concrete nodes *)

Module CheckpointLawExamples.
Import Py Model Checkpoints Example.


End CheckpointLawExamples.
